(** * CustomBorders plugin (src/plugins/customBorders/customBorders.js)

    A shallow embedding of the plugin's state and operations, and the
    properties of its border store, per-cell metadata and overlay
    collection.

    The plugin keeps JavaScript objects that are shared between three
    places: the array [this.savedBorders], the ['borders'] key of the cell
    metadata, and the [settings] of the custom selections of the
    highlight.  Border objects are mutated in place ([bordersMeta[place] =
    ...], [extend(customSelection.settings, border)]), so the embedding has
    an explicit object heap and the three places hold references into it. *)

From Stdlib Require Import ZArith Lia DecimalString DecimalZ Ascii String.
From stdpp Require Import functions gmap strings fin_maps list.

Local Open Scope Z_scope.

(** ** Data model *)

(** One edge of a border as a JavaScript value.  The objects written by the
    plugin and by the configuration carry the optional keys [hide], [width]
    and [color]; the configuration may also give a falsy primitive such as
    [''] (class comment of the source, [top: '']). *)
Record EdgeStyle := {
  hide : option bool;
  width : option Z;
  color : option string
}.

Inductive EdgeVal :=
| EdgeObj (e : EdgeStyle)
| EdgeFalsy.

(** The [border] key of a border object: "{Object} with `color`, `width`
    and `cornerVisible` property" (doc comments of the source). *)
Record HtBorder := {
  ht_width : Z;
  ht_color : string;
  cornerVisible : bool
}.

(** A border object: "Object with `row` and `col`, `left`, `right`, `top`
    and `bottom`, `id` and `border`".  [border = None] is an object without
    the [border] key. *)
Record BorderRecord := {
  id : string;
  border : option HtBorder;
  row : Z;
  col : Z;
  top : EdgeVal;
  right : EdgeVal;
  bottom : EdgeVal;
  left : EdgeVal
}.

(** The four edge keys, and the [place] argument of the context menu. *)
Inductive Edge := Top | Right | Bottom | Left.

Inductive Place :=
| PlaceEdge (e : Edge)
| NoBorders.

Definition getEdge (e : Edge) (b : BorderRecord) : EdgeVal :=
  match e with
  | Top => top b
  | Right => right b
  | Bottom => bottom b
  | Left => left b
  end.

(** [border[place] = v] *)
Definition setEdge (e : Edge) (v : EdgeVal) (b : BorderRecord) : BorderRecord :=
  match e with
  | Top => {| id := id b; border := border b; row := row b; col := col b;
              top := v; right := right b; bottom := bottom b; left := left b |}
  | Right => {| id := id b; border := border b; row := row b; col := col b;
                top := top b; right := v; bottom := bottom b; left := left b |}
  | Bottom => {| id := id b; border := border b; row := row b; col := col b;
                 top := top b; right := right b; bottom := v; left := left b |}
  | Left => {| id := id b; border := border b; row := row b; col := col b;
               top := top b; right := right b; bottom := bottom b; left := v |}
  end.

(** The [borderObject] argument and the edge keys of a configuration
    entry: [None] is an absent key ([hasOwnProperty] is false). *)
Record BorderObject := {
  bo_top : option EdgeVal;
  bo_right : option EdgeVal;
  bo_bottom : option EdgeVal;
  bo_left : option EdgeVal
}.

Definition ownEdge (e : Edge) (o : BorderObject) : option EdgeVal :=
  match e with
  | Top => bo_top o
  | Right => bo_right o
  | Bottom => bo_bottom o
  | Left => bo_left o
  end.

Definition noEdges : BorderObject :=
  {| bo_top := None; bo_right := None; bo_bottom := None; bo_left := None |}.

(** A border object read as a descriptor: all four edge keys are own
    properties. *)
Definition recordAsDescriptor (b : BorderRecord) : BorderObject :=
  {| bo_top := Some (top b); bo_right := Some (right b);
     bo_bottom := Some (bottom b); bo_left := Some (left b) |}.

(** [{from: {row, col}, to: {row, col}}], also the [from] and [to] of a
    [CellRange]; coordinates are (row, col) pairs. *)
Record Range := {
  from : Z * Z;
  to : Z * Z
}.

(** ** utils.js *)

Definition string_of_Z (z : Z) : string := NilEmpty.string_of_int (Z.to_int z).

(** Modelled from the spec: [createId] of utils.js is not under src/.  The
    spec asks for a string key that is determined by (row, col) and free of
    collisions; the format below is one such key. *)
Definition createId (row col : Z) : string :=
  "border_row" +:+ string_of_Z row +:+ "col" +:+ string_of_Z col.

(** Modelled from the spec: [createSingleEmptyBorder] of utils.js,
    [{ hide: true }]. *)
Definition createSingleEmptyBorder : EdgeVal :=
  EdgeObj {| hide := Some true; width := None; color := None |}.

Definition defaultWidth : Z := 1.
Definition defaultColor : string := "#000".

(** Modelled from the spec: [createDefaultCustomBorder] of utils.js,
    [{ hide: false, width: <default>, color: <default> }]. *)
Definition createDefaultCustomBorder : EdgeVal :=
  EdgeObj {| hide := Some false; width := Some defaultWidth;
             color := Some defaultColor |}.

Definition createDefaultHtBorder : HtBorder :=
  {| ht_width := defaultWidth; ht_color := defaultColor; cornerVisible := false |}.

(** Modelled from the spec: [createEmptyBorders] of utils.js, all four
    edges the empty edge style; the [border] key is the one the doc
    comments of the source give to every border object. *)
Definition createEmptyBorders (row col : Z) : BorderRecord :=
  {| id := createId row col;
     border := Some createDefaultHtBorder;
     row := row;
     col := col;
     top := createSingleEmptyBorder;
     right := createSingleEmptyBorder;
     bottom := createSingleEmptyBorder;
     left := createSingleEmptyBorder |}.

(** A caller-supplied edge merged over the default custom border: a
    non-empty object overrides the default key by key, an empty object or a
    falsy value gives the default itself. *)
Definition mergeOverDefault (v : EdgeVal) : EdgeVal :=
  match v with
  | EdgeObj e =>
      EdgeObj {| hide := match hide e with Some h => Some h | None => Some false end;
                 width := match width e with Some w => Some w | None => Some defaultWidth end;
                 color := match color e with Some c => Some c | None => Some defaultColor end |}
  | EdgeFalsy => createDefaultCustomBorder
  end.

Definition extendEdge (e : Edge) (customBorder : BorderObject)
    (defaultBorder : BorderRecord) : BorderRecord :=
  match ownEdge e customBorder with
  | Some v => setEdge e (mergeOverDefault v) defaultBorder
  | None => defaultBorder
  end.

(** Modelled from the spec: [extendDefaultBorder] of utils.js, which the
    spec gives for a partial object ([Some]): for each of the four edge
    keys present in the partial object the value is merged over
    [createDefaultCustomBorder()]; an absent key leaves the edge of the
    record as it is.  [None] is the [undefined] that [setBorders(selection)]
    without a border object passes on for a single cell given as an array;
    the spec does not give the helper for it, and the embedding takes it as
    an object without keys.  The properties of [clearBorders(selection)]
    are stated for the elements of a selection that do not take this
    path. *)
Definition extendDefaultBorder (defaultBorder : BorderRecord)
    (customBorder : option BorderObject) : BorderRecord :=
  match customBorder with
  | Some o =>
      extendEdge Left o (extendEdge Bottom o (extendEdge Right o (extendEdge Top o defaultBorder)))
  | None => defaultBorder
  end.

(** ** Hidden edges *)

(** [value.hide] read as a condition. *)
Definition edgeHidden (v : EdgeVal) : bool :=
  match v with
  | EdgeObj e => match hide e with Some true => true | _ => false end
  | EdgeFalsy => false
  end.

(** The values [Object.values(border)] enumerates. *)
Inductive JsValue :=
| VString (s : string)
| VNumber (n : Z)
| VHtBorder (h : HtBorder)
| VEdge (v : EdgeVal).

Definition objectValues (b : BorderRecord) : list JsValue :=
  [VString (id b)]
  ++ match border b with Some h => [VHtBorder h] | None => [] end
  ++ [VNumber (row b); VNumber (col b);
      VEdge (top b); VEdge (right b); VEdge (bottom b); VEdge (left b)].

Definition valueHide (v : JsValue) : bool :=
  match v with
  | VEdge e => edgeHidden e
  | _ => false
  end.

(** [countHide(border)]: [arrayReduce] over [Object.values(border)]. *)
Definition countHide (b : BorderRecord) : nat :=
  foldl (λ accumulator value,
           if valueHide value then (accumulator + 1)%nat else accumulator)
        0%nat (objectValues b).

(** All four edge slots have [hide = true]. *)
Definition allHidden (b : BorderRecord) : bool :=
  edgeHidden (top b) && edgeHidden (right b)
  && edgeHidden (bottom b) && edgeHidden (left b).

(** ** Plugin state *)

(** A reference to a border object. *)
Definition ref := nat.

(** Modelled from the spec: an entry of the overlay collection
    ([this.hot.selection.highlight.customSelections]; the highlight and
    [Selection] of 3rdparty/walkontable are not under src/).  An entry
    pairs the border object it was created with, [settings], with a range,
    [cellRange], which the entry's own [clear()] sets to [null].  The DOM
    side ([instanceBorders], [toggleHiddenClass], [draw]) is not part of the
    state. *)
Record Selection := {
  settings : ref;
  cellRange : option Range
}.

Record State := {
  heap : ref → BorderRecord;          (* the border objects *)
  next : ref;                         (* first unused reference *)
  savedBorders : list ref;            (* this.savedBorders *)
  cellMeta : gmap (Z * Z) ref;        (* getCellMeta(row, col).borders *)
  customSelections : list Selection;  (* this.hot.selection.highlight.customSelections *)
  enabled : bool                      (* this.enabled *)
}.

Definition set_heap (h : ref → BorderRecord) (n : ref) (st : State) : State :=
  {| heap := h; next := n; savedBorders := savedBorders st;
     cellMeta := cellMeta st; customSelections := customSelections st;
     enabled := enabled st |}.

Definition set_savedBorders (l : list ref) (st : State) : State :=
  {| heap := heap st; next := next st; savedBorders := l;
     cellMeta := cellMeta st; customSelections := customSelections st;
     enabled := enabled st |}.

Definition set_cellMeta (m : gmap (Z * Z) ref) (st : State) : State :=
  {| heap := heap st; next := next st; savedBorders := savedBorders st;
     cellMeta := m; customSelections := customSelections st;
     enabled := enabled st |}.

Definition set_customSelections (l : list Selection) (st : State) : State :=
  {| heap := heap st; next := next st; savedBorders := savedBorders st;
     cellMeta := cellMeta st; customSelections := l;
     enabled := enabled st |}.

Definition set_enabled (e : bool) (st : State) : State :=
  {| heap := heap st; next := next st; savedBorders := savedBorders st;
     cellMeta := cellMeta st; customSelections := customSelections st;
     enabled := e |}.

(** The state after the constructor: [this.savedBorders = []], no cell
    metadata, no custom selection. *)
Definition init : State :=
  {| heap := λ _, createEmptyBorders 0 0; next := 0%nat; savedBorders := [];
     cellMeta := ∅; customSelections := []; enabled := false |}.

(** A new object. *)
Definition alloc (b : BorderRecord) (st : State) : ref * State :=
  (next st, set_heap (<[next st := b]> (heap st)) (S (next st)) st).

(** An assignment to keys of the object behind [r]. *)
Definition modify (r : ref) (f : BorderRecord → BorderRecord) (st : State) : State :=
  set_heap (<[r := f (heap st r)]> (heap st)) (next st) st.

(** Modelled from the spec: the grid metadata store (core.js is not under
    src/), [hot.setCellMeta(row, col, 'borders', border)] and
    [hot.removeCellMeta(row, col, 'borders')]; [getCellMeta(row,
    col).borders] is the lookup in [cellMeta]. *)
Definition setCellMeta (row col : Z) (border : ref) (st : State) : State :=
  set_cellMeta (<[(row, col) := border]> (cellMeta st)) st.

Definition removeCellMeta (row col : Z) (st : State) : State :=
  set_cellMeta (delete (row, col) (cellMeta st)) st.

(** ** Helpers of the source *)

(** [array.indexOf(x)]: the first index, [None] for -1. *)
Fixpoint indexOf (x : string) (l : list string) : option nat :=
  match l with
  | [] => None
  | y :: l' => if decide (x = y) then Some 0%nat else S <$> indexOf x l'
  end.

(** Modelled from the spec: [rangeEach(rangeFrom, rangeTo, iteratee)] of
    helpers/number.js is not under src/; a rectangle is scanned in
    ascending order, both ends included, as the [for] loops of [setBorders]
    and [getBorders] do. *)
Definition rangeIndices (rangeFrom rangeTo : Z) : list Z :=
  seqZ rangeFrom (rangeTo - rangeFrom + 1).

Definition rangeEach (rangeFrom rangeTo : Z) (iteratee : Z → State → State)
    (st : State) : State :=
  foldl (λ s index, iteratee index s) st (rangeIndices rangeFrom rangeTo).

(** Modelled from the spec: [arrayEach(array, iteratee)] of
    helpers/array.js is not under src/; the elements in order, here over an
    array the iteratee does not change. *)
Definition arrayEach {A} (array : list A) (iteratee : A → State → State)
    (st : State) : State :=
  foldl (λ s x, iteratee x s) st array.

(** Modelled from the spec: [extend(target, extension)] of
    helpers/object.js is not under src/; the in-place merge of the new
    record's fields into the settings of an entry: every own key of
    [extension] is assigned to [target]. *)
Definition extend (target extension : BorderRecord) : BorderRecord :=
  {| id := id extension;
     border := match border extension with
               | Some h => Some h
               | None => border target
               end;
     row := row extension;
     col := col extension;
     top := top extension;
     right := right extension;
     bottom := bottom extension;
     left := left extension |}.

(** The ids [arrayMap(this.savedBorders, (border) => border.id)] and
    [arrayMap(customSelections, (customSelection) =>
    customSelection.settings.id)]. *)
Definition savedIds (st : State) : list string :=
  (λ r, id (heap st r)) <$> savedBorders st.

Definition selectionIds (st : State) : list string :=
  (λ s, id (heap st (settings s))) <$> customSelections st.

(** ** Private methods *)

(** [clearBordersFromSelectionSettings(borderId)] *)
Definition clearSelection (s : Selection) : Selection :=
  {| settings := settings s; cellRange := None |}.

Definition clearBordersFromSelectionSettings (borderId : string) (st : State) : State :=
  match indexOf borderId (selectionIds st) with
  | Some index =>
      set_customSelections (alter clearSelection index (customSelections st)) st
  | None => st
  end.

(** [clearNullCellRange()]: the first custom selection whose [cellRange]
    is [null] is spliced out and the loop stops. *)
Fixpoint removeFirstNull (l : list Selection) : list Selection :=
  match l with
  | [] => []
  | s :: l' =>
      match cellRange s with
      | None => l'
      | Some _ => s :: removeFirstNull l'
      end
  end.

Definition clearNullCellRange (st : State) : State :=
  set_customSelections (removeFirstNull (customSelections st)) st.

(** [spliceBorder(borderId)] *)
Definition spliceBorder (borderId : string) (st : State) : State :=
  match indexOf borderId (savedIds st) with
  | Some index => set_savedBorders (delete index (savedBorders st)) st
  | None => st
  end.

(** [removeAllBorders(row, column)] *)
Definition removeAllBorders (row column : Z) (st : State) : State :=
  let borderId := createId row column in
  let st := spliceBorder borderId st in
  let st := clearBordersFromSelectionSettings borderId st in
  let st := clearNullCellRange st in
  removeCellMeta row column st.

(** [checkSavedBorders(border)] *)
Definition checkSavedBorders (border : ref) (st : State) : bool * State :=
  let hideCount := countHide (heap st border) in
  if decide (hideCount = 4%nat) then
    (true, spliceBorder (id (heap st border)) st)
  else
    match indexOf (id (heap st border)) (savedIds st) with
    | Some index => (true, set_savedBorders (<[index := border]> (savedBorders st)) st)
    | None => (false, st)
    end.

(** [checkCustomSelectionsFromContextMenu(border, place, remove)]: the
    state keeps no trace of [toggleHiddenClass]; the result tells whether
    a custom selection with the id of [border] exists. *)
Definition checkCustomSelectionsFromContextMenu (border : ref) (st : State) : bool :=
  bool_decide (is_Some (indexOf (id (heap st border)) (selectionIds st))).

(** [checkCustomSelections(border, cellRange)] *)
Definition checkCustomSelections (border : ref) (range : Range) (st : State)
    : bool * State :=
  match indexOf (id (heap st border)) (selectionIds st) with
  | Some index =>
      match customSelections st !! index with
      | Some customSelection =>
          let st := modify (settings customSelection)
                      (λ target, extend target (heap st border)) st in
          (true,
           set_customSelections
             (<[index := {| settings := settings customSelection;
                            cellRange := Some range |}]> (customSelections st)) st)
      | None => (false, st)
      end
  | None => (false, st)
  end.

(** [insertBorderIntoSettings(border)] *)
Definition insertBorderIntoSettings (border : ref) (st : State) : State :=
  let '(hasSavedBorders, st) := checkSavedBorders border st in
  let st := if hasSavedBorders then st
            else set_savedBorders (savedBorders st ++ [border]) st in
  let coordinates := (row (heap st border), col (heap st border)) in
  let range := {| from := coordinates; to := coordinates |} in
  let '(hasCustomSelections, st) := checkCustomSelections border range st in
  if hasCustomSelections then st
  else set_customSelections
         (customSelections st ++ [{| settings := border; cellRange := Some range |}]) st.

(** [prepareBorderFromCustomAdded(row, column, borderDescriptor)] *)
Definition prepareBorderFromCustomAdded (row column : Z)
    (borderDescriptor : option BorderObject) (st : State) : State :=
  let '(border, st) :=
    alloc (extendDefaultBorder (createEmptyBorders row column) borderDescriptor) st in
  let st := setCellMeta row column border st in
  insertBorderIntoSettings border st.

(** The first argument of [prepareBorderFromCustomAddedRange]: a
    configuration entry with a [range] key and its own edge keys, or an
    object that is itself the range ([{from, to}] built by [setBorders], or
    a [CellRange]) and has no edge key of its own. *)
Inductive RowDescriptor :=
| RowWithRange (range : Range) (edges : BorderObject)
| RowIsRange (range : Range).

Definition rowRange (rowDecriptor : RowDescriptor) : Range :=
  match rowDecriptor with
  | RowWithRange range _ => range
  | RowIsRange range => range
  end.

Definition rowEdges (rowDecriptor : RowDescriptor) : BorderObject :=
  match rowDecriptor with
  | RowWithRange _ edges => edges
  | RowIsRange _ => noEdges
  end.

(** One of the four [if] blocks of the loop body of
    [prepareBorderFromCustomAddedRange]: on the boundary [add] grows, and
    an own edge key is copied as it is and the object is written to the
    cell metadata. *)
Definition rangeEdgeBlock (onBoundary : bool) (e : Edge)
    (borderDescriptor : BorderObject) (rowIndex colIndex : Z) (border : ref)
    (acc : nat * State) : nat * State :=
  let '(add, st) := acc in
  if onBoundary then
    match ownEdge e borderDescriptor with
    | Some v =>
        ((add + 1)%nat,
         setCellMeta rowIndex colIndex border (modify border (setEdge e v) st))
    | None => ((add + 1)%nat, st)
    end
  else (add, st).

Definition rangeCell (range : Range) (borderDescriptor : BorderObject)
    (rowIndex colIndex : Z) (st : State) : State :=
  let '(border, st) := alloc (createEmptyBorders rowIndex colIndex) st in
  let acc := (0%nat, st) in
  let acc := rangeEdgeBlock (bool_decide (rowIndex = (from range).1)) Top
               borderDescriptor rowIndex colIndex border acc in
  let acc := rangeEdgeBlock (bool_decide (rowIndex = (to range).1)) Bottom
               borderDescriptor rowIndex colIndex border acc in
  let acc := rangeEdgeBlock (bool_decide (colIndex = (from range).2)) Left
               borderDescriptor rowIndex colIndex border acc in
  let acc := rangeEdgeBlock (bool_decide (colIndex = (to range).2)) Right
               borderDescriptor rowIndex colIndex border acc in
  let '(add, st) := acc in
  if decide (0 < add)%nat then insertBorderIntoSettings border st else st.

(** [prepareBorderFromCustomAddedRange(rowDecriptor, borderObject)] *)
Definition prepareBorderFromCustomAddedRange (rowDecriptor : RowDescriptor)
    (borderObject : option BorderObject) (st : State) : State :=
  let range := rowRange rowDecriptor in
  let borderDescriptor :=
    match borderObject with
    | Some o => o
    | None => rowEdges rowDecriptor
    end in
  rangeEach (from range).1 (to range).1 (λ rowIndex,
    rangeEach (from range).2 (to range).2 (λ colIndex,
      rangeCell range borderDescriptor rowIndex colIndex)) st.

(** [setBorder(row, column, place, remove)] *)
Definition setBorder (row column : Z) (place : Edge) (remove : bool)
    (st : State) : State :=
  let '(bordersMeta, st) :=
    match cellMeta st !! (row, column) with
    | Some r =>
        match border (heap st r) with
        | Some _ => (r, st)
        | None => alloc (createEmptyBorders row column) st
        end
    | None => alloc (createEmptyBorders row column) st
    end in
  if remove then
    let st := modify bordersMeta (setEdge place createSingleEmptyBorder) st in
    let hideCount := countHide (heap st bordersMeta) in
    if decide (hideCount = 4%nat) then
      removeAllBorders row column st
    else
      let customSelectionsChecker := checkCustomSelectionsFromContextMenu bordersMeta st in
      let st := if customSelectionsChecker then st
                else insertBorderIntoSettings bordersMeta st in
      setCellMeta row column bordersMeta st
  else
    let st := modify bordersMeta (setEdge place createDefaultCustomBorder) st in
    let customSelectionsChecker := checkCustomSelectionsFromContextMenu bordersMeta st in
    let st := if customSelectionsChecker then st
              else insertBorderIntoSettings bordersMeta st in
    setCellMeta row column bordersMeta st.

(** [prepareBorder(selected, place, remove)]: [selected] is a list of
    [{start, end}] pairs of coordinates. *)
Definition prepareBorderOne (place : Place) (remove : bool)
    (sel : (Z * Z) * (Z * Z)) (st : State) : State :=
  let '(start, end_) := sel in
  if decide (start.1 = end_.1 ∧ start.2 = end_.2) then
    match place with
    | NoBorders => removeAllBorders start.1 start.2 st
    | PlaceEdge e => setBorder start.1 start.2 e remove st
    end
  else
    match place with
    | NoBorders =>
        rangeEach start.2 end_.2 (λ colIndex,
          rangeEach start.1 end_.1 (λ rowIndex,
            removeAllBorders rowIndex colIndex)) st
    | PlaceEdge Top =>
        rangeEach start.2 end_.2 (λ topCol, setBorder start.1 topCol Top remove) st
    | PlaceEdge Right =>
        rangeEach start.1 end_.1 (λ rowRight, setBorder rowRight end_.2 Right remove) st
    | PlaceEdge Bottom =>
        rangeEach start.2 end_.2 (λ bottomCol, setBorder end_.1 bottomCol Bottom remove) st
    | PlaceEdge Left =>
        rangeEach start.1 end_.1 (λ rowLeft, setBorder rowLeft start.2 Left remove) st
    end.

Definition prepareBorder (selected : list ((Z * Z) * (Z * Z))) (place : Place)
    (remove : bool) (st : State) : State :=
  arrayEach selected (prepareBorderOne place remove) st.

(** An entry of the [customBorders] setting: with a [range] key, or with
    [row] and [col]. *)
Inductive CustomBorder :=
| CustomRange (range : Range) (edges : BorderObject)
| CustomCell (row col : Z) (edges : BorderObject).

(** [createCustomBorders(customBorders)] for an array of the settings. *)
Definition createCustomBorder (customBorder : CustomBorder) (st : State) : State :=
  match customBorder with
  | CustomRange range edges =>
      prepareBorderFromCustomAddedRange (RowWithRange range edges) None st
  | CustomCell row col edges =>
      prepareBorderFromCustomAdded row col (Some edges) st
  end.

Definition createCustomBorders (customBorders : list CustomBorder) (st : State) : State :=
  arrayEach customBorders createCustomBorder st.

(** [createCustomBorders(this.savedBorders)]: [arrayEach] reads the length
    once and then [array[index]] of the live array at each step, while the
    body may replace or splice elements.  A border object has no [range]
    key, so each element goes to [prepareBorderFromCustomAdded].  An index
    past the end of a shortened array reads [undefined], and
    [customBorder.range] throws: [None]. *)
Fixpoint createSavedBordersFrom (index count : nat) (st : State) : option State :=
  match count with
  | O => Some st
  | S count' =>
      match savedBorders st !! index with
      | Some customBorder =>
          let b := heap st customBorder in
          createSavedBordersFrom (S index) count'
            (prepareBorderFromCustomAdded (row b) (col b)
               (Some (recordAsDescriptor b)) st)
      | None => None
      end
  end.

Definition createCustomBordersSaved (st : State) : option State :=
  createSavedBordersFrom 0 (length (savedBorders st)) st.

(** ** Public methods *)

(** An element of the [selection] argument of [setBorders] and
    [getBorders]: an array [[startRow, startColumn, endRow, endColumn]], or
    a range object with [getTopLeftCorner()] and [getBottomRightCorner()]. *)
Inductive SelectionItem :=
| SelArray (startRow startColumn endRow endColumn : Z)
| SelRange (cell : Range).

(** Modelled from the spec: the corner lookups of [CellRange]
    (3rdparty/walkontable, not under src/): the top-left and bottom-right
    corners of the rectangle spanned by [from] and [to]. *)
Definition getTopLeftCorner (cell : Range) : Z * Z :=
  (Z.min (from cell).1 (to cell).1, Z.min (from cell).2 (to cell).2).

Definition getBottomRightCorner (cell : Range) : Z * Z :=
  (Z.max (from cell).1 (to cell).1, Z.max (from cell).2 (to cell).2).

Definition setBordersOne (borderObject : option BorderObject)
    (cell : SelectionItem) (st : State) : State :=
  match cell with
  | SelRange cell =>
      let topLeft := getTopLeftCorner cell in
      let bottomRight := getBottomRightCorner cell in
      let st :=
        rangeEach topLeft.1 bottomRight.1 (λ row,
          rangeEach topLeft.2 bottomRight.2 (λ column,
            removeAllBorders row column)) st in
      prepareBorderFromCustomAddedRange (RowIsRange cell) borderObject st
  | SelArray startRow startColumn endRow endColumn =>
      if decide (startRow = endRow ∧ startColumn = endColumn) then
        let st := removeAllBorders startRow startColumn st in
        prepareBorderFromCustomAdded startRow startColumn borderObject st
      else
        let borderDescriptor :=
          {| from := (startRow, startColumn); to := (endRow, endColumn) |} in
        let st :=
          rangeEach startRow endRow (λ row,
            rangeEach startColumn endColumn (λ col,
              removeAllBorders row col)) st in
        prepareBorderFromCustomAddedRange (RowIsRange borderDescriptor) borderObject st
  end.

(** [setBorders(selection, borderObject)] *)
Definition setBorders (selection : list SelectionItem)
    (borderObject : option BorderObject) (st : State) : State :=
  arrayEach selection (setBordersOne borderObject) st.

(** The saved borders with [border.row === row && border.col === column],
    in the order of [this.savedBorders]. *)
Definition bordersAt (st : State) (rowIndex colIndex : Z) : list ref :=
  filter (λ border, row (heap st border) = rowIndex ∧ col (heap st border) = colIndex)
         (savedBorders st).

Definition bordersIn (st : State) (startRow startColumn endRow endColumn : Z)
    : list ref :=
  row ← rangeIndices startRow endRow;
  column ← rangeIndices startColumn endColumn;
  bordersAt st row column.

Definition getBordersOne (st : State) (cell : SelectionItem) : list ref :=
  match cell with
  | SelRange cell =>
      let topLeft := getTopLeftCorner cell in
      let bottomRight := getBottomRightCorner cell in
      bordersIn st topLeft.1 topLeft.2 bottomRight.1 bottomRight.2
  | SelArray startRow startColumn endRow endColumn =>
      if decide (startRow = endRow ∧ startColumn = endColumn) then
        bordersAt st startRow startColumn
      else
        bordersIn st startRow startColumn endRow endColumn
  end.

(** [getBorders(selection)]: the selected border objects; the state is not
    changed. *)
Definition getBorders (selection : list SelectionItem) (st : State) : list ref :=
  cell ← selection; getBordersOne st cell.

(** [clearBorders(selection)]; [None] is the call without an argument. *)
Definition clearBorders (selection : option (list SelectionItem)) (st : State) : State :=
  match selection with
  | None =>
      arrayEach (savedBorders st) (λ border s,
        removeCellMeta (row (heap s border)) (col (heap s border))
          (clearBordersFromSelectionSettings (id (heap s border)) s)) st
  | Some selection => setBorders selection None st
  end.

(** ** Settings and life cycle *)

(** The [customBorders] setting: undefined, an array of entries, or
    another value such as [true]. *)
Inductive Setting :=
| SettingUndefined
| SettingArray (customBorders : list CustomBorder)
| SettingOther (truthy : bool).

(** [changeBorderSettings()], given the [customBorders] setting. *)
Definition changeBorderSettings (customBorders : Setting) (st : State) : option State :=
  match customBorders with
  | SettingArray customBorders =>
      let st := match customBorders with
                | [] => set_savedBorders [] st
                | _ => st
                end in
      Some (createCustomBorders customBorders st)
  | SettingOther _ => createCustomBordersSaved st
  | SettingUndefined => Some st
  end.

(** [disablePlugin()], [enablePlugin()] (the hooks it registers call
    [onAfterContextMenuDefaultOptions] and [onAfterInit]), [updatePlugin()]
    and [onAfterInit()]. *)
Definition disablePlugin (st : State) : State :=
  set_enabled false (clearBorders None st).

Definition enablePlugin (st : State) : State :=
  if enabled st then st else set_enabled true st.

Definition updatePlugin (customBorders : Setting) (st : State) : option State :=
  changeBorderSettings customBorders (enablePlugin (disablePlugin st)).

Definition onAfterInit (customBorders : Setting) (st : State) : option State :=
  changeBorderSettings customBorders st.

(** The operations of the plugin as they are called from outside: the
    public methods, the context menu items ([prepareBorder]), the
    initialization from the settings and the life cycle. *)
Inductive Op :=
| OpSetBorders (selection : list SelectionItem) (borderObject : option BorderObject)
| OpGetBorders (selection : list SelectionItem)
| OpClearBorders (selection : option (list SelectionItem))
| OpPrepareBorder (selected : list ((Z * Z) * (Z * Z))) (place : Place) (remove : bool)
| OpCreateCustomBorders (customBorders : list CustomBorder)
| OpAfterInit (customBorders : Setting)
| OpUpdatePlugin (customBorders : Setting)
| OpDisablePlugin
| OpEnablePlugin.

(** The state after an operation, [None] when it throws. *)
Definition exec (op : Op) (st : State) : option State :=
  match op with
  | OpSetBorders selection borderObject => Some (setBorders selection borderObject st)
  | OpGetBorders selection => Some st
  | OpClearBorders selection => Some (clearBorders selection st)
  | OpPrepareBorder selected place remove => Some (prepareBorder selected place remove st)
  | OpCreateCustomBorders customBorders => Some (createCustomBorders customBorders st)
  | OpAfterInit customBorders => onAfterInit customBorders st
  | OpUpdatePlugin customBorders => updatePlugin customBorders st
  | OpDisablePlugin => Some (disablePlugin st)
  | OpEnablePlugin => Some (enablePlugin st)
  end.

(** The states the plugin can be in between operations. *)
Inductive reachable : State → Prop :=
| reachable_init : reachable init
| reachable_step op st st' :
    reachable st → exec op st = Some st' → reachable st'.

(** ** Views of a state *)

(** The saved border objects. *)
Definition savedRecords (st : State) : list BorderRecord :=
  heap st <$> savedBorders st.

(** The border object in the metadata of a cell. *)
Definition metaRecord (st : State) (rowIndex colIndex : Z) : option BorderRecord :=
  heap st <$> cellMeta st !! (rowIndex, colIndex).

(** The ids of all custom selections, and of the live ones (those whose
    [cellRange] is not [null]). *)
Definition liveIds (h : ref → BorderRecord) (l : list Selection) : list string :=
  (λ s, id (h (settings s))) <$> filter (λ s, is_Some (cellRange s)) l.

Definition liveSelectionIds (st : State) : list string :=
  liveIds (heap st) (customSelections st).

(** ** Well-formed states *)

(** The keys of a border object that no method changes. *)
Definition keyOf (b : BorderRecord) : string * Z * Z := (id b, row b, col b).

(** What holds of the references at every point of every method: they
    point to objects allocated earlier, every object has the id of its
    coordinates, the metadata of a cell holds an object of that cell, and
    ids are not repeated in [savedBorders] nor in [customSelections]. *)
Record wf0 (st : State) : Prop := {
  wf_saved_valid : ∀ r, r ∈ savedBorders st → (r < next st)%nat;
  wf_meta_valid : ∀ k r, cellMeta st !! k = Some r → (r < next st)%nat;
  wf_sel_valid : ∀ s, s ∈ customSelections st → (settings s < next st)%nat;
  wf_heap_coords : ∀ r, id (heap st r) = createId (row (heap st r)) (col (heap st r));
  wf_meta_coords : ∀ k r,
    cellMeta st !! k = Some r → (row (heap st r), col (heap st r)) = k;
  wf_saved_nodup : NoDup (savedIds st);
  wf_sel_nodup : NoDup (selectionIds st)
}.

(** No saved border has its four edges hidden. *)
Definition visible (st : State) : Prop :=
  ∀ r, r ∈ savedBorders st → allHidden (heap st r) = false.

Definition wf (st : State) : Prop := wf0 st ∧ visible st.

(** A string without the letter c. *)
Fixpoint noC (s : string) : Prop :=
  match s with
  | EmptyString => True
  | String a s' => a ≠ "c"%char ∧ noC s'
  end.

(** The two halves of [insertBorderIntoSettings]: the update of
    [savedBorders] and the update of the custom selections. *)
Definition insertSaved (border : ref) (st : State) : State :=
  let '(hasSavedBorders, st) := checkSavedBorders border st in
  if hasSavedBorders then st
  else set_savedBorders (savedBorders st ++ [border]) st.

Definition insertSelection (border : ref) (st : State) : State :=
  let coordinates := (row (heap st border), col (heap st border)) in
  let range := {| from := coordinates; to := coordinates |} in
  let '(hasCustomSelections, st) := checkCustomSelections border range st in
  if hasCustomSelections then st
  else set_customSelections
         (customSelections st ++ [{| settings := border; cellRange := Some range |}]) st.

(** The two parts of [setBorder]: the border object it works on (the one
    in the cell metadata, or a new empty one), and the assignment and what
    follows it. *)
Definition bordersMetaOf (rowIndex colIndex : Z) (st : State) : ref * State :=
  match cellMeta st !! (rowIndex, colIndex) with
  | Some r =>
      match border (heap st r) with
      | Some _ => (r, st)
      | None => alloc (createEmptyBorders rowIndex colIndex) st
      end
  | None => alloc (createEmptyBorders rowIndex colIndex) st
  end.

Definition syncBorder (rowIndex colIndex : Z) (bordersMeta : ref) (st : State) : State :=
  let st := if checkCustomSelectionsFromContextMenu bordersMeta st then st
            else insertBorderIntoSettings bordersMeta st in
  setCellMeta rowIndex colIndex bordersMeta st.

Definition applyEdge (rowIndex colIndex : Z) (place : Edge) (remove : bool)
    (bordersMeta : ref) (st : State) : State :=
  if remove then
    let st := modify bordersMeta (setEdge place createSingleEmptyBorder) st in
    if decide (countHide (heap st bordersMeta) = 4%nat) then
      removeAllBorders rowIndex colIndex st
    else syncBorder rowIndex colIndex bordersMeta st
  else
    syncBorder rowIndex colIndex bordersMeta
      (modify bordersMeta (setEdge place createDefaultCustomBorder) st).

(** The border object [setBorder] starts from. *)
Definition startBorder (rowIndex colIndex : Z) (st : State) : BorderRecord :=
  match metaRecord st rowIndex colIndex with
  | Some b =>
      match border b with
      | Some _ => b
      | None => createEmptyBorders rowIndex colIndex
      end
  | None => createEmptyBorders rowIndex colIndex
  end.

(** The custom selections after [clearBordersFromSelectionSettings]. *)
Definition clearAt (h : ref → BorderRecord) (borderId : string)
    (l : list Selection) : list Selection :=
  match indexOf borderId ((λ s, id (h (settings s))) <$> l) with
  | Some index => alter clearSelection index l
  | None => l
  end.

(** The body of the loop of [clearBorders()]. *)
Definition clearBordersStep (border : ref) (s : State) : State :=
  removeCellMeta (row (heap s border)) (col (heap s border))
    (clearBordersFromSelectionSettings (id (heap s border)) s).

(** The hidden flags of the four edges: top, right, bottom, left. *)
Definition hiddenFlags (b : BorderRecord) : bool * bool * bool * bool :=
  (edgeHidden (top b), edgeHidden (right b), edgeHidden (bottom b),
   edgeHidden (left b)).

(** ** Example arguments *)

(** The object [{}]. *)
Definition emptyObject : EdgeVal :=
  EdgeObj {| hide := None; width := None; color := None |}.

(** [{top: {}}] and [{top: {}, left: {}}]. *)
Definition onlyTop : BorderObject :=
  {| bo_top := Some emptyObject; bo_right := None; bo_bottom := None;
     bo_left := None |}.

Definition topAndLeft : BorderObject :=
  {| bo_top := Some emptyObject; bo_right := None; bo_bottom := None;
     bo_left := Some emptyObject |}.

(** [{top: {width: 2}}] *)
Definition wideTop : BorderObject :=
  {| bo_top := Some (EdgeObj {| hide := None; width := Some 2; color := None |});
     bo_right := None; bo_bottom := None; bo_left := None |}.

(** The border object the loop body of [prepareBorderFromCustomAddedRange]
    builds for a cell: the own edges of the descriptor on the sides where
    the cell is on the boundary of the range, copied as they are. *)
Definition rawEdge (onBoundary : bool) (e : Edge) (borderDescriptor : BorderObject)
    (b : BorderRecord) : BorderRecord :=
  if onBoundary then
    match ownEdge e borderDescriptor with
    | Some v => setEdge e v b
    | None => b
    end
  else b.

Definition rawBorder (range : Range) (borderDescriptor : BorderObject)
    (rowIndex colIndex : Z) : BorderRecord :=
  rawEdge (bool_decide (colIndex = (to range).2)) Right borderDescriptor
    (rawEdge (bool_decide (colIndex = (from range).2)) Left borderDescriptor
       (rawEdge (bool_decide (rowIndex = (to range).1)) Bottom borderDescriptor
          (rawEdge (bool_decide (rowIndex = (from range).1)) Top borderDescriptor
             (createEmptyBorders rowIndex colIndex)))).

Definition onBoundary (range : Range) (rowIndex colIndex : Z) : bool :=
  bool_decide (rowIndex = (from range).1) || bool_decide (rowIndex = (to range).1)
  || bool_decide (colIndex = (from range).2) || bool_decide (colIndex = (to range).2).

(** The state part of [rangeEdgeBlock]. *)
Definition rawBlock (onBoundary : bool) (e : Edge) (borderDescriptor : BorderObject)
    (rowIndex colIndex : Z) (border : ref) (st : State) : State :=
  if onBoundary then
    match ownEdge e borderDescriptor with
    | Some v => setCellMeta rowIndex colIndex border (modify border (setEdge e v) st)
    | None => st
    end
  else st.

(** What the loop body of [prepareBorderFromCustomAddedRange] keeps about
    its new border object until it is inserted. *)
Definition cellInv (rowIndex colIndex : Z) (b : ref) (st : State) : Prop :=
  wf st ∧ (b < next st)%nat
  ∧ keyOf (heap st b) = (createId rowIndex colIndex, rowIndex, colIndex)
  ∧ b ∉ savedBorders st.

(** The ids of the cells of a rectangle. *)
Definition rectIds (r1 c1 r2 c2 : Z) : list string :=
  r ← rangeIndices r1 r2; c ← rangeIndices c1 c2; [createId r c].

(** The borders of a cell are gone. *)
Definition cellCleared (rowIndex colIndex : Z) (s : State) : Prop :=
  (createId rowIndex colIndex ∉ savedIds s)
  ∧ cellMeta s !! (rowIndex, colIndex) = None.

(** What [createCustomBorders(this.savedBorders)] makes of a saved border:
    its edges merged over the default custom border, on a new object. *)
Definition reapply (b : BorderRecord) : BorderRecord :=
  extendDefaultBorder (createEmptyBorders (row b) (col b))
    (Some (recordAsDescriptor b)).

(** The border is back: saved, in the metadata of its cell, and with a
    live custom selection. *)
Definition reapplied (b : BorderRecord) (s : State) : Prop :=
  reapply b ∈ savedRecords s
  ∧ metaRecord s (row b) (col b) = Some (reapply b)
  ∧ id b ∈ liveSelectionIds s.

(** The part of a state outside a set of ids.  [touches ids st st'] says
    that going from [st] to [st'] keeps the keys of every object, and
    leaves alone the objects, the saved borders, the cell metadata and the
    live custom selections of every id that is not in [ids]. *)
Record touches (ids : list string) (st st' : State) : Prop := {
  t_next : (next st ≤ next st')%nat;
  t_keys : ∀ r, (r < next st)%nat → keyOf (heap st' r) = keyOf (heap st r);
  t_heap : ∀ r, (r < next st)%nat → id (heap st r) ∉ ids → heap st' r = heap st r;
  t_saved :
    filter (λ r, id (heap st' r) ∉ ids) (savedBorders st')
    = filter (λ r, id (heap st r) ∉ ids) (savedBorders st);
  t_meta : ∀ k, createId k.1 k.2 ∉ ids → cellMeta st' !! k = cellMeta st !! k;
  t_live : ∀ x, x ∉ ids → x ∈ liveSelectionIds st' ↔ x ∈ liveSelectionIds st
}.

(** ** Cells *)

(** The cells of a rectangle in the order of two nested loops with the
    rows outside, as in [setBorders], [getBorders] and
    [prepareBorderFromCustomAddedRange]. *)
Definition cellsOf (r1 c1 r2 c2 : Z) : list (Z * Z) :=
  r ← rangeIndices r1 r2; c ← rangeIndices c1 c2; [(r, c)].

(** What can be seen of a cell: the border object in its metadata, its
    saved borders, and whether it has a live custom selection. *)
Definition cellView (st : State) (rowIndex colIndex : Z)
    : option BorderRecord * list BorderRecord * bool :=
  (metaRecord st rowIndex colIndex,
   heap st <$> bordersAt st rowIndex colIndex,
   bool_decide (createId rowIndex colIndex ∈ liveSelectionIds st)).

(** The cell lies in the rectangle that [setBorders] and [getBorders] scan
    for an element of the selection. *)
Definition inItem (cell : SelectionItem) (rowIndex colIndex : Z) : Prop :=
  match cell with
  | SelArray startRow startColumn endRow endColumn =>
      startRow ≤ rowIndex ≤ endRow ∧ startColumn ≤ colIndex ≤ endColumn
  | SelRange cell =>
      (getTopLeftCorner cell).1 ≤ rowIndex ≤ (getBottomRightCorner cell).1
      ∧ (getTopLeftCorner cell).2 ≤ colIndex ≤ (getBottomRightCorner cell).2
  end.

(** [hasOwnProperty(borderDescriptor, edge)] *)
Definition hasOwn (e : Edge) (borderDescriptor : BorderObject) : bool :=
  match ownEdge e borderDescriptor with
  | Some _ => true
  | None => false
  end.

(** The loop body of [prepareBorderFromCustomAddedRange] writes the cell
    metadata: the cell is on a side of the range for which the descriptor
    has an own edge key. *)
Definition writesMeta (range : Range) (borderDescriptor : BorderObject)
    (rowIndex colIndex : Z) : bool :=
  bool_decide (rowIndex = (from range).1) && hasOwn Top borderDescriptor
  || bool_decide (rowIndex = (to range).1) && hasOwn Bottom borderDescriptor
  || bool_decide (colIndex = (from range).2) && hasOwn Left borderDescriptor
  || bool_decide (colIndex = (to range).2) && hasOwn Right borderDescriptor.

(** The cells the context menu item of an edge works on, for a selection
    from [start] to [end]: one row or one column of the rectangle. *)
Definition edgeCells (e : Edge) (start end_ : Z * Z) : list (Z * Z) :=
  match e with
  | Top => (λ c, (start.1, c)) <$> rangeIndices start.2 end_.2
  | Right => (λ r, (r, end_.2)) <$> rangeIndices start.1 end_.1
  | Bottom => (λ c, (end_.1, c)) <$> rangeIndices start.2 end_.2
  | Left => (λ r, (r, start.2)) <$> rangeIndices start.1 end_.1
  end.

Definition onEdge (e : Edge) (start end_ : Z * Z) (rowIndex colIndex : Z) : Prop :=
  match e with
  | Top => rowIndex = start.1 ∧ start.2 ≤ colIndex ≤ end_.2
  | Right => colIndex = end_.2 ∧ start.1 ≤ rowIndex ≤ end_.1
  | Bottom => rowIndex = end_.1 ∧ start.2 ≤ colIndex ≤ end_.2
  | Left => colIndex = start.2 ∧ start.1 ≤ rowIndex ≤ end_.1
  end.

#[global] Instance inItem_dec cell rowIndex colIndex :
  Decision (inItem cell rowIndex colIndex).
Proof. destruct cell; simpl; apply _. Defined.

(** [borderObject || rowDecriptor] when the row descriptor is the range
    itself, which has no edge key. *)
Definition descriptorOf (borderObject : option BorderObject) : BorderObject :=
  match borderObject with
  | Some o => o
  | None => noEdges
  end.

(** How a cell of a range looks once its borders were removed and the
    loop body of [prepareBorderFromCustomAddedRange] has run for it. *)
Definition rangeView (range : Range) (borderDescriptor : BorderObject)
    (rowIndex colIndex : Z) : option BorderRecord * list BorderRecord * bool :=
  let raw := rawBorder range borderDescriptor rowIndex colIndex in
  (if writesMeta range borderDescriptor rowIndex colIndex then Some raw else None,
   if onBoundary range rowIndex colIndex && negb (allHidden raw) then [raw] else [],
   onBoundary range rowIndex colIndex).

(** How a cell looks after [prepareBorderFromCustomAdded] when it had no
    saved border. *)
Definition pointView (rowIndex colIndex : Z) (borderDescriptor : option BorderObject)
    : option BorderRecord * list BorderRecord * bool :=
  let b := extendDefaultBorder (createEmptyBorders rowIndex colIndex)
             borderDescriptor in
  (Some b, if allHidden b then [] else [b], true).

(** How a cell in the rectangle of an element of the selection looks
    after [setBorders]. *)
Definition itemView (borderObject : option BorderObject) (cell : SelectionItem)
    (rowIndex colIndex : Z) : option BorderRecord * list BorderRecord * bool :=
  match cell with
  | SelArray startRow startColumn endRow endColumn =>
      if decide (startRow = endRow ∧ startColumn = endColumn) then
        pointView startRow startColumn borderObject
      else
        rangeView {| from := (startRow, startColumn); to := (endRow, endColumn) |}
          (descriptorOf borderObject) rowIndex colIndex
  | SelRange cell =>
      if decide ((from cell).1 ≤ (to cell).1 ∧ (from cell).2 ≤ (to cell).2) then
        rangeView cell (descriptorOf borderObject) rowIndex colIndex
      else (None, [], false)
  end.

(** The cell is one that an entry of the [customBorders] setting names:
    the cell of [row] and [col], or a cell of the [range]. *)
Definition inEntry (customBorder : CustomBorder) (rowIndex colIndex : Z) : Prop :=
  match customBorder with
  | CustomRange range _ =>
      (from range).1 ≤ rowIndex ≤ (to range).1
      ∧ (from range).2 ≤ colIndex ≤ (to range).2
  | CustomCell row col _ => rowIndex = row ∧ colIndex = col
  end.

(** An element of a selection that [setBorders] takes through
    [prepareBorderFromCustomAddedRange]: a range object, or a coordinate
    array that is not a single cell. *)
Definition rangePath (cell : SelectionItem) : Prop :=
  match cell with
  | SelArray startRow startColumn endRow endColumn =>
      ¬ (startRow = endRow ∧ startColumn = endColumn)
  | SelRange _ => True
  end.

(** * Properties *)

(** ** Ids *)

Lemma noC_string_of_uint d : noC (NilEmpty.string_of_uint d).
Proof. induction d; simpl; auto; split; auto; discriminate. Qed.

Lemma noC_string_of_Z z : noC (string_of_Z z).
Proof.
  unfold string_of_Z, NilEmpty.string_of_int.
  destruct (Z.to_int z); simpl; [|split; [discriminate|]];
    apply noC_string_of_uint.
Qed.

Lemma string_of_Z_inj z1 z2 : string_of_Z z1 = string_of_Z z2 → z1 = z2.
Proof.
  unfold string_of_Z. intros H.
  assert (Some (Z.to_int z1) = Some (Z.to_int z2)) as Hs.
  { rewrite <- !NilEmpty.isi. by rewrite H. }
  injection Hs as Hs. rewrite <- (DecimalZ.of_to z1), <- (DecimalZ.of_to z2).
  by rewrite Hs.
Qed.

Lemma append_sep_inj s1 t1 s2 t2 :
  noC s1 → noC t1 →
  s1 +:+ String "c" s2 = t1 +:+ String "c" t2 → s1 = t1 ∧ s2 = t2.
Proof.
  revert t1. induction s1 as [|a s1 IH]; intros [|b t1] Hs Ht; simpl; intros H.
  - by injection H.
  - injection H as H1 H2. destruct Ht as [Ht _]. by subst.
  - injection H as H1 H2. destruct Hs as [Hs _]. by subst.
  - injection H as H1 H2. destruct Hs as [_ Hs], Ht as [_ Ht].
    destruct (IH t1 Hs Ht H2) as [-> ->]. by subst.
Qed.

(** The key of [createId] is free of collisions. *)
Lemma createId_inj r1 c1 r2 c2 :
  createId r1 c1 = createId r2 c2 → r1 = r2 ∧ c1 = c2.
Proof.
  unfold createId. intros H. simpl in H.
  injection H as H.
  apply append_sep_inj in H; try apply noC_string_of_Z.
  destruct H as [H1 H2]. injection H2 as H2.
  split; by apply string_of_Z_inj.
Qed.

(** ** Hidden edges *)

Lemma countHide_allHidden b : countHide b = 4%nat ↔ allHidden b = true.
Proof.
  unfold countHide, allHidden, objectValues.
  destruct (border b); simpl;
    destruct (edgeHidden (top b)), (edgeHidden (right b)),
      (edgeHidden (bottom b)), (edgeHidden (left b)); simpl;
    split; intros; (done || lia).
Qed.

Lemma countHide_not_allHidden b : countHide b ≠ 4%nat ↔ allHidden b = false.
Proof. rewrite countHide_allHidden. by destruct (allHidden b). Qed.

Lemma allHidden_extend target extension :
  allHidden (extend target extension) = allHidden extension.
Proof. done. Qed.

Lemma keyOf_setEdge e v b : keyOf (setEdge e v b) = keyOf b.
Proof. by destruct e. Qed.

Lemma getEdge_setEdge e v b : getEdge e (setEdge e v b) = v.
Proof. by destruct e. Qed.

Lemma getEdge_setEdge_ne e e' v b :
  e ≠ e' → getEdge e' (setEdge e v b) = getEdge e' b.
Proof. by destruct e, e'. Qed.

Lemma border_setEdge e v b : border (setEdge e v b) = border b.
Proof. by destruct e. Qed.

Lemma allHidden_setEdge_visible e v b :
  edgeHidden v = false → allHidden (setEdge e v b) = false.
Proof.
  intros Hv. unfold allHidden. destruct e; simpl; rewrite Hv;
    rewrite ?andb_false_r; done.
Qed.

Lemma edgeHidden_mergeOverDefault v :
  edgeHidden (mergeOverDefault v) = edgeHidden v.
Proof. destruct v as [[[[]|] ? ?]|]; done. Qed.

Lemma keyOf_extendEdge e o b : keyOf (extendEdge e o b) = keyOf b.
Proof. unfold extendEdge. destruct (ownEdge e o); [apply keyOf_setEdge|done]. Qed.

Lemma keyOf_extendDefaultBorder b o : keyOf (extendDefaultBorder b o) = keyOf b.
Proof.
  destruct o as [o|]; [|done]. unfold extendDefaultBorder.
  by rewrite !keyOf_extendEdge.
Qed.

Lemma extend_same b : extend b b = b.
Proof. destruct b as [? [?|] ? ? ? ? ? ?]; done. Qed.

Lemma keyOf_createEmptyBorders r c :
  keyOf (createEmptyBorders r c) = (createId r c, r, c).
Proof. done. Qed.

(** ** [indexOf] *)

Lemma indexOf_Some x l i :
  indexOf x l = Some i → l !! i = Some x ∧ x ∉ take i l.
Proof.
  revert i. induction l as [|y l IH]; intros i; simpl; [done|].
  case_decide as Hxy.
  - intros [= <-]. subst. split; [done|]. simpl. apply not_elem_of_nil.
  - destruct (indexOf x l) as [j|]; simpl; [|done].
    intros [= <-]. destruct (IH j eq_refl) as [H1 H2]. split; [done|].
    simpl. rewrite not_elem_of_cons. done.
Qed.

Lemma indexOf_None x l : indexOf x l = None ↔ x ∉ l.
Proof.
  induction l as [|y l IH]; simpl.
  - split; [intros _; apply not_elem_of_nil|done].
  - case_decide as Hxy.
    + subst. split; [done|]. intros H. exfalso. apply H. left.
    + rewrite not_elem_of_cons. destruct (indexOf x l); simpl.
      * split; [done|]. intros [_ H]. by apply IH in H.
      * split; [|done]. intros _. split; [done|]. by apply IH.
Qed.

Lemma indexOf_is_Some x l : is_Some (indexOf x l) ↔ x ∈ l.
Proof.
  destruct (indexOf x l) eqn:E.
  - split; [|by eauto]. intros _. apply indexOf_Some in E as [E _].
    by eapply list_elem_of_lookup_2.
  - apply indexOf_None in E. split; [by intros [? ?]|done].
Qed.

Lemma indexOf_NoDup x l i : NoDup l → l !! i = Some x → indexOf x l = Some i.
Proof.
  intros Hnd Hi. destruct (indexOf x l) as [j|] eqn:E.
  - apply indexOf_Some in E as [E _]. f_equal.
    by eapply NoDup_lookup.
  - apply indexOf_None in E. exfalso. apply E. by eapply list_elem_of_lookup_2.
Qed.

Lemma NoDup_delete_lookup {A} (l : list A) i x :
  NoDup l → l !! i = Some x → x ∉ delete i l.
Proof.
  intros Hnd Hi. rewrite delete_take_drop.
  rewrite <- (take_drop_middle l i x Hi) in Hnd.
  apply NoDup_app in Hnd as (_ & H2 & H3).
  apply NoDup_cons in H3 as [H3 _].
  rewrite not_elem_of_app. split; [|done].
  intros H. apply (H2 x H). left.
Qed.

Lemma NoDup_delete {A} (l : list A) i : NoDup l → NoDup (delete i l).
Proof. intros H. eapply sublist_NoDup; [done|apply sublist_delete]. Qed.

(** ** Reading ids through the heap *)

Lemma ids_ext (h h' : ref → BorderRecord) (l : list ref) :
  (∀ r, r ∈ l → id (h' r) = id (h r)) →
  (λ r, id (h' r)) <$> l = (λ r, id (h r)) <$> l.
Proof.
  intros H. apply list_fmap_ext. intros i r Hr. apply H.
  by eapply list_elem_of_lookup_2.
Qed.

Lemma selection_ids_ext (h h' : ref → BorderRecord) (l : list Selection) :
  (∀ s, s ∈ l → id (h' (settings s)) = id (h (settings s))) →
  (λ s, id (h' (settings s))) <$> l = (λ s, id (h (settings s))) <$> l.
Proof.
  intros H. apply list_fmap_ext. intros i r Hr. apply H.
  by eapply list_elem_of_lookup_2.
Qed.

Lemma keyOf_id b b' : keyOf b = keyOf b' → id b = id b'.
Proof. by intros [= -> _ _]. Qed.

Lemma keyOf_row b b' : keyOf b = keyOf b' → row b = row b'.
Proof. by intros [= _ -> _]. Qed.

Lemma keyOf_col b b' : keyOf b = keyOf b' → col b = col b'.
Proof. by intros [= _ _ ->]. Qed.

(** Objects with the same id have the same coordinates. *)
Lemma same_id_same_key b b' :
  id b = createId (row b) (col b) → id b' = createId (row b') (col b') →
  id b = id b' → keyOf b = keyOf b'.
Proof.
  intros H1 H2 H3. unfold keyOf. rewrite H3.
  rewrite H1, H2 in H3. apply createId_inj in H3 as [-> ->]. done.
Qed.

Lemma filter_ext_in {A} (P1 P2 : A → Prop)
    `{!∀ x, Decision (P1 x), !∀ x, Decision (P2 x)} (l : list A) :
  (∀ x, x ∈ l → P1 x ↔ P2 x) → filter P1 l = filter P2 l.
Proof.
  induction l as [|a l IH]; intros Hiff; [done|].
  rewrite !filter_cons.
  rewrite IH by (intros x Hx; apply Hiff; by right).
  apply decide_ext, Hiff. left.
Qed.

(** ** [touches] is a preorder *)

Lemma touches_refl ids st : touches ids st st.
Proof. by constructor. Qed.

Lemma touches_trans ids st1 st2 st3 :
  touches ids st1 st2 → touches ids st2 st3 → touches ids st1 st3.
Proof.
  intros [A1 A2 A3 A4 A5 A6] [B1 B2 B3 B4 B5 B6]. constructor.
  - lia.
  - intros r Hr. rewrite B2 by lia. by apply A2.
  - intros r Hr Hid. rewrite B3; [by apply A3|lia|].
    by rewrite (keyOf_id _ _ (A2 r Hr)).
  - by rewrite B4.
  - intros k Hk. by rewrite B5, A5.
  - intros x Hx. by rewrite B6, A6.
Qed.

Lemma touches_mono ids ids' st st' :
  wf0 st → ids ⊆ ids' → touches ids st st' → touches ids' st st'.
Proof.
  intros Hwf Hsub [A1 A2 A3 A4 A5 A6]. constructor; [done|done| | | |].
  - intros r Hr Hid. apply A3; [done|]. intros H. by apply Hid, Hsub.
  - transitivity (filter (λ r, id (heap st' r) ∉ ids')
                    (filter (λ r, id (heap st' r) ∉ ids) (savedBorders st'))).
    { rewrite list_filter_filter. apply list_filter_iff. intros r.
      split; [|by intros [? _]]. intros H. split; [done|].
      intros H'. by apply H, Hsub. }
    rewrite A4, list_filter_filter. apply filter_ext_in. intros r Hr.
    rewrite (keyOf_id _ _ (A2 r (wf_saved_valid _ Hwf r Hr))).
    split; [by intros [? _]|]. intros H. split; [done|].
    intros H'. by apply H, Hsub.
  - intros k Hk. apply A5. intros H. by apply Hk, Hsub.
  - intros x Hx. apply A6. intros H. by apply Hx, Hsub.
Qed.

(** ** Micro steps: well-formedness *)

Lemma wf0_init : wf0 init.
Proof.
  constructor; simpl; try done.
  - intros r Hr. by apply elem_of_nil in Hr.
  - intros s Hs. by apply elem_of_nil in Hs.
  - constructor.
  - constructor.
Qed.

Lemma wf0_set_enabled e st : wf0 st → wf0 (set_enabled e st).
Proof. intros []. by constructor. Qed.

(** A new heap that keeps the keys of the objects allocated so far. *)
Lemma wf0_set_heap h n st :
  wf0 st → (next st ≤ n)%nat →
  (∀ r, (r < next st)%nat → keyOf (h r) = keyOf (heap st r)) →
  (∀ r, id (h r) = createId (row (h r)) (col (h r))) →
  wf0 (set_heap h n st).
Proof.
  intros [V1 V2 V3 C1 C2 N1 N2] Hn Hk Hc. constructor; simpl.
  - intros r Hr. specialize (V1 r Hr). lia.
  - intros k r Hr. specialize (V2 k r Hr). lia.
  - intros s Hs. specialize (V3 s Hs). lia.
  - done.
  - intros k r Hr. rewrite (keyOf_row _ _ (Hk r (V2 k r Hr))).
    rewrite (keyOf_col _ _ (Hk r (V2 k r Hr))). by apply C2.
  - unfold savedIds in *. simpl. erewrite ids_ext; [done|].
    intros r Hr. apply keyOf_id, Hk, V1, Hr.
  - unfold selectionIds in *. simpl. erewrite selection_ids_ext; [done|].
    intros s Hs. apply keyOf_id, Hk, V3, Hs.
Qed.

Lemma wf0_alloc b st :
  wf0 st → id b = createId (row b) (col b) → wf0 (alloc b st).2.
Proof.
  intros Hwf Hb. unfold alloc. simpl. apply wf0_set_heap; [done|lia| |].
  - intros r Hr. rewrite fn_lookup_insert_ne by lia. done.
  - intros r. destruct (decide (next st = r)) as [<-|Hne].
    + by rewrite fn_lookup_insert.
    + rewrite fn_lookup_insert_ne by done. by apply (wf_heap_coords _ Hwf).
Qed.

Lemma wf0_modify r f st :
  wf0 st → keyOf (f (heap st r)) = keyOf (heap st r) → wf0 (modify r f st).
Proof.
  intros Hwf Hk. unfold modify.
  assert (∀ r', keyOf (<[r:=f (heap st r)]> (heap st) r') = keyOf (heap st r')) as Hk'.
  { intros r'. destruct (decide (r = r')) as [<-|Hne].
    - by rewrite fn_lookup_insert.
    - by rewrite fn_lookup_insert_ne. }
  apply wf0_set_heap; [done|lia|by intros; apply Hk'|].
  intros r'. rewrite (keyOf_id _ _ (Hk' r')), (keyOf_row _ _ (Hk' r')),
    (keyOf_col _ _ (Hk' r')). by apply (wf_heap_coords _ Hwf).
Qed.

Lemma wf0_set_savedBorders l st :
  wf0 st → (∀ r, r ∈ l → (r < next st)%nat) →
  NoDup ((λ r, id (heap st r)) <$> l) →
  wf0 (set_savedBorders l st).
Proof. intros [] ? ?. by constructor. Qed.

Lemma wf0_set_customSelections l st :
  wf0 st → (∀ s, s ∈ l → (settings s < next st)%nat) →
  NoDup ((λ s, id (heap st (settings s))) <$> l) →
  wf0 (set_customSelections l st).
Proof. intros [] ? ?. by constructor. Qed.

Lemma wf0_setCellMeta rw cl r st :
  wf0 st → (r < next st)%nat → row (heap st r) = rw → col (heap st r) = cl →
  wf0 (setCellMeta rw cl r st).
Proof.
  intros [V1 V2 V3 C1 C2 N1 N2] Hr Hrw Hcl. constructor; simpl; try done.
  - intros k r' H. destruct (decide ((rw, cl) = k)) as [<-|Hne].
    + rewrite lookup_insert_eq in H. by injection H as <-.
    + rewrite lookup_insert_ne in H by done. by eapply V2.
  - intros k r' H. destruct (decide ((rw, cl) = k)) as [<-|Hne].
    + rewrite lookup_insert_eq in H. injection H as <-. by rewrite Hrw, Hcl.
    + rewrite lookup_insert_ne in H by done. by eapply C2.
Qed.

Lemma wf0_removeCellMeta rw cl st : wf0 st → wf0 (removeCellMeta rw cl st).
Proof.
  intros [V1 V2 V3 C1 C2 N1 N2]. constructor; simpl; try done.
  - intros k r' H. apply lookup_delete_Some in H as [_ H]. by eapply V2.
  - intros k r' H. apply lookup_delete_Some in H as [_ H]. by eapply C2.
Qed.

(** ** The element [indexOf] finds *)

(** [indexOf] over the ids of a list splits the list at the first element
    with the id. *)
Lemma indexOf_split {A} (g : A → string) x (l : list A) i :
  indexOf x (g <$> l) = Some i →
  ∃ l1 y l2, l = l1 ++ y :: l2 ∧ length l1 = i ∧ g y = x ∧ x ∉ g <$> l1.
Proof.
  intros H. apply indexOf_Some in H as [H1 H2].
  rewrite list_lookup_fmap in H1.
  destruct (l !! i) as [y|] eqn:E; [|done]. injection H1 as H1.
  exists (take i l), y, (drop (S i) l). split_and!.
  - by rewrite take_drop_middle.
  - apply length_take_le. apply lookup_lt_Some in E. lia.
  - done.
  - by rewrite fmap_take.
Qed.

Lemma middle_lookup {A} (l1 l2 : list A) y : (l1 ++ y :: l2) !! length l1 = Some y.
Proof. by rewrite list_lookup_middle. Qed.

Lemma middle_delete {A} (l1 l2 : list A) y :
  delete (length l1) (l1 ++ y :: l2) = l1 ++ l2.
Proof. induction l1; simpl; [done|]. by f_equal. Qed.

Lemma middle_insert {A} (l1 l2 : list A) y z :
  <[length l1 := z]> (l1 ++ y :: l2) = l1 ++ z :: l2.
Proof. induction l1; simpl; [done|]. by f_equal. Qed.

Lemma middle_alter {A} (f : A → A) (l1 l2 : list A) y :
  alter f (length l1) (l1 ++ y :: l2) = l1 ++ f y :: l2.
Proof. induction l1; simpl; [done|]. by f_equal. Qed.

(** ** Live custom selections *)

Lemma elem_of_liveSelectionIds st x :
  x ∈ liveSelectionIds st ↔
  ∃ s, s ∈ customSelections st ∧ is_Some (cellRange s)
       ∧ id (heap st (settings s)) = x.
Proof.
  unfold liveSelectionIds, liveIds. rewrite list_elem_of_fmap. split.
  - intros (s & -> & Hs). apply list_elem_of_filter in Hs as [? ?]. eauto.
  - intros (s & Hs & Hl & <-). exists s. split; [done|].
    by apply list_elem_of_filter.
Qed.

Lemma elem_of_savedIds st x :
  x ∈ savedIds st ↔ ∃ r, r ∈ savedBorders st ∧ id (heap st r) = x.
Proof.
  unfold savedIds. rewrite list_elem_of_fmap. split.
  - intros (r & -> & Hr). eauto.
  - intros (r & Hr & <-). eauto.
Qed.

Lemma elem_of_selectionIds st x :
  x ∈ selectionIds st ↔ ∃ s, s ∈ customSelections st ∧ id (heap st (settings s)) = x.
Proof.
  unfold selectionIds. rewrite list_elem_of_fmap. split.
  - intros (s & -> & Hs). eauto.
  - intros (s & Hs & <-). eauto.
Qed.

Lemma live_in_selectionIds st x : x ∈ liveSelectionIds st → x ∈ selectionIds st.
Proof.
  rewrite elem_of_liveSelectionIds, elem_of_selectionIds.
  intros (s & Hs & _ & <-). eauto.
Qed.

(** ** [spliceBorder] *)

Lemma spliceBorder_frame x st :
  heap (spliceBorder x st) = heap st ∧ next (spliceBorder x st) = next st
  ∧ cellMeta (spliceBorder x st) = cellMeta st
  ∧ customSelections (spliceBorder x st) = customSelections st.
Proof. unfold spliceBorder. by destruct (indexOf _ _). Qed.

Lemma spliceBorder_sublist x st :
  savedBorders (spliceBorder x st) `sublist_of` savedBorders st.
Proof.
  unfold spliceBorder. destruct (indexOf _ _); simpl; [apply sublist_delete|done].
Qed.

Lemma spliceBorder_savedIds x st :
  savedIds (spliceBorder x st) =
  match indexOf x (savedIds st) with
  | Some index => delete index (savedIds st)
  | None => savedIds st
  end.
Proof.
  unfold spliceBorder. destruct (indexOf _ _) eqn:E; [|done].
  unfold savedIds. simpl. by rewrite list_fmap_delete.
Qed.

Lemma spliceBorder_not_in x st :
  NoDup (savedIds st) → x ∉ savedIds (spliceBorder x st).
Proof.
  intros Hnd. rewrite spliceBorder_savedIds.
  destruct (indexOf x (savedIds st)) as [i|] eqn:E.
  - apply indexOf_Some in E as [E _]. by apply NoDup_delete_lookup.
  - by apply indexOf_None.
Qed.

(** An id that is not saved: [spliceBorder] is a silent no-op. *)
Lemma spliceBorder_absent x st : x ∉ savedIds st → spliceBorder x st = st.
Proof.
  intros H. apply indexOf_None in H. unfold spliceBorder. rewrite H.
  done.
Qed.

Lemma wf0_spliceBorder x st : wf0 st → wf0 (spliceBorder x st).
Proof.
  intros Hwf. unfold spliceBorder. destruct (indexOf _ _) as [i|]; [|done].
  apply wf0_set_savedBorders; [done| |].
  - intros r Hr. apply (wf_saved_valid _ Hwf). by eapply list_elem_of_delete_inv.
  - rewrite list_fmap_delete. apply NoDup_delete, Hwf.
Qed.

Lemma visible_spliceBorder x st : visible st → visible (spliceBorder x st).
Proof.
  intros Hv r Hr. destruct (spliceBorder_frame x st) as (-> & _).
  apply Hv. eapply elem_of_sublist; [|apply spliceBorder_sublist]. done.
Qed.

Lemma touches_spliceBorder x st : touches [x] st (spliceBorder x st).
Proof.
  unfold spliceBorder. destruct (indexOf _ _) as [i|] eqn:E;
    [|apply touches_refl].
  constructor; simpl; try done.
  apply indexOf_split in E as (l1 & y & l2 & Hl & <- & Hy & _).
  rewrite Hl, middle_delete, !filter_app, filter_cons_False; [done|].
  rewrite Hy. intros H. apply H. left.
Qed.

(** ** Custom selections *)

Lemma liveIds_app h l1 l2 : liveIds h (l1 ++ l2) = liveIds h l1 ++ liveIds h l2.
Proof. unfold liveIds. by rewrite filter_app, fmap_app. Qed.

Lemma liveIds_cons_live h s l :
  is_Some (cellRange s) → liveIds h (s :: l) = id (h (settings s)) :: liveIds h l.
Proof. intros H. unfold liveIds. by rewrite filter_cons_True. Qed.

Lemma liveIds_cons_null h s l :
  cellRange s = None → liveIds h (s :: l) = liveIds h l.
Proof.
  intros H. unfold liveIds. rewrite filter_cons_False; [done|].
  rewrite H. by intros [? ?].
Qed.

Lemma liveIds_ext h h' l :
  (∀ s, s ∈ l → id (h' (settings s)) = id (h (settings s))) →
  liveIds h' l = liveIds h l.
Proof.
  intros H. unfold liveIds. apply selection_ids_ext. intros s Hs.
  apply H. by apply list_elem_of_filter in Hs as [_ ?].
Qed.

Lemma liveIds_subseteq h l x :
  x ∈ liveIds h l → x ∈ (λ s, id (h (settings s))) <$> l.
Proof.
  unfold liveIds. rewrite !list_elem_of_fmap. intros (s & -> & Hs).
  apply list_elem_of_filter in Hs as [_ ?]. eauto.
Qed.

Lemma elem_of_liveIds_cons h s l x :
  x ∈ liveIds h (s :: l) ↔
  (is_Some (cellRange s) ∧ x = id (h (settings s))) ∨ x ∈ liveIds h l.
Proof.
  destruct (cellRange s) as [rg|] eqn:E.
  - rewrite liveIds_cons_live by (rewrite E; eauto). rewrite elem_of_cons.
    split.
    + intros [H|H]; [left|by right]. split; [eauto|done].
    + intros [[_ H]|H]; [by left|by right].
  - rewrite liveIds_cons_null by done. split; [auto|].
    intros [[[? H] _]|H]; done.
Qed.

(** [clearBordersFromSelectionSettings] *)

Lemma clearSelections_frame x st :
  heap (clearBordersFromSelectionSettings x st) = heap st
  ∧ next (clearBordersFromSelectionSettings x st) = next st
  ∧ cellMeta (clearBordersFromSelectionSettings x st) = cellMeta st
  ∧ savedBorders (clearBordersFromSelectionSettings x st) = savedBorders st.
Proof. unfold clearBordersFromSelectionSettings. by destruct (indexOf _ _). Qed.

Lemma clearSelections_settings x st :
  settings <$> customSelections (clearBordersFromSelectionSettings x st)
  = settings <$> customSelections st.
Proof.
  unfold clearBordersFromSelectionSettings.
  destruct (indexOf _ _) as [i|] eqn:E; [|done]. simpl.
  apply indexOf_split in E as (l1 & y & l2 & Hl & <- & Hy & _).
  by rewrite Hl, middle_alter, !fmap_app.
Qed.

Lemma selectionIds_settings st st' :
  heap st' = heap st →
  settings <$> customSelections st' = settings <$> customSelections st →
  selectionIds st' = selectionIds st.
Proof.
  intros Hh Hs. unfold selectionIds.
  assert (∀ (h : ref → BorderRecord) (l : list Selection),
            (λ s, id (h (settings s))) <$> l
            = (λ r, id (h r)) <$> (settings <$> l)) as Hc.
  { intros h l. by rewrite <- list_fmap_compose. }
  by rewrite !Hc, Hh, Hs.
Qed.

Lemma clearSelections_selectionIds x st :
  selectionIds (clearBordersFromSelectionSettings x st) = selectionIds st.
Proof.
  apply selectionIds_settings; [apply clearSelections_frame|].
  apply clearSelections_settings.
Qed.

Lemma wf0_clearSelections x st :
  wf0 st → wf0 (clearBordersFromSelectionSettings x st).
Proof.
  intros Hwf.
  pose proof (clearSelections_selectionIds x st) as Hids.
  pose proof (clearSelections_settings x st) as Hset.
  revert Hids Hset. unfold clearBordersFromSelectionSettings.
  destruct (indexOf _ _) as [i|]; [|done]. intros Hids Hset.
  apply wf0_set_customSelections; [done| |].
  - intros s Hs. simpl in Hset.
    apply (list_elem_of_fmap_2 settings) in Hs. rewrite Hset in Hs.
    apply list_elem_of_fmap in Hs as (s' & -> & Hs').
    by apply (wf_sel_valid _ Hwf).
  - unfold selectionIds in Hids. simpl in Hids. rewrite Hids. apply Hwf.
Qed.

Lemma touches_clearSelections x st :
  touches [x] st (clearBordersFromSelectionSettings x st).
Proof.
  unfold clearBordersFromSelectionSettings.
  destruct (indexOf _ _) as [i|] eqn:E; [|apply touches_refl].
  constructor; simpl; try done.
  intros x' Hx'. unfold liveSelectionIds. simpl.
  apply indexOf_split in E as (l1 & y & l2 & Hl & <- & Hy & _).
  rewrite Hl, middle_alter, !liveIds_app, !elem_of_app, !elem_of_liveIds_cons.
  simpl. assert (x' ≠ x) as Hne by (intros ->; apply Hx'; left).
  split; intros [H|[[H1 H2]|H]]; auto.
  - by destruct H1.
  - subst x'. by rewrite Hy in Hne.
Qed.

Lemma clearSelections_not_live x st :
  NoDup (selectionIds st) →
  x ∉ liveSelectionIds (clearBordersFromSelectionSettings x st).
Proof.
  intros Hnd. unfold clearBordersFromSelectionSettings.
  destruct (indexOf _ _) as [i|] eqn:E.
  - unfold liveSelectionIds. simpl.
    apply indexOf_split in E as (l1 & y & l2 & Hl & <- & Hy & Hl1).
    unfold selectionIds in Hnd. rewrite Hl, fmap_app, fmap_cons in Hnd.
    apply NoDup_app in Hnd as (_ & _ & Hnd). apply NoDup_cons in Hnd as [Hl2 _].
    rewrite Hl, middle_alter, liveIds_app, elem_of_app, elem_of_liveIds_cons.
    simpl. intros [H|[[H _]|H]].
    + by apply liveIds_subseteq in H.
    + by destruct H.
    + apply liveIds_subseteq in H. by rewrite Hy in Hl2.
  - apply indexOf_None in E. intros H. by apply E, live_in_selectionIds.
Qed.

(** [clearNullCellRange] *)

Lemma removeFirstNull_sublist l : removeFirstNull l `sublist_of` l.
Proof.
  induction l as [|s l IH]; simpl; [done|].
  destruct (cellRange s); [by apply sublist_skip|by apply sublist_cons].
Qed.

Lemma removeFirstNull_live h l : liveIds h (removeFirstNull l) = liveIds h l.
Proof.
  induction l as [|s l IH]; simpl; [done|].
  destruct (cellRange s) eqn:E.
  - rewrite !liveIds_cons_live by (rewrite E; eauto). by rewrite IH.
  - by rewrite liveIds_cons_null.
Qed.

Lemma wf0_clearNullCellRange st : wf0 st → wf0 (clearNullCellRange st).
Proof.
  intros Hwf. apply wf0_set_customSelections; [done| |].
  - intros s Hs. apply (wf_sel_valid _ Hwf).
    eapply elem_of_sublist; [done|apply removeFirstNull_sublist].
  - eapply sublist_NoDup; [apply (wf_sel_nodup _ Hwf)|].
    apply fmap_sublist, removeFirstNull_sublist.
Qed.

Lemma touches_clearNullCellRange ids st : touches ids st (clearNullCellRange st).
Proof.
  constructor; simpl; try done.
  intros x _. unfold liveSelectionIds. simpl. by rewrite removeFirstNull_live.
Qed.

(** Cell metadata *)

Lemma touches_setCellMeta rw cl r st :
  touches [createId rw cl] st (setCellMeta rw cl r st).
Proof.
  constructor; simpl; try done.
  intros k Hk. apply lookup_insert_ne. intros <-. apply Hk. left.
Qed.

Lemma touches_removeCellMeta rw cl st :
  touches [createId rw cl] st (removeCellMeta rw cl st).
Proof.
  constructor; simpl; try done.
  intros k Hk. apply lookup_delete_ne. intros <-. apply Hk. left.
Qed.

(** ** [removeAllBorders] *)

Lemma removeAllBorders_heap rw cl st :
  heap (removeAllBorders rw cl st) = heap st
  ∧ next (removeAllBorders rw cl st) = next st.
Proof.
  unfold removeAllBorders. simpl.
  destruct (clearSelections_frame (createId rw cl)
              (spliceBorder (createId rw cl) st)) as (-> & -> & _).
  destruct (spliceBorder_frame (createId rw cl) st) as (-> & -> & _). done.
Qed.

Lemma removeAllBorders_saved rw cl st :
  savedBorders (removeAllBorders rw cl st)
  = savedBorders (spliceBorder (createId rw cl) st).
Proof.
  unfold removeAllBorders. simpl.
  by destruct (clearSelections_frame (createId rw cl)
                 (spliceBorder (createId rw cl) st)) as (_ & _ & _ & ->).
Qed.

Lemma wf0_removeAllBorders rw cl st : wf0 st → wf0 (removeAllBorders rw cl st).
Proof.
  intros Hwf. unfold removeAllBorders.
  by apply wf0_removeCellMeta, wf0_clearNullCellRange, wf0_clearSelections,
    wf0_spliceBorder.
Qed.

Lemma visible_removeAllBorders rw cl st :
  visible st → visible (removeAllBorders rw cl st).
Proof.
  intros Hv r Hr. rewrite removeAllBorders_saved in Hr.
  destruct (removeAllBorders_heap rw cl st) as [-> _].
  destruct (spliceBorder_frame (createId rw cl) st) as (Hh & _).
  rewrite <- Hh. by apply visible_spliceBorder.
Qed.

Lemma touches_removeAllBorders rw cl st :
  touches [createId rw cl] st (removeAllBorders rw cl st).
Proof.
  unfold removeAllBorders.
  eapply touches_trans; [apply touches_spliceBorder|].
  eapply touches_trans; [apply touches_clearSelections|].
  eapply touches_trans; [apply touches_clearNullCellRange|].
  apply touches_removeCellMeta.
Qed.

(** After [removeAllBorders(row, column)] the id of the cell is not
    saved, has no live custom selection, and the cell has no ['borders']
    metadata. *)
Lemma removeAllBorders_post rw cl st :
  wf0 st →
  (createId rw cl ∉ savedIds (removeAllBorders rw cl st))
  ∧ (createId rw cl ∉ liveSelectionIds (removeAllBorders rw cl st))
  ∧ cellMeta (removeAllBorders rw cl st) !! (rw, cl) = None.
Proof.
  intros Hwf. split_and!.
  - unfold savedIds. rewrite removeAllBorders_saved.
    destruct (removeAllBorders_heap rw cl st) as [-> _].
    destruct (spliceBorder_frame (createId rw cl) st) as (Hh & _).
    rewrite <- Hh. apply spliceBorder_not_in, Hwf.
  - unfold removeAllBorders, liveSelectionIds. simpl.
    rewrite removeFirstNull_live.
    apply (clearSelections_not_live (createId rw cl)
             (spliceBorder (createId rw cl) st)).
    apply wf0_spliceBorder, Hwf.
  - unfold removeAllBorders. simpl. apply lookup_delete_eq.
Qed.

(** ** Micro steps: what they touch *)

Lemma modify_keys r f st :
  keyOf (f (heap st r)) = keyOf (heap st r) →
  ∀ r', keyOf (heap (modify r f st) r') = keyOf (heap st r').
Proof.
  intros Hk r'. simpl. destruct (decide (r = r')) as [<-|Hne].
  - by rewrite fn_lookup_insert.
  - by rewrite fn_lookup_insert_ne.
Qed.

Lemma modify_other r f st r' : r ≠ r' → heap (modify r f st) r' = heap st r'.
Proof. intros Hne. simpl. by rewrite fn_lookup_insert_ne. Qed.

Lemma modify_same r f st : heap (modify r f st) r = f (heap st r).
Proof. simpl. by rewrite fn_lookup_insert. Qed.

Lemma touches_modify r f st x :
  keyOf (f (heap st r)) = keyOf (heap st r) → id (heap st r) = x →
  touches [x] st (modify r f st).
Proof.
  intros Hk Hx. pose proof (modify_keys r f st Hk) as Hk'.
  constructor; try done.
  - intros r' _ Hid. apply modify_other. intros <-. apply Hid. rewrite Hx. left.
  - apply filter_ext_in. intros r' _. by rewrite (keyOf_id _ _ (Hk' r')).
  - intros x' _. unfold liveSelectionIds.
    rewrite (liveIds_ext (heap st) (heap (modify r f st))); [done|].
    intros s _. apply keyOf_id, Hk'.
Qed.

Lemma alloc_other b st r : (r < next st)%nat → heap (alloc b st).2 r = heap st r.
Proof. intros Hr. simpl. rewrite fn_lookup_insert_ne; [done|lia]. Qed.

Lemma alloc_same b st : heap (alloc b st).2 (alloc b st).1 = b.
Proof. simpl. by rewrite fn_lookup_insert. Qed.

Lemma touches_alloc ids b st : wf0 st → touches ids st (alloc b st).2.
Proof.
  intros Hwf. constructor.
  - simpl. lia.
  - intros r Hr. by rewrite alloc_other.
  - intros r Hr _. by rewrite alloc_other.
  - apply filter_ext_in. intros r Hr.
    rewrite alloc_other; [done|]. by apply (wf_saved_valid _ Hwf).
  - done.
  - intros x _. unfold liveSelectionIds.
    rewrite (liveIds_ext (heap st) (heap (alloc b st).2)); [done|].
    intros s Hs. rewrite alloc_other; [done|]. by apply (wf_sel_valid _ Hwf).
Qed.

Lemma touches_set_savedBorders l x st :
  filter (λ r, id (heap st r) ∉ [x]) l
  = filter (λ r, id (heap st r) ∉ [x]) (savedBorders st) →
  touches [x] st (set_savedBorders l st).
Proof. intros H. by constructor. Qed.

Lemma touches_set_customSelections l x st :
  (∀ x', x' ≠ x →
     x' ∈ liveIds (heap st) l ↔ x' ∈ liveIds (heap st) (customSelections st)) →
  touches [x] st (set_customSelections l st).
Proof.
  intros H. constructor; try done. intros x' Hx'. apply H.
  intros ->. apply Hx'. left.
Qed.

(** ** [checkSavedBorders] *)

Lemma checkSavedBorders_cases b st :
  let x := id (heap st b) in
  (allHidden (heap st b) = true
   ∧ checkSavedBorders b st = (true, spliceBorder x st))
  ∨ (allHidden (heap st b) = false
     ∧ ∃ l1 r0 l2, savedBorders st = l1 ++ r0 :: l2 ∧ id (heap st r0) = x
       ∧ (x ∉ (λ r, id (heap st r)) <$> l1)
       ∧ checkSavedBorders b st = (true, set_savedBorders (l1 ++ b :: l2) st))
  ∨ (allHidden (heap st b) = false
     ∧ (x ∉ savedIds st)
     ∧ checkSavedBorders b st = (false, st)).
Proof.
  intros x. unfold checkSavedBorders. case_decide as Hc.
  - left. by apply countHide_allHidden in Hc.
  - right. apply countHide_not_allHidden in Hc.
    fold x. destruct (indexOf x (savedIds st)) as [i|] eqn:E.
    + left. split; [done|].
      apply indexOf_split in E as (l1 & r0 & l2 & Hl & <- & Hr0 & Hl1).
      exists l1, r0, l2. split_and!; try done.
      by rewrite Hl, middle_insert.
    + right. split; [done|]. split; [|done]. by apply indexOf_None.
Qed.

(** ** [checkCustomSelections] *)

Lemma checkCustomSelections_cases b range st :
  let x := id (heap st b) in
  (∃ l1 s l2, customSelections st = l1 ++ s :: l2
     ∧ id (heap st (settings s)) = x
     ∧ (x ∉ (λ s, id (heap st (settings s))) <$> l1)
     ∧ checkCustomSelections b range st
       = (true,
          set_customSelections
            (l1 ++ {| settings := settings s; cellRange := Some range |} :: l2)
            (modify (settings s) (λ target, extend target (heap st b)) st)))
  ∨ ((x ∉ selectionIds st) ∧ checkCustomSelections b range st = (false, st)).
Proof.
  intros x. unfold checkCustomSelections. fold x.
  destruct (indexOf x (selectionIds st)) as [i|] eqn:E.
  - left. apply indexOf_split in E as (l1 & s & l2 & Hl & <- & Hs & Hl1).
    exists l1, s, l2. split_and!; try done.
    rewrite Hl at 1. rewrite middle_lookup. simpl.
    by rewrite Hl, middle_insert.
  - right. split; [|done]. by apply indexOf_None.
Qed.

Lemma checkCustomSelectionsFromContextMenu_true b st :
  checkCustomSelectionsFromContextMenu b st = true
  ↔ id (heap st b) ∈ selectionIds st.
Proof.
  unfold checkCustomSelectionsFromContextMenu.
  rewrite bool_decide_eq_true. apply indexOf_is_Some.
Qed.

(** ** [insertBorderIntoSettings] *)

Lemma insertBorderIntoSettings_halves b st :
  insertBorderIntoSettings b st = insertSelection b (insertSaved b st).
Proof.
  unfold insertBorderIntoSettings, insertSaved, insertSelection.
  destruct (checkSavedBorders b st) as [[] st1]; done.
Qed.

(** The first half: [savedBorders]. *)
Lemma insertSaved_frame b st :
  heap (insertSaved b st) = heap st ∧ next (insertSaved b st) = next st
  ∧ cellMeta (insertSaved b st) = cellMeta st
  ∧ customSelections (insertSaved b st) = customSelections st.
Proof.
  unfold insertSaved.
  destruct (checkSavedBorders_cases b st)
    as [[_ ->]|[(_ & l1 & r0 & l2 & _ & _ & _ & ->)|(_ & _ & ->)]]; try done.
  apply spliceBorder_frame.
Qed.

Lemma wf0_insertSaved b st :
  wf0 st → (b < next st)%nat → wf0 (insertSaved b st).
Proof.
  intros Hwf Hb. unfold insertSaved.
  destruct (checkSavedBorders_cases b st)
    as [[_ ->]|[(_ & l1 & r0 & l2 & Hl & Hr0 & Hl1 & ->)|(_ & Hx & ->)]].
  - by apply wf0_spliceBorder.
  - apply wf0_set_savedBorders; [done| |].
    + intros r Hr. apply elem_of_app in Hr as [Hr|Hr].
      * apply (wf_saved_valid _ Hwf). rewrite Hl, elem_of_app. by left.
      * apply elem_of_cons in Hr as [->|Hr]; [done|].
        apply (wf_saved_valid _ Hwf). rewrite Hl, elem_of_app. right. by right.
    + pose proof (wf_saved_nodup _ Hwf) as Hnd. unfold savedIds in Hnd.
      rewrite Hl in Hnd. rewrite fmap_app, fmap_cons in Hnd |- *.
      by rewrite <- Hr0.
  - apply wf0_set_savedBorders; [done| |].
    + intros r Hr. apply elem_of_app in Hr as [Hr|Hr].
      * by apply (wf_saved_valid _ Hwf).
      * apply list_elem_of_singleton in Hr as ->. done.
    + rewrite fmap_app. simpl. apply NoDup_app. split_and!.
      * apply Hwf.
      * intros y Hy Hy'. apply list_elem_of_singleton in Hy' as ->. done.
      * apply NoDup_singleton.
Qed.

Lemma touches_insertSaved b st :
  touches [id (heap st b)] st (insertSaved b st).
Proof.
  unfold insertSaved.
  destruct (checkSavedBorders_cases b st)
    as [[_ ->]|[(_ & l1 & r0 & l2 & Hl & Hr0 & Hl1 & ->)|(_ & Hx & ->)]].
  - apply touches_spliceBorder.
  - apply touches_set_savedBorders.
    rewrite Hl, !filter_app, !filter_cons_False; [done| |].
    + rewrite Hr0. intros H. apply H. left.
    + intros H. apply H. left.
  - apply touches_set_savedBorders. simpl.
    rewrite filter_app, filter_cons_False, filter_nil, app_nil_r; [done|].
    intros H. apply H. left.
Qed.

Lemma visible_insertSaved b st : visible st → visible (insertSaved b st).
Proof.
  intros Hv. unfold insertSaved.
  destruct (checkSavedBorders_cases b st)
    as [[_ ->]|[(Hb & l1 & r0 & l2 & Hl & Hr0 & Hl1 & ->)|(Hb & Hx & ->)]].
  - by apply visible_spliceBorder.
  - intros r Hr. simpl in *. apply elem_of_app in Hr as [Hr|Hr].
    + apply Hv. rewrite Hl, elem_of_app. by left.
    + apply elem_of_cons in Hr as [->|Hr]; [done|].
      apply Hv. rewrite Hl, elem_of_app. right. by right.
  - intros r Hr. simpl in *. apply elem_of_app in Hr as [Hr|Hr].
    + by apply Hv.
    + by apply list_elem_of_singleton in Hr as ->.
Qed.

(** Where the first half leaves the border. *)
Lemma insertSaved_hidden b st :
  NoDup (savedIds st) → allHidden (heap st b) = true →
  id (heap st b) ∉ savedIds (insertSaved b st).
Proof.
  intros Hnd Hb. unfold insertSaved.
  destruct (checkSavedBorders_cases b st)
    as [[_ ->]|[(Hb' & _)|(Hb' & _)]]; try congruence.
  by apply spliceBorder_not_in.
Qed.

Lemma insertSaved_new b st :
  allHidden (heap st b) = false → id (heap st b) ∉ savedIds st →
  savedBorders (insertSaved b st) = savedBorders st ++ [b].
Proof.
  intros Hb Hx. unfold insertSaved.
  destruct (checkSavedBorders_cases b st)
    as [[Hb' _]|[(_ & l1 & r0 & l2 & Hl & Hr0 & Hl1 & _)|(_ & _ & ->)]];
    [congruence| |done].
  exfalso. apply Hx. apply elem_of_savedIds. exists r0. split; [|done].
  rewrite Hl, elem_of_app. right. left.
Qed.

Lemma insertSaved_replace b st i r0 :
  NoDup (savedIds st) → allHidden (heap st b) = false →
  savedBorders st !! i = Some r0 → id (heap st r0) = id (heap st b) →
  savedBorders (insertSaved b st) = <[i := b]> (savedBorders st).
Proof.
  intros Hnd Hb Hi Hr0. unfold insertSaved, checkSavedBorders.
  rewrite decide_False by by apply countHide_not_allHidden.
  rewrite (indexOf_NoDup _ _ i Hnd); [done|].
  unfold savedIds. by rewrite list_lookup_fmap, Hi, <- Hr0.
Qed.

Lemma insertSaved_visible_in b st :
  allHidden (heap st b) = false → b ∈ savedBorders (insertSaved b st).
Proof.
  intros Hb. unfold insertSaved.
  destruct (checkSavedBorders_cases b st)
    as [[Hb' _]|[(_ & l1 & r0 & l2 & Hl & Hr0 & Hl1 & ->)|(_ & _ & ->)]];
    [congruence| |]; simpl.
  - rewrite elem_of_app. right. left.
  - rewrite elem_of_app. right. left.
Qed.

(** The second half: the custom selections. *)
Lemma extend_keys st s b :
  wf0 st → id (heap st s) = id (heap st b) →
  keyOf (extend (heap st s) (heap st b)) = keyOf (heap st s).
Proof.
  intros Hwf Hid. symmetry.
  apply (same_id_same_key (heap st s) (heap st b)); [apply Hwf..|done].
Qed.

Lemma insertSelection_frame b st :
  next (insertSelection b st) = next st
  ∧ cellMeta (insertSelection b st) = cellMeta st
  ∧ savedBorders (insertSelection b st) = savedBorders st.
Proof.
  unfold insertSelection.
  destruct (checkCustomSelections_cases b
              {| from := (row (heap st b), col (heap st b));
                 to := (row (heap st b), col (heap st b)) |} st)
    as [(l1 & s & l2 & _ & _ & _ & ->)|(_ & ->)]; done.
Qed.

Lemma insertSelection_heap b st :
  heap (insertSelection b st) b = heap st b.
Proof.
  unfold insertSelection.
  destruct (checkCustomSelections_cases b
              {| from := (row (heap st b), col (heap st b));
                 to := (row (heap st b), col (heap st b)) |} st)
    as [(l1 & s & l2 & _ & _ & _ & ->)|(_ & ->)]; [|done].
  simpl. destruct (decide (settings s = b)) as [->|Hne].
  - by rewrite fn_lookup_insert, extend_same.
  - by rewrite fn_lookup_insert_ne.
Qed.

Lemma insertSelection_keys b st :
  wf0 st → ∀ r, keyOf (heap (insertSelection b st) r) = keyOf (heap st r).
Proof.
  intros Hwf. unfold insertSelection.
  destruct (checkCustomSelections_cases b
              {| from := (row (heap st b), col (heap st b));
                 to := (row (heap st b), col (heap st b)) |} st)
    as [(l1 & s & l2 & _ & Hs & _ & ->)|(_ & ->)]; [|done].
  intros r. apply (modify_keys (settings s) _ st). by apply extend_keys.
Qed.

Lemma wf0_insertSelection b st :
  wf0 st → (b < next st)%nat → wf0 (insertSelection b st).
Proof.
  intros Hwf Hb. unfold insertSelection.
  destruct (checkCustomSelections_cases b
              {| from := (row (heap st b), col (heap st b));
                 to := (row (heap st b), col (heap st b)) |} st)
    as [(l1 & s & l2 & Hl & Hs & Hl1 & ->)|(Hx & ->)].
  - assert (wf0 (modify (settings s) (λ target, extend target (heap st b)) st))
      as Hwf' by (by apply wf0_modify, extend_keys).
    pose proof (wf_sel_nodup _ Hwf') as Hnd.
    apply wf0_set_customSelections; [done| |].
    + intros s' Hs'. cbn [next modify set_heap].
      rewrite elem_of_app, elem_of_cons in Hs'.
      destruct Hs' as [Hs'|[->|Hs']]; cbn [settings];
        apply (wf_sel_valid _ Hwf); rewrite Hl, elem_of_app, elem_of_cons;
        auto.
    + unfold selectionIds in Hnd. simpl in Hnd. rewrite Hl in Hnd.
      by rewrite fmap_app, fmap_cons in Hnd |- *.
  - apply wf0_set_customSelections; [done| |].
    + intros s Hs. apply elem_of_app in Hs as [Hs|Hs].
      * by apply (wf_sel_valid _ Hwf).
      * by apply list_elem_of_singleton in Hs as ->.
    + rewrite fmap_app. simpl. apply NoDup_app. split_and!.
      * apply Hwf.
      * intros y Hy Hy'. apply list_elem_of_singleton in Hy' as ->. done.
      * apply NoDup_singleton.
Qed.

Lemma touches_insertSelection b st :
  wf0 st → touches [id (heap st b)] st (insertSelection b st).
Proof.
  intros Hwf. unfold insertSelection.
  destruct (checkCustomSelections_cases b
              {| from := (row (heap st b), col (heap st b));
                 to := (row (heap st b), col (heap st b)) |} st)
    as [(l1 & s & l2 & Hl & Hs & Hl1 & ->)|(Hx & ->)].
  - eapply touches_trans.
    + apply (touches_modify (settings s)
               (λ target, extend target (heap st b)) st (id (heap st b)));
        [by apply extend_keys|done].
    + apply touches_set_customSelections. intros x' Hx'.
      cbn [customSelections modify set_heap]. rewrite Hl.
      rewrite !liveIds_app, !elem_of_app, !elem_of_liveIds_cons.
      cbn [settings cellRange].
      pose proof (modify_keys (settings s) (λ target, extend target (heap st b))
                    st (extend_keys st _ _ Hwf Hs) (settings s)) as Hk.
      apply keyOf_id in Hk. rewrite Hk, Hs.
      split; intros [H|[[H1 H2]|H]]; auto; done.
  - apply touches_set_customSelections. intros x' Hx'.
    rewrite liveIds_app, elem_of_app, elem_of_liveIds_cons. simpl.
    split; [|auto]. intros [H|[[_ H]|H]]; [done|done|].
    by apply elem_of_nil in H.
Qed.

Lemma visible_insertSelection b st :
  wf0 st → visible st →
  (allHidden (heap st b) = true → id (heap st b) ∉ savedIds st) →
  visible (insertSelection b st).
Proof.
  intros Hwf Hv Hh. unfold insertSelection.
  destruct (checkCustomSelections_cases b
              {| from := (row (heap st b), col (heap st b));
                 to := (row (heap st b), col (heap st b)) |} st)
    as [(l1 & s & l2 & Hl & Hs & Hl1 & ->)|(Hx & ->)]; [|done].
  intros r Hr. simpl in Hr. simpl.
  destruct (decide (settings s = r)) as [<-|Hne].
  - rewrite fn_lookup_insert, allHidden_extend.
    destruct (allHidden (heap st b)) eqn:E; [|done].
    exfalso. apply Hh; [done|]. apply elem_of_savedIds. eauto.
  - rewrite fn_lookup_insert_ne by done. by apply Hv.
Qed.

Lemma insertSelection_live b st :
  wf0 st → id (heap st b) ∈ liveSelectionIds (insertSelection b st).
Proof.
  intros Hwf. unfold insertSelection.
  destruct (checkCustomSelections_cases b
              {| from := (row (heap st b), col (heap st b));
                 to := (row (heap st b), col (heap st b)) |} st)
    as [(l1 & s & l2 & Hl & Hs & Hl1 & ->)|(Hx & ->)].
  - unfold liveSelectionIds. cbn [customSelections set_customSelections].
    rewrite liveIds_app, elem_of_app, elem_of_liveIds_cons. right. left.
    cbn [settings cellRange]. split; [eauto|].
    pose proof (modify_keys (settings s) (λ target, extend target (heap st b))
                  st (extend_keys st _ _ Hwf Hs) (settings s)) as Hk.
    apply keyOf_id in Hk. cbn [heap set_customSelections]. by rewrite Hk, Hs.
  - unfold liveSelectionIds. simpl.
    rewrite liveIds_app, elem_of_app, elem_of_liveIds_cons. right. left.
    simpl. split; [eauto|done].
Qed.

Lemma insert_frame b st :
  next (insertBorderIntoSettings b st) = next st
  ∧ cellMeta (insertBorderIntoSettings b st) = cellMeta st.
Proof.
  rewrite insertBorderIntoSettings_halves.
  destruct (insertSelection_frame b (insertSaved b st)) as (-> & -> & _).
  by destruct (insertSaved_frame b st) as (_ & -> & -> & _).
Qed.

Lemma insert_saved b st :
  savedBorders (insertBorderIntoSettings b st) = savedBorders (insertSaved b st).
Proof.
  rewrite insertBorderIntoSettings_halves.
  by destruct (insertSelection_frame b (insertSaved b st)) as (_ & _ & ->).
Qed.

Lemma insert_heap b st : heap (insertBorderIntoSettings b st) b = heap st b.
Proof.
  rewrite insertBorderIntoSettings_halves, insertSelection_heap.
  by destruct (insertSaved_frame b st) as (-> & _).
Qed.

Lemma wf0_insert b st :
  wf0 st → (b < next st)%nat → wf0 (insertBorderIntoSettings b st).
Proof.
  intros Hwf Hb. rewrite insertBorderIntoSettings_halves.
  apply wf0_insertSelection; [by apply wf0_insertSaved|].
  by destruct (insertSaved_frame b st) as (_ & -> & _).
Qed.

Lemma insert_keys b st :
  wf0 st → (b < next st)%nat →
  ∀ r, keyOf (heap (insertBorderIntoSettings b st) r) = keyOf (heap st r).
Proof.
  intros Hwf Hb r. rewrite insertBorderIntoSettings_halves.
  rewrite insertSelection_keys by by apply wf0_insertSaved.
  by destruct (insertSaved_frame b st) as (-> & _).
Qed.

Lemma touches_insert b st :
  wf0 st → (b < next st)%nat →
  touches [id (heap st b)] st (insertBorderIntoSettings b st).
Proof.
  intros Hwf Hb. rewrite insertBorderIntoSettings_halves.
  eapply touches_trans; [apply touches_insertSaved|].
  pose proof (touches_insertSelection b (insertSaved b st)
                (wf0_insertSaved b st Hwf Hb)) as H.
  by destruct (insertSaved_frame b st) as (Hh & _); rewrite Hh in H.
Qed.

Lemma visible_insert b st :
  wf0 st → (b < next st)%nat → visible st →
  visible (insertBorderIntoSettings b st).
Proof.
  intros Hwf Hb Hv. rewrite insertBorderIntoSettings_halves.
  destruct (insertSaved_frame b st) as (Hh & _).
  apply visible_insertSelection.
  - by apply wf0_insertSaved.
  - by apply visible_insertSaved.
  - rewrite Hh. intros H. apply insertSaved_hidden; [apply Hwf|done].
Qed.

Lemma insert_live b st :
  wf0 st → (b < next st)%nat →
  id (heap st b) ∈ liveSelectionIds (insertBorderIntoSettings b st).
Proof.
  intros Hwf Hb. rewrite insertBorderIntoSettings_halves.
  destruct (insertSaved_frame b st) as (Hh & _). rewrite <- Hh.
  apply insertSelection_live. by apply wf0_insertSaved.
Qed.

Lemma insert_saved_id b st :
  wf0 st → (b < next st)%nat →
  id (heap st b) ∈ savedIds (insertBorderIntoSettings b st)
  ↔ allHidden (heap st b) = false.
Proof.
  intros Hwf Hb.
  assert (savedIds (insertBorderIntoSettings b st) = savedIds (insertSaved b st))
    as ->.
  { unfold savedIds. rewrite insert_saved. apply ids_ext. intros r _.
    rewrite (keyOf_id _ _ (insert_keys b st Hwf Hb r)).
    by destruct (insertSaved_frame b st) as (-> & _). }
  destruct (allHidden (heap st b)) eqn:E.
  - split; [|done]. intros H. exfalso. revert H.
    apply insertSaved_hidden; [apply Hwf|done].
  - split; [done|]. intros _. apply elem_of_savedIds. exists b.
    split; [by apply insertSaved_visible_in|].
    by destruct (insertSaved_frame b st) as (-> & _).
Qed.

(** ** More micro steps: visibility *)

Lemma visible_alloc b st : wf0 st → visible st → visible (alloc b st).2.
Proof.
  intros Hwf Hv r Hr. rewrite alloc_other; [by apply Hv|].
  by apply (wf_saved_valid _ Hwf).
Qed.

Lemma visible_modify r f st :
  visible st → (r ∈ savedBorders st → allHidden (f (heap st r)) = false) →
  visible (modify r f st).
Proof.
  intros Hv Hr r' Hr'. destruct (decide (r = r')) as [<-|Hne].
  - rewrite modify_same. by apply Hr.
  - rewrite modify_other by done. by apply Hv.
Qed.

Lemma wf_init : wf init.
Proof. split; [apply wf0_init|]. intros r Hr. by apply elem_of_nil in Hr. Qed.

(** ** [prepareBorderFromCustomAdded] *)

Lemma prepareBorderFromCustomAdded_spec rw cl d st :
  wf st →
  let b := extendDefaultBorder (createEmptyBorders rw cl) d in
  let st' := prepareBorderFromCustomAdded rw cl d st in
  wf st' ∧ touches [createId rw cl] st st'
  ∧ cellMeta st' !! (rw, cl) = Some (next st) ∧ heap st' (next st) = b
  ∧ next st' = S (next st)
  ∧ savedBorders st' = savedBorders (insertSaved (next st)
                         (setCellMeta rw cl (next st) (alloc b st).2))
  ∧ createId rw cl ∈ liveSelectionIds st'.
Proof.
  intros [Hwf Hv] b st'.
  assert (id b = createId rw cl ∧ row b = rw ∧ col b = cl) as (Hid & Hrow & Hcol).
  { pose proof (keyOf_extendDefaultBorder (createEmptyBorders rw cl) d) as Hk.
    unfold keyOf in Hk. by injection Hk. }
  pose (st1 := (alloc b st).2). pose (st2 := setCellMeta rw cl (next st) st1).
  assert (st' = insertBorderIntoSettings (next st) st2) as Hst' by done.
  assert (heap st2 (next st) = b) as Hb by (simpl; by rewrite fn_lookup_insert).
  assert (wf0 st1) as Hwf1.
  { apply wf0_alloc; [done|]. by rewrite Hid, Hrow, Hcol. }
  assert (wf0 st2) as Hwf2.
  { apply wf0_setCellMeta; [done|simpl; lia| |];
      change (heap st1) with (heap st2); by rewrite Hb. }
  assert (next st < next st2)%nat as Hn by (simpl; lia).
  split_and!.
  - rewrite Hst'. split; [by apply wf0_insert|].
    apply visible_insert; [done..|]. by apply visible_alloc.
  - rewrite Hst'. eapply touches_trans; [by apply (touches_alloc _ b)|].
    eapply touches_trans; [apply touches_setCellMeta|].
    pose proof (touches_insert (next st) st2 Hwf2 Hn) as H.
    by rewrite Hb, Hid in H.
  - rewrite Hst'. destruct (insert_frame (next st) st2) as (_ & ->).
    simpl. apply lookup_insert_eq.
  - by rewrite Hst', insert_heap.
  - rewrite Hst'. by destruct (insert_frame (next st) st2) as (-> & _).
  - by rewrite Hst', insert_saved.
  - rewrite Hst'. pose proof (insert_live (next st) st2 Hwf2 Hn) as H.
    by rewrite Hb, Hid in H.
Qed.

(** Where [prepareBorderFromCustomAdded] leaves the saved border of the
    cell. *)
Lemma prepareBorderFromCustomAdded_saved rw cl d st :
  wf st →
  let b := extendDefaultBorder (createEmptyBorders rw cl) d in
  let st' := prepareBorderFromCustomAdded rw cl d st in
  (createId rw cl ∈ savedIds st' ↔ allHidden b = false)
  ∧ (allHidden b = false → createId rw cl ∉ savedIds st →
     savedBorders st' = savedBorders st ++ [next st])
  ∧ (allHidden b = false → ∀ i r0,
       savedBorders st !! i = Some r0 → id (heap st r0) = createId rw cl →
       savedBorders st' = <[i := next st]> (savedBorders st)).
Proof.
  intros [Hwf Hv] b st'.
  assert (id b = createId rw cl ∧ row b = rw ∧ col b = cl) as (Hid & Hrow & Hcol).
  { pose proof (keyOf_extendDefaultBorder (createEmptyBorders rw cl) d) as Hk.
    unfold keyOf in Hk. by injection Hk. }
  pose (st1 := (alloc b st).2). pose (st2 := setCellMeta rw cl (next st) st1).
  assert (st' = insertBorderIntoSettings (next st) st2) as Hst' by done.
  assert (heap st2 (next st) = b) as Hb by (simpl; by rewrite fn_lookup_insert).
  assert (wf0 st1) as Hwf1.
  { apply wf0_alloc; [done|]. by rewrite Hid, Hrow, Hcol. }
  assert (wf0 st2) as Hwf2.
  { apply wf0_setCellMeta; [done|simpl; lia| |];
      change (heap st1) with (heap st2); by rewrite Hb. }
  assert (next st < next st2)%nat as Hn by (simpl; lia).
  assert (∀ r, r ∈ savedBorders st → heap st2 r = heap st r) as Hold.
  { intros r Hr. simpl. rewrite fn_lookup_insert_ne; [done|].
    apply (wf_saved_valid _ Hwf) in Hr. lia. }
  assert (savedIds st2 = savedIds st) as Hids.
  { unfold savedIds. apply ids_ext. intros r Hr. by rewrite Hold. }
  split_and!.
  - rewrite Hst'. pose proof (insert_saved_id (next st) st2 Hwf2 Hn) as H.
    by rewrite Hb, Hid in H.
  - intros Hvis Hx. rewrite Hst', insert_saved.
    apply (insertSaved_new (next st) st2); rewrite Hb; [done|].
    by rewrite Hid, Hids.
  - intros Hvis i r0 Hi Hr0. rewrite Hst', insert_saved.
    apply (insertSaved_replace (next st) st2 i r0).
    + rewrite Hids. apply Hwf.
    + by rewrite Hb.
    + done.
    + rewrite Hb, Hid, Hold; [done|]. by eapply list_elem_of_lookup_2.
Qed.

(** ** [setBorder] *)

Lemma setBorder_parts rw cl place remove st :
  setBorder rw cl place remove st
  = applyEdge rw cl place remove (bordersMetaOf rw cl st).1 (bordersMetaOf rw cl st).2.
Proof.
  unfold setBorder, applyEdge, bordersMetaOf, syncBorder, alloc.
  destruct (cellMeta st !! (rw, cl)) as [r|]; [destruct (border (heap st r))|];
    destruct remove; done.
Qed.

Lemma bordersMetaOf_spec rw cl st :
  wf st →
  let M := (bordersMetaOf rw cl st).1 in
  let st0 := (bordersMetaOf rw cl st).2 in
  wf st0 ∧ touches [createId rw cl] st st0 ∧ (M < next st0)%nat
  ∧ heap st0 M = startBorder rw cl st
  ∧ keyOf (heap st0 M) = (createId rw cl, rw, cl).
Proof.
  intros [Hwf Hv]. unfold bordersMetaOf, startBorder, metaRecord.
  assert (let M := (alloc (createEmptyBorders rw cl) st).1 in
          let st0 := (alloc (createEmptyBorders rw cl) st).2 in
          wf st0 ∧ touches [createId rw cl] st st0 ∧ (M < next st0)%nat
          ∧ heap st0 M = createEmptyBorders rw cl
          ∧ keyOf (heap st0 M) = (createId rw cl, rw, cl)) as Halloc.
  { intros M st0. split_and!.
    - split; [by apply wf0_alloc|by apply visible_alloc].
    - by apply touches_alloc.
    - unfold M, st0. simpl. lia.
    - apply alloc_same.
    - unfold M, st0. by rewrite alloc_same. }
  destruct (cellMeta st !! (rw, cl)) as [r|] eqn:E; simpl; [|done].
  destruct (border (heap st r)) eqn:Eb; [|done]. simpl. split_and!.
  - done.
  - apply touches_refl.
  - by apply (wf_meta_valid _ Hwf) in E.
  - done.
  - unfold keyOf. rewrite (wf_heap_coords _ Hwf).
    apply (wf_meta_coords _ Hwf) in E. by injection E as -> ->.
Qed.

Lemma syncBorder_spec rw cl M st :
  wf st → (M < next st)%nat → keyOf (heap st M) = (createId rw cl, rw, cl) →
  let st' := syncBorder rw cl M st in
  wf st' ∧ touches [createId rw cl] st st'
  ∧ cellMeta st' !! (rw, cl) = Some M ∧ heap st' M = heap st M.
Proof.
  intros [Hwf Hv] HM Hk st'.
  assert (id (heap st M) = createId rw cl ∧ row (heap st M) = rw
          ∧ col (heap st M) = cl) as (Hid & Hrow & Hcol).
  { unfold keyOf in Hk. by injection Hk. }
  unfold st', syncBorder.
  destruct (checkCustomSelectionsFromContextMenu M st).
  - split_and!.
    + split; [by apply wf0_setCellMeta|done].
    + apply touches_setCellMeta.
    + simpl. apply lookup_insert_eq.
    + done.
  - pose proof (insert_keys M st Hwf HM M) as Hk'. rewrite Hk in Hk'.
    unfold keyOf in Hk'. injection Hk' as Hid' Hrow' Hcol'.
    destruct (insert_frame M st) as (Hn & Hm).
    split_and!.
    + split.
      * apply wf0_setCellMeta; [by apply wf0_insert|by rewrite Hn|done..].
      * by apply (visible_insert M st).
    + eapply touches_trans; [|apply touches_setCellMeta].
      rewrite <- Hid. by apply touches_insert.
    + simpl. apply lookup_insert_eq.
    + simpl. apply insert_heap.
Qed.

Lemma applyEdge_spec rw cl place (remove : bool) (M : ref) (st : State) :
  wf st → (M < next st)%nat → keyOf (heap st M) = (createId rw cl, rw, cl) →
  let b1 := setEdge place
              (if remove then createSingleEmptyBorder else createDefaultCustomBorder)
              (heap st M) in
  let st' := applyEdge rw cl place remove M st in
  wf st' ∧ touches [createId rw cl] st st'
  ∧ if remove && allHidden b1
    then cellMeta st' !! (rw, cl) = None
         ∧ (createId rw cl ∉ savedIds st')
         ∧ (createId rw cl ∉ liveSelectionIds st')
    else cellMeta st' !! (rw, cl) = Some M ∧ heap st' M = b1.
Proof.
  intros [Hwf Hv] HM Hk b1 st'.
  assert (id (heap st M) = createId rw cl) as Hid.
  { unfold keyOf in Hk. by injection Hk. }
  set (v := if remove then createSingleEmptyBorder else createDefaultCustomBorder)
    in b1.
  pose (st1 := modify M (setEdge place v) st).
  assert (heap st1 M = b1) as Hb1 by apply modify_same.
  assert (wf0 st1) as Hwf1 by (apply wf0_modify; [done|apply keyOf_setEdge]).
  assert (touches [createId rw cl] st st1) as Ht1.
  { apply touches_modify; [apply keyOf_setEdge|done]. }
  assert (keyOf (heap st1 M) = (createId rw cl, rw, cl)) as Hk1.
  { rewrite Hb1. unfold b1. by rewrite keyOf_setEdge. }
  assert (allHidden b1 = false → visible st1) as Hv1.
  { intros Hb. apply visible_modify; [done|]. by intros _. }
  assert (allHidden b1 = false →
          let st2 := syncBorder rw cl M st1 in
          wf st2 ∧ touches [createId rw cl] st st2
          ∧ cellMeta st2 !! (rw, cl) = Some M ∧ heap st2 M = b1) as Hsync.
  { intros Hb st2.
    destruct (syncBorder_spec rw cl M st1) as (H1 & H2 & H3 & H4);
      [by split; [|apply Hv1]|done|done|].
    split_and!; [done|by eapply touches_trans|done|by rewrite <- Hb1]. }
  unfold st', applyEdge. destruct remove; cbn [andb].
  - change (modify M (setEdge place createSingleEmptyBorder) st) with st1.
    rewrite Hb1. case_decide as Hc.
    + apply countHide_allHidden in Hc. rewrite Hc.
      destruct (removeAllBorders_post rw cl st1 Hwf1) as (P1 & P2 & P3).
      split_and!; try done.
      * split; [by apply wf0_removeAllBorders|].
        intros r Hr. rewrite removeAllBorders_saved in Hr.
        destruct (removeAllBorders_heap rw cl st1) as [-> _].
        assert (r ≠ M) as Hne.
        { intros ->. apply P1. apply elem_of_savedIds. exists M.
          rewrite removeAllBorders_saved.
          destruct (removeAllBorders_heap rw cl st1) as [-> _].
          split; [done|]. by rewrite Hb1, <- Hid; unfold b1; destruct place. }
        unfold st1. rewrite modify_other by done. apply Hv.
        eapply elem_of_sublist; [done|].
        apply (spliceBorder_sublist (createId rw cl) st1).
      * eapply touches_trans; [done|]. apply touches_removeAllBorders.
    + apply countHide_not_allHidden in Hc. rewrite Hc. by apply Hsync.
  - change (modify M (setEdge place createDefaultCustomBorder) st) with st1.
    apply Hsync. apply allHidden_setEdge_visible. done.
Qed.

(** [setBorder(row, column, place, remove)] works on the border object of
    the cell metadata, or on an empty one.  When the removal hides the
    fourth edge the cell loses its saved border, its live custom selection
    and its metadata; otherwise the metadata holds the object with the
    edge set. *)
Lemma setBorder_spec rw cl place (remove : bool) (st : State) :
  wf st →
  let b1 := setEdge place
              (if remove then createSingleEmptyBorder else createDefaultCustomBorder)
              (startBorder rw cl st) in
  let st' := setBorder rw cl place remove st in
  wf st' ∧ touches [createId rw cl] st st'
  ∧ if remove && allHidden b1
    then metaRecord st' rw cl = None
         ∧ (createId rw cl ∉ savedIds st')
         ∧ (createId rw cl ∉ liveSelectionIds st')
    else metaRecord st' rw cl = Some b1.
Proof.
  intros Hwf b1 st'. unfold st'. rewrite setBorder_parts.
  destruct (bordersMetaOf_spec rw cl st Hwf) as (H1 & H2 & H3 & H4 & H5).
  destruct (applyEdge_spec rw cl place remove _ _ H1 H3 H5) as (A1 & A2 & A3).
  rewrite H4 in A3. fold b1 in A3.
  split_and!; [done|by eapply touches_trans|].
  unfold metaRecord. destruct (remove && allHidden b1).
  - destruct A3 as (-> & ? & ?). done.
  - destruct A3 as (-> & Hh). simpl. by rewrite Hh.
Qed.

(** ** [prepareBorderFromCustomAddedRange] *)

Lemma rangeEdgeBlock_spec cond e d rw cl b add st :
  cellInv rw cl b st →
  let acc := rangeEdgeBlock cond e d rw cl b (add, st) in
  cellInv rw cl b acc.2 ∧ touches [createId rw cl] st acc.2.
Proof.
  intros ([Hwf Hv] & Hb & Hk & Hs). unfold rangeEdgeBlock.
  destruct cond; [|by split; [|apply touches_refl]].
  destruct (ownEdge e d) as [v|]; [|by split; [|apply touches_refl]].
  cbn [snd].
  assert (id (heap st b) = createId rw cl ∧ row (heap st b) = rw
          ∧ col (heap st b) = cl) as (Hid & Hrow & Hcol).
  { unfold keyOf in Hk. by injection Hk. }
  pose (st1 := modify b (setEdge e v) st).
  assert (wf0 st1) as Hwf1 by (apply wf0_modify; [done|apply keyOf_setEdge]).
  assert (keyOf (heap st1 b) = (createId rw cl, rw, cl)) as Hk1.
  { unfold st1. by rewrite modify_same, keyOf_setEdge. }
  assert (row (heap st1 b) = rw ∧ col (heap st1 b) = cl) as (Hrow1 & Hcol1).
  { unfold keyOf in Hk1. by injection Hk1. }
  split; [split_and!|].
  - split; [by apply wf0_setCellMeta|].
    apply (visible_modify b (setEdge e v) st); [done|]. by intros ?.
  - done.
  - done.
  - done.
  - eapply touches_trans; [|apply touches_setCellMeta].
    apply touches_modify; [apply keyOf_setEdge|done].
Qed.

Lemma rangeCell_spec range d rw cl st :
  wf st →
  wf (rangeCell range d rw cl st)
  ∧ touches [createId rw cl] st (rangeCell range d rw cl st).
Proof.
  intros [Hwf Hv]. unfold rangeCell.
  pose (b := next st). pose (st0 := (alloc (createEmptyBorders rw cl) st).2).
  change (alloc (createEmptyBorders rw cl) st) with (b, st0). cbv beta iota.
  assert (cellInv rw cl b st0) as H0.
  { split_and!.
    - split; [by apply wf0_alloc|by apply visible_alloc].
    - unfold b, st0. simpl. lia.
    - unfold b, st0. by rewrite alloc_same.
    - intros H. apply (wf_saved_valid _ Hwf) in H. unfold b in H. lia. }
  assert (touches [createId rw cl] st st0) as T0 by by apply touches_alloc.
  set (acc1 := rangeEdgeBlock _ Top d rw cl b (0%nat, st0)).
  destruct (rangeEdgeBlock_spec (bool_decide (rw = (from range).1)) Top d rw cl b
              0%nat st0 H0) as [H1 T1].
  fold acc1 in H1, T1. destruct acc1 as [add1 st1]. cbn [snd] in H1, T1.
  set (acc2 := rangeEdgeBlock _ Bottom d rw cl b (add1, st1)).
  destruct (rangeEdgeBlock_spec (bool_decide (rw = (to range).1)) Bottom d rw cl b
              add1 st1 H1) as [H2 T2].
  fold acc2 in H2, T2. destruct acc2 as [add2 st2]. cbn [snd] in H2, T2.
  set (acc3 := rangeEdgeBlock _ Left d rw cl b (add2, st2)).
  destruct (rangeEdgeBlock_spec (bool_decide (cl = (from range).2)) Left d rw cl b
              add2 st2 H2) as [H3 T3].
  fold acc3 in H3, T3. destruct acc3 as [add3 st3]. cbn [snd] in H3, T3.
  set (acc4 := rangeEdgeBlock _ Right d rw cl b (add3, st3)).
  destruct (rangeEdgeBlock_spec (bool_decide (cl = (to range).2)) Right d rw cl b
              add3 st3 H3) as [H4 T4].
  fold acc4 in H4, T4. destruct acc4 as [add4 st4]. cbn [snd] in H4, T4.
  assert (touches [createId rw cl] st st4) as T.
  { eapply touches_trans; [exact T0|]. eapply touches_trans; [exact T1|].
    eapply touches_trans; [exact T2|]. eapply touches_trans; [exact T3|].
    exact T4. }
  destruct H4 as ([Hwf4 Hv4] & Hb4 & Hk4 & _).
  case_decide; [|done].
  split.
  - split; [by apply wf0_insert|by apply visible_insert].
  - eapply touches_trans; [exact T|].
    pose proof (touches_insert b st4 Hwf4 Hb4) as Hi.
    unfold keyOf in Hk4. injection Hk4 as Hid _ _. by rewrite Hid in Hi.
Qed.

(** ** Loops *)

Lemma foldl_wf {A} (f : A → State → State) (l : list A) st :
  (∀ x s, wf s → wf (f x s)) → wf st → wf (foldl (λ s x, f x s) st l).
Proof.
  intros Hf. revert st. induction l as [|x l IH]; intros st Hwf; simpl; auto.
Qed.

Lemma foldl_touches {A} (f : A → State → State) ids (l : list A) st :
  (∀ x s, x ∈ l → wf s → wf (f x s) ∧ touches ids s (f x s)) →
  wf st →
  wf (foldl (λ s x, f x s) st l) ∧ touches ids st (foldl (λ s x, f x s) st l).
Proof.
  revert st. induction l as [|x l IH]; intros st Hf Hwf; simpl.
  - split; [done|apply touches_refl].
  - destruct (Hf x st) as [H1 H2]; [left|done|].
    destruct (IH (f x st)) as [H3 H4]; [|done|].
    + intros y s Hy. apply Hf. by right.
    + split; [done|]. by eapply touches_trans.
Qed.

Lemma elem_of_rangeIndices a b x : x ∈ rangeIndices a b ↔ a ≤ x ≤ b.
Proof. unfold rangeIndices. rewrite elem_of_seqZ. lia. Qed.

Lemma elem_of_rectIds r1 c1 r2 c2 r c :
  createId r c ∈ rectIds r1 c1 r2 c2 ↔ (r1 ≤ r ≤ r2 ∧ c1 ≤ c ≤ c2).
Proof.
  unfold rectIds. rewrite list_elem_of_bind. split.
  - intros (r' & Hc & Hr'). apply list_elem_of_bind in Hc as (c' & Hc & Hc').
    apply list_elem_of_singleton in Hc. apply createId_inj in Hc as [-> ->].
    by rewrite <- !elem_of_rangeIndices.
  - intros [Hr Hc]. exists r. rewrite elem_of_rangeIndices. split; [|done].
    apply list_elem_of_bind. exists c. rewrite elem_of_rangeIndices.
    split; [|done]. by apply list_elem_of_singleton.
Qed.

(** A loop over the cells of a rectangle, rows outside. *)
Lemma rangeEach_rows_spec (f : Z → Z → State → State) r1 c1 r2 c2 st :
  (∀ r c s, wf s → wf (f r c s) ∧ touches [createId r c] s (f r c s)) →
  wf st →
  let st' := rangeEach r1 r2 (λ r, rangeEach c1 c2 (λ c, f r c)) st in
  wf st' ∧ touches (rectIds r1 c1 r2 c2) st st'.
Proof.
  intros Hf Hwf. unfold rangeEach.
  apply (foldl_touches (λ r s, foldl (λ s c, f r c s) s (rangeIndices c1 c2)));
    [|done].
  intros r s Hr Hs.
  apply (foldl_touches (λ c s, f r c s)); [|done].
  intros c s' Hc Hs'. destruct (Hf r c s' Hs') as [H1 H2]. split; [done|].
  eapply touches_mono; [apply Hs'| |done].
  intros x Hx. apply list_elem_of_singleton in Hx as ->.
  apply elem_of_rectIds. by rewrite <- !elem_of_rangeIndices.
Qed.

(** The same with the columns outside, as in the 'noBorders' case of
    [prepareBorder]. *)
Lemma rangeEach_cols_spec (f : Z → Z → State → State) r1 c1 r2 c2 st :
  (∀ r c s, wf s → wf (f r c s) ∧ touches [createId r c] s (f r c s)) →
  wf st →
  let st' := rangeEach c1 c2 (λ c, rangeEach r1 r2 (λ r, f r c)) st in
  wf st' ∧ touches (rectIds r1 c1 r2 c2) st st'.
Proof.
  intros Hf Hwf. unfold rangeEach.
  apply (foldl_touches (λ c s, foldl (λ s r, f r c s) s (rangeIndices r1 r2)));
    [|done].
  intros c s Hc Hs.
  apply (foldl_touches (λ r s, f r c s)); [|done].
  intros r s' Hr Hs'. destruct (Hf r c s' Hs') as [H1 H2]. split; [done|].
  eapply touches_mono; [apply Hs'| |done].
  intros x Hx. apply list_elem_of_singleton in Hx as ->.
  apply elem_of_rectIds. by rewrite <- !elem_of_rangeIndices.
Qed.

Lemma removeAllBorders_spec rw cl st :
  wf st →
  wf (removeAllBorders rw cl st)
  ∧ touches [createId rw cl] st (removeAllBorders rw cl st).
Proof.
  intros [Hwf Hv]. split; [split|].
  - by apply wf0_removeAllBorders.
  - by apply visible_removeAllBorders.
  - apply touches_removeAllBorders.
Qed.

Lemma prepareBorderFromCustomAddedRange_spec rowDecriptor borderObject st :
  wf st →
  let range := rowRange rowDecriptor in
  let st' := prepareBorderFromCustomAddedRange rowDecriptor borderObject st in
  wf st'
  ∧ touches (rectIds (from range).1 (from range).2 (to range).1 (to range).2) st st'.
Proof.
  intros Hwf range st'. unfold st', prepareBorderFromCustomAddedRange.
  apply (rangeEach_rows_spec (λ r c, rangeCell _ _ r c)); [|done].
  intros r c s Hs. by apply rangeCell_spec.
Qed.

(** ** The operations keep states well formed *)

Lemma wf_setBordersOne borderObject cell st :
  wf st → wf (setBordersOne borderObject cell st).
Proof.
  intros Hwf. destruct cell as [r1 c1 r2 c2|cell]; simpl.
  - case_decide.
    + apply prepareBorderFromCustomAdded_spec.
      by apply removeAllBorders_spec.
    + apply prepareBorderFromCustomAddedRange_spec.
      apply (rangeEach_rows_spec removeAllBorders); [|done].
      intros r c s. apply removeAllBorders_spec.
  - apply prepareBorderFromCustomAddedRange_spec.
    apply (rangeEach_rows_spec removeAllBorders); [|done].
    intros r c s. apply removeAllBorders_spec.
Qed.

Lemma wf_setBorders selection borderObject st :
  wf st → wf (setBorders selection borderObject st).
Proof. apply foldl_wf. intros x s. apply wf_setBordersOne. Qed.

Lemma wf_clearBorders_step border st :
  wf st →
  wf (removeCellMeta (row (heap st border)) (col (heap st border))
        (clearBordersFromSelectionSettings (id (heap st border)) st)).
Proof.
  intros [Hwf Hv]. split.
  - by apply wf0_removeCellMeta, wf0_clearSelections.
  - intros r Hr. simpl in *.
    destruct (clearSelections_frame (id (heap st border)) st)
      as (Hh & _ & _ & Hs).
    rewrite Hh. rewrite Hs in Hr. by apply Hv.
Qed.

Lemma wf_clearBorders selection st : wf st → wf (clearBorders selection st).
Proof.
  intros Hwf. destruct selection as [selection|]; simpl.
  - by apply wf_setBorders.
  - unfold arrayEach.
    apply (foldl_wf (λ border s,
             removeCellMeta (row (heap s border)) (col (heap s border))
               (clearBordersFromSelectionSettings (id (heap s border)) s)));
      [|done].
    intros x s. apply wf_clearBorders_step.
Qed.

Lemma wf_setBorder rw cl place remove st :
  wf st → wf (setBorder rw cl place remove st).
Proof. intros Hwf. by apply setBorder_spec. Qed.

Lemma wf_rangeEach a b (f : Z → State → State) st :
  (∀ x s, wf s → wf (f x s)) → wf st → wf (rangeEach a b f st).
Proof. intros Hf. by apply foldl_wf. Qed.

Lemma wf_prepareBorderOne place remove sel st :
  wf st → wf (prepareBorderOne place remove sel st).
Proof.
  intros Hwf. destruct sel as [start end_]. unfold prepareBorderOne.
  case_decide.
  - destruct place as [e|]; [by apply wf_setBorder|by apply removeAllBorders_spec].
  - destruct place as [[]|]; try (apply wf_rangeEach; [|done]; intros x s;
      apply wf_setBorder).
    apply wf_rangeEach; [|done]. intros c s Hs.
    apply wf_rangeEach; [|done]. intros r s' Hs'. by apply removeAllBorders_spec.
Qed.

Lemma wf_prepareBorder selected place remove st :
  wf st → wf (prepareBorder selected place remove st).
Proof. apply foldl_wf. intros x s. apply wf_prepareBorderOne. Qed.

Lemma wf_createCustomBorders customBorders st :
  wf st → wf (createCustomBorders customBorders st).
Proof.
  apply foldl_wf. intros [range edges|rw cl edges] s Hs; simpl.
  - by apply prepareBorderFromCustomAddedRange_spec.
  - by apply prepareBorderFromCustomAdded_spec.
Qed.

Lemma wf_createSavedBordersFrom index count st st' :
  wf st → createSavedBordersFrom index count st = Some st' → wf st'.
Proof.
  revert index st. induction count as [|count IH]; intros index st Hwf; simpl.
  - by intros [= <-].
  - destruct (savedBorders st !! index) as [b|]; [|done].
    apply IH. by apply prepareBorderFromCustomAdded_spec.
Qed.

Lemma wf_set_enabled e st : wf st → wf (set_enabled e st).
Proof. intros [Hwf Hv]. split; [by apply wf0_set_enabled|done]. Qed.

Lemma wf_changeBorderSettings customBorders st st' :
  wf st → changeBorderSettings customBorders st = Some st' → wf st'.
Proof.
  intros Hwf. destruct customBorders as [|l|t]; simpl.
  - by intros [= <-].
  - intros [= <-]. apply wf_createCustomBorders. destruct l; [|done].
    destruct Hwf as [Hwf Hv]. split.
    + apply wf0_set_savedBorders; [done| |constructor].
      intros r Hr. by apply elem_of_nil in Hr.
    + intros r Hr. by apply elem_of_nil in Hr.
  - apply wf_createSavedBordersFrom, Hwf.
Qed.

Lemma wf_disablePlugin st : wf st → wf (disablePlugin st).
Proof. intros Hwf. by apply wf_set_enabled, wf_clearBorders. Qed.

Lemma wf_enablePlugin st : wf st → wf (enablePlugin st).
Proof.
  intros Hwf. unfold enablePlugin. destruct (enabled st); [done|].
  by apply wf_set_enabled.
Qed.

(** Every operation takes a well-formed state to a well-formed state. *)
Lemma wf_exec op st st' : wf st → exec op st = Some st' → wf st'.
Proof.
  intros Hwf. destruct op; simpl.
  - intros [= <-]. by apply wf_setBorders.
  - by intros [= <-].
  - intros [= <-]. by apply wf_clearBorders.
  - intros [= <-]. by apply wf_prepareBorder.
  - intros [= <-]. by apply wf_createCustomBorders.
  - by apply wf_changeBorderSettings.
  - apply wf_changeBorderSettings. by apply wf_enablePlugin, wf_disablePlugin.
  - intros [= <-]. by apply wf_disablePlugin.
  - intros [= <-]. by apply wf_enablePlugin.
Qed.

Lemma reachable_wf st : reachable st → wf st.
Proof.
  induction 1 as [|op st st' _ IH Hexec]; [apply wf_init|].
  by eapply wf_exec.
Qed.

(** C1. After any operation of the plugin ([setBorders], [getBorders],
    [clearBorders], the context menu items through [prepareBorder] and
    [setBorder], the initialization through [createCustomBorders], the
    life cycle) [this.savedBorders] holds no border object whose four
    edges [top], [right], [bottom] and [left] all have [hide = true]. *)
Theorem saved_borders_never_all_hidden st :
  reachable st → Forall (λ b, allHidden b = false) (savedRecords st).
Proof.
  intros Hr. apply reachable_wf in Hr as [_ Hv].
  unfold savedRecords. apply Forall_fmap, Forall_forall. intros r Hrs.
  by apply Hv.
Qed.

Lemma saved_borders_never_all_hidden_witness :
  Forall (λ b, allHidden b = false)
    (savedRecords
       (prepareBorder [((1, 1), (1, 1))] (PlaceEdge Top) true
          (setBorders [SelArray 1 1 1 1; SelArray 0 0 2 2] (Some topAndLeft) init))).
Proof.
  apply saved_borders_never_all_hidden.
  eapply reachable_step with (op := OpPrepareBorder _ (PlaceEdge Top) true);
    [|reflexivity].
  eapply reachable_step
    with (op := OpSetBorders [SelArray 1 1 1 1; SelArray 0 0 2 2] (Some topAndLeft));
    [|reflexivity].
  apply reachable_init.
Defined.

(** ** Idempotence of the removals *)

Lemma list_alter_alter {A} (f g : A → A) (l : list A) i j :
  (∀ x, f (g x) = g (f x)) →
  alter f i (alter g j l) = alter g j (alter f i l).
Proof.
  intros Hfg. revert i j.
  induction l as [|a l IH]; intros [|i] [|j]; csimpl; f_equal; auto.
Qed.

Lemma list_alter_twice {A} (f : A → A) (l : list A) i :
  (∀ x, f (f x) = f x) → alter f i (alter f i l) = alter f i l.
Proof.
  intros Hf. revert i.
  induction l as [|a l IH]; intros [|i]; csimpl; f_equal; auto.
Qed.

Lemma ids_alter_clear (h : ref → BorderRecord) (l : list Selection) (i : nat) :
  (λ s, id (h (settings s))) <$> alter clearSelection i l
  = (λ s, id (h (settings s))) <$> l.
Proof.
  revert i. induction l as [|a l IH]; intros [|i]; csimpl; f_equal; auto.
Qed.

Lemma ids_clearAt h x (l : list Selection) :
  (λ s, id (h (settings s))) <$> clearAt h x l = (λ s, id (h (settings s))) <$> l.
Proof.
  unfold clearAt. destruct (indexOf _ _); [apply ids_alter_clear|done].
Qed.

Lemma clearAt_comm h x y l : clearAt h x (clearAt h y l) = clearAt h y (clearAt h x l).
Proof.
  unfold clearAt at 1 3. rewrite !ids_clearAt. unfold clearAt.
  destruct (indexOf x _) as [i|], (indexOf y _) as [j|]; try done.
  by apply list_alter_alter.
Qed.

Lemma clearAt_idemp h x l : clearAt h x (clearAt h x l) = clearAt h x l.
Proof.
  unfold clearAt at 1. rewrite !ids_clearAt. unfold clearAt.
  destruct (indexOf x _) as [i|]; [|done].
  by apply list_alter_twice.
Qed.

Lemma clearBordersStep_eq border s :
  clearBordersStep border s
  = set_cellMeta (delete (row (heap s border), col (heap s border)) (cellMeta s))
      (set_customSelections
         (clearAt (heap s) (id (heap s border)) (customSelections s)) s).
Proof.
  unfold clearBordersStep, clearBordersFromSelectionSettings, clearAt,
    selectionIds, removeCellMeta.
  by destruct (indexOf _ _).
Qed.

Lemma clearBordersStep_comm a b s :
  clearBordersStep a (clearBordersStep b s)
  = clearBordersStep b (clearBordersStep a s).
Proof.
  rewrite !clearBordersStep_eq. unfold set_cellMeta, set_customSelections.
  simpl. f_equal; [apply delete_delete|apply clearAt_comm].
Qed.

Lemma clearBordersStep_idemp a s :
  clearBordersStep a (clearBordersStep a s) = clearBordersStep a s.
Proof.
  rewrite !clearBordersStep_eq. unfold set_cellMeta, set_customSelections.
  simpl. f_equal; [apply delete_delete_eq|apply clearAt_idemp].
Qed.

(** A loop of steps that commute and are idempotent is idempotent. *)
Section loop_idempotent.
Context {A T : Type} (f : A → T → T).
Hypothesis comm : ∀ a b s, f a (f b s) = f b (f a s).
Hypothesis idemp : ∀ a s, f a (f a s) = f a s.

Lemma foldl_push a l s :
  f a (foldl (λ s x, f x s) s l) = foldl (λ s x, f x s) (f a s) l.
Proof.
  revert s. induction l as [|b l IH]; intros s; simpl; [done|].
  by rewrite IH, comm.
Qed.

Lemma foldl_absorb a l s :
  a ∈ l → f a (foldl (λ s x, f x s) s l) = foldl (λ s x, f x s) s l.
Proof.
  revert s. induction l as [|b l IH]; intros s Ha; simpl.
  - by apply elem_of_nil in Ha.
  - apply elem_of_cons in Ha as [->|Ha]; [|by apply IH].
    by rewrite foldl_push, idemp.
Qed.

Lemma foldl_fixed l s :
  (∀ a, a ∈ l → f a s = s) → foldl (λ s x, f x s) s l = s.
Proof.
  induction l as [|b l IH]; intros H; simpl; [done|].
  rewrite H by left. apply IH. intros a Ha. apply H. by right.
Qed.

Lemma foldl_idempotent l s :
  foldl (λ s x, f x s) (foldl (λ s x, f x s) s l) l = foldl (λ s x, f x s) s l.
Proof. apply foldl_fixed. intros a Ha. by apply foldl_absorb. Qed.
End loop_idempotent.

Lemma clearBorders_None_eq st :
  clearBorders None st = foldl (λ s x, clearBordersStep x s) st (savedBorders st).
Proof. done. Qed.

Lemma clearBordersStep_frame a s :
  heap (clearBordersStep a s) = heap s ∧ next (clearBordersStep a s) = next s
  ∧ savedBorders (clearBordersStep a s) = savedBorders s
  ∧ enabled (clearBordersStep a s) = enabled s.
Proof. by rewrite clearBordersStep_eq. Qed.

Lemma clearBordersLoop_frame l st :
  let st' := foldl (λ s x, clearBordersStep x s) st l in
  heap st' = heap st ∧ next st' = next st
  ∧ savedBorders st' = savedBorders st ∧ enabled st' = enabled st.
Proof.
  revert st. induction l as [|a l IH]; intros st; simpl; [done|].
  destruct (IH (clearBordersStep a st)) as (-> & -> & -> & ->).
  apply clearBordersStep_frame.
Qed.

Lemma clearBorders_None_frame st :
  heap (clearBorders None st) = heap st ∧ next (clearBorders None st) = next st
  ∧ savedBorders (clearBorders None st) = savedBorders st
  ∧ enabled (clearBorders None st) = enabled st.
Proof. rewrite clearBorders_None_eq. apply clearBordersLoop_frame. Qed.

(** C9. The two removals are idempotent: [spliceBorder(borderId)] called
    twice in a row leaves the state that one call leaves, and changes
    nothing when no saved border has the id; [clearBorders()] called twice
    in a row leaves the state that one call leaves. *)
Theorem removals_idempotent st borderId :
  reachable st →
  spliceBorder borderId (spliceBorder borderId st) = spliceBorder borderId st
  ∧ (borderId ∉ savedIds st → spliceBorder borderId st = st)
  ∧ clearBorders None (clearBorders None st) = clearBorders None st.
Proof.
  intros Hr. apply reachable_wf in Hr as [Hwf _]. split_and!.
  - apply spliceBorder_absent, spliceBorder_not_in, Hwf.
  - apply spliceBorder_absent.
  - rewrite (clearBorders_None_eq (clearBorders None st)).
    destruct (clearBorders_None_frame st) as (_ & _ & -> & _).
    rewrite clearBorders_None_eq.
    apply (foldl_idempotent clearBordersStep);
      [apply clearBordersStep_comm|apply clearBordersStep_idemp].
Qed.

Lemma removals_idempotent_witness :
  let st := setBorders [SelArray 0 0 0 0] (Some onlyTop) init in
  spliceBorder "border_row0col0" (spliceBorder "border_row0col0" st)
  = spliceBorder "border_row0col0" st
  ∧ ("border_row0col0" ∉ savedIds st → spliceBorder "border_row0col0" st = st)
  ∧ clearBorders None (clearBorders None st) = clearBorders None st.
Proof.
  apply (removals_idempotent
           (setBorders [SelArray 0 0 0 0] (Some onlyTop) init) "border_row0col0").
  eapply reachable_step with (op := OpSetBorders [SelArray 0 0 0 0] (Some onlyTop));
    [apply reachable_init|reflexivity].
Defined.

(** ** Views of well-formed states *)

Lemma filter_none {A} (P : A → Prop) `{!∀ x, Decision (P x)} (l : list A) :
  (∀ x, x ∈ l → ¬ P x) → filter P l = [].
Proof.
  induction l as [|a l IH]; intros Hl; [done|].
  rewrite filter_cons_False by (apply Hl; left).
  apply IH. intros x Hx. apply Hl. by right.
Qed.

(** In a well-formed state the saved borders of a cell are those with the
    id of the cell. *)
Lemma bordersAt_by_id rw cl st :
  wf0 st →
  bordersAt st rw cl = filter (λ r, id (heap st r) = createId rw cl) (savedBorders st).
Proof.
  intros Hwf. unfold bordersAt. apply list_filter_iff. intros r.
  rewrite (wf_heap_coords _ Hwf). split.
  - by intros [-> ->].
  - by intros H%createId_inj.
Qed.

Lemma bordersAt_nil rw cl st :
  wf0 st → createId rw cl ∉ savedIds st → bordersAt st rw cl = [].
Proof.
  intros Hwf Hx. rewrite bordersAt_by_id by done. apply filter_none.
  intros r Hr Hid. apply Hx, elem_of_savedIds. eauto.
Qed.

(** What [touches] keeps of a cell outside the touched ids. *)
Lemma touches_metaRecord ids st st' rw cl :
  wf0 st → touches ids st st' → createId rw cl ∉ ids →
  metaRecord st' rw cl = metaRecord st rw cl.
Proof.
  intros Hwf Ht Hx. unfold metaRecord.
  rewrite (t_meta _ _ _ Ht (rw, cl)) by done.
  destruct (cellMeta st !! (rw, cl)) as [r|] eqn:E; [|done]. simpl. f_equal.
  apply (t_heap _ _ _ Ht); [by eapply wf_meta_valid|].
  rewrite (wf_heap_coords _ Hwf).
  apply (wf_meta_coords _ Hwf) in E. by injection E as -> ->.
Qed.

Lemma touches_saved_filter ids st st' x :
  wf0 st → wf0 st' → touches ids st st' → x ∉ ids →
  filter (λ r, id (heap st' r) = x) (savedBorders st')
  = filter (λ r, id (heap st r) = x) (savedBorders st).
Proof.
  intros Hwf Hwf' Ht Hx.
  transitivity (filter (λ r, id (heap st' r) = x)
                  (filter (λ r, id (heap st' r) ∉ ids) (savedBorders st'))).
  { rewrite list_filter_filter. apply list_filter_iff. intros r.
    split; [|by intros [? _]]. intros H. split; [done|]. by rewrite H. }
  rewrite (t_saved _ _ _ Ht), list_filter_filter. apply filter_ext_in.
  intros r Hr.
  rewrite (keyOf_id _ _ (t_keys _ _ _ Ht r (wf_saved_valid _ Hwf r Hr))).
  split; [by intros [? _]|]. intros H. split; [done|]. by rewrite H.
Qed.

Lemma touches_bordersAt ids st st' rw cl :
  wf0 st → wf0 st' → touches ids st st' → createId rw cl ∉ ids →
  bordersAt st' rw cl = bordersAt st rw cl
  ∧ heap st' <$> bordersAt st' rw cl = heap st <$> bordersAt st rw cl.
Proof.
  intros Hwf Hwf' Ht Hx. rewrite !bordersAt_by_id by done.
  rewrite (touches_saved_filter ids st st') by done. split; [done|].
  apply list_fmap_ext. intros i r Hr.
  apply list_elem_of_lookup_2, list_elem_of_filter in Hr as [Hid Hr].
  apply (t_heap _ _ _ Ht); [by apply (wf_saved_valid _ Hwf)|]. by rewrite Hid.
Qed.

Lemma touches_savedIds ids st st' x :
  wf0 st → wf0 st' → touches ids st st' → x ∉ ids →
  x ∈ savedIds st' ↔ x ∈ savedIds st.
Proof.
  intros Hwf Hwf' Ht Hx.
  pose proof (touches_saved_filter ids st st' x Hwf Hwf' Ht Hx) as Hf.
  rewrite !elem_of_savedIds. split; intros (r & Hr & Hid).
  - assert (r ∈ filter (λ r, id (heap st' r) = x) (savedBorders st')) as H
      by by apply list_elem_of_filter.
    rewrite Hf in H. apply list_elem_of_filter in H as [? ?]. eauto.
  - assert (r ∈ filter (λ r, id (heap st r) = x) (savedBorders st)) as H
      by by apply list_elem_of_filter.
    rewrite <- Hf in H. apply list_elem_of_filter in H as [? ?]. eauto.
Qed.

(** ** [clearBorders()] *)

Lemma clearBordersStep_fixed a s :
  wf0 s → clearBordersStep a s = s →
  cellMeta s !! (row (heap s a), col (heap s a)) = None
  ∧ id (heap s a) ∉ liveSelectionIds s.
Proof.
  intros Hwf Hfix. rewrite clearBordersStep_eq in Hfix.
  pose proof (f_equal cellMeta Hfix) as Hm.
  pose proof (f_equal customSelections Hfix) as Hc. simpl in Hm, Hc.
  split.
  - rewrite <- Hm. apply lookup_delete_eq.
  - pose proof (clearSelections_not_live (id (heap s a)) s (wf_sel_nodup _ Hwf))
      as Hnl.
    unfold liveSelectionIds in *.
    destruct (clearSelections_frame (id (heap s a)) s) as (Hh & _).
    rewrite Hh in Hnl.
    assert (customSelections (clearBordersFromSelectionSettings (id (heap s a)) s)
            = clearAt (heap s) (id (heap s a)) (customSelections s)) as Hcs.
    { unfold clearBordersFromSelectionSettings, clearAt, selectionIds.
      by destruct (indexOf _ _). }
    by rewrite Hcs, Hc in Hnl.
Qed.

(** What [clearBorders()] does: the saved borders and the border objects
    stay as they are, and every saved border loses its cell metadata and
    its live custom selection. *)
Lemma clearBorders_None_post st :
  wf st →
  let st' := clearBorders None st in
  savedBorders st' = savedBorders st ∧ heap st' = heap st
  ∧ ∀ b, b ∈ savedRecords st →
      metaRecord st' (row b) (col b) = None ∧ id b ∉ liveSelectionIds st'.
Proof.
  intros Hwf st'.
  destruct (clearBorders_None_frame st) as (Hh & _ & Hs & _).
  split_and!; [done..|].
  intros b Hb. apply list_elem_of_fmap in Hb as (r & -> & Hr).
  assert (clearBordersStep r st' = st') as Hfix.
  { unfold st'. rewrite clearBorders_None_eq.
    apply (foldl_absorb clearBordersStep);
      [apply clearBordersStep_comm|apply clearBordersStep_idemp|done]. }
  destruct (clearBordersStep_fixed r st') as [H1 H2];
    [by apply wf_clearBorders|done|].
  fold st' in Hh. rewrite Hh in H1, H2. unfold metaRecord. by rewrite H1.
Qed.

(** ** [clearBorders()] keeps the saved borders *)

(** Counterexample to C2: after [setBorders([[0, 0, 0, 0]],
    {top: {}})] the call [clearBorders()] leaves the saved border in
    [this.savedBorders]. *)
Lemma clearBorders_store_not_emptied :
  savedIds (clearBorders None (setBorders [SelArray 0 0 0 0] (Some onlyTop) init))
  = ["border_row0col0"]
  ∧ savedRecords (clearBorders None (setBorders [SelArray 0 0 0 0] (Some onlyTop) init))
    ≠ [].
Proof. split; [by vm_compute|]. vm_compute. discriminate. Qed.

(** C2, amended. [clearBorders()] goes through every saved border: its
    custom selection is cleared (it is not live any more) and the
    ['borders'] metadata of its cell is removed; the saved borders
    themselves all stay in [this.savedBorders], unchanged. *)
Theorem clearBorders_no_argument st :
  reachable st →
  let st' := clearBorders None st in
  savedRecords st' = savedRecords st
  ∧ ∀ b, b ∈ savedRecords st →
      metaRecord st' (row b) (col b) = None ∧ id b ∉ liveSelectionIds st'.
Proof.
  intros Hr. cbv zeta. apply reachable_wf in Hr.
  destruct (clearBorders_None_post st Hr) as (Hs & Hh & Hpost).
  split; [|done]. unfold savedRecords. by rewrite Hs, Hh.
Qed.

Lemma reachable_1 op st' : exec op init = Some st' → reachable st'.
Proof. intros H. eapply reachable_step; [apply reachable_init|done]. Qed.

Lemma clearBorders_no_argument_witness :
  let st := setBorders [SelArray 0 0 0 0] (Some onlyTop) init in
  let st' := clearBorders None st in
  savedRecords st' = savedRecords st
  ∧ ∀ b, b ∈ savedRecords st →
      metaRecord st' (row b) (col b) = None ∧ id b ∉ liveSelectionIds st'.
Proof.
  apply (clearBorders_no_argument
           (setBorders [SelArray 0 0 0 0] (Some onlyTop) init)).
  apply (reachable_1 (OpSetBorders [SelArray 0 0 0 0] (Some onlyTop))).
  reflexivity.
Defined.

(** ** Saved borders and custom selections *)

Lemma setBorders_point rw cl borderObject st :
  setBorders [SelArray rw cl rw cl] borderObject st
  = prepareBorderFromCustomAdded rw cl borderObject (removeAllBorders rw cl st).
Proof.
  unfold setBorders, arrayEach. simpl. by rewrite decide_True.
Qed.

Lemma prepareBorder_point rw cl place remove st :
  prepareBorder [((rw, cl), (rw, cl))] place remove st
  = match place with
    | NoBorders => removeAllBorders rw cl st
    | PlaceEdge e => setBorder rw cl e remove st
    end.
Proof.
  unfold prepareBorder, arrayEach. simpl. by rewrite decide_True.
Qed.

(** After [setBorders] on one cell, where the saved border of the cell is. *)
Lemma setBorders_point_post rw cl o st :
  wf st →
  let st' := setBorders [SelArray rw cl rw cl] o st in
  let b := extendDefaultBorder (createEmptyBorders rw cl) o in
  wf st'
  ∧ metaRecord st' rw cl = Some b
  ∧ createId rw cl ∈ liveSelectionIds st'
  ∧ (createId rw cl ∈ savedIds st' ↔ allHidden b = false)
  ∧ heap st' <$> bordersAt st' rw cl = if allHidden b then [] else [b].
Proof.
  intros Hwf st' b. unfold st'. rewrite setBorders_point.
  destruct (removeAllBorders_spec rw cl st Hwf) as [Hwf1 _].
  destruct (removeAllBorders_post rw cl st (proj1 Hwf)) as (Hx & _ & _).
  set (st1 := removeAllBorders rw cl st) in *.
  destruct (prepareBorderFromCustomAdded_spec rw cl o st1 Hwf1)
    as (Hwf2 & Ht & Hm & Hh & Hn & _ & Hl).
  destruct (prepareBorderFromCustomAdded_saved rw cl o st1 Hwf1)
    as (Hiff & Hnew & _).
  fold b in Hh, Hiff, Hnew.
  set (st2 := prepareBorderFromCustomAdded rw cl o st1) in *.
  assert (id b = createId rw cl) as Hid.
  { pose proof (keyOf_extendDefaultBorder (createEmptyBorders rw cl) o) as Hk.
    unfold keyOf in Hk. by injection Hk. }
  split_and!; try done.
  - unfold metaRecord. rewrite Hm.
    change (Some (heap st2 (next st1)) = Some b). by rewrite Hh.
  - destruct (allHidden b) eqn:E.
    + rewrite bordersAt_nil; [done|apply Hwf2|]. intros H. by apply Hiff in H.
    + rewrite bordersAt_by_id by apply Hwf2.
      rewrite (Hnew eq_refl Hx), filter_app.
      rewrite (filter_none _ (savedBorders st1)).
      * rewrite filter_cons_True by by rewrite Hh.
        change ([heap st2 (next st1)] = [b]). by rewrite Hh.
      * intros r Hr Hr'. apply Hx, elem_of_savedIds. exists r. split; [done|].
        rewrite <- Hr'. symmetry. apply keyOf_id, (t_keys _ _ _ Ht).
        by apply (wf_saved_valid _ (proj1 Hwf1)).
Qed.

(** Counterexample to C3.  After [setBorders] on the cells
    (0,0) and (0,1), [clearBorders()] and the 'noBorders' item on (0,1):
    the border of (0,0) is saved but has no custom selection at all, and
    (0,1) still has a (cleared) custom selection but no saved border.  So
    the saved ids differ from the ids of the live custom selections, and
    also from the ids of all custom selections. *)
Lemma saved_and_selections_diverge :
  let st := prepareBorder [((0, 1), (0, 1))] NoBorders false
              (clearBorders None
                 (setBorders [SelArray 0 0 0 0; SelArray 0 1 0 1] (Some onlyTop) init)) in
  reachable st
  ∧ ¬ (∀ x, x ∈ savedIds st ↔ x ∈ liveSelectionIds st)
  ∧ ¬ (∀ x, x ∈ savedIds st ↔ x ∈ selectionIds st).
Proof.
  intros st.
  assert (savedIds st = ["border_row0col0"]) as Hs by by vm_compute.
  assert (liveSelectionIds st = []) as Hl by by vm_compute.
  assert (selectionIds st = ["border_row0col1"]) as Ha by by vm_compute.
  split_and!.
  - eapply reachable_step with (op := OpPrepareBorder _ NoBorders false);
      [|reflexivity].
    eapply reachable_step with (op := OpClearBorders None); [|reflexivity].
    by apply (reachable_1 (OpSetBorders [SelArray 0 0 0 0; SelArray 0 1 0 1]
                             (Some onlyTop))).
  - rewrite Hs, Hl. intros H. specialize (H "border_row0col0").
    destruct H as [H _]. eapply not_elem_of_nil, H. left.
  - rewrite Hs, Ha. intros H. specialize (H "border_row0col0").
    destruct H as [H _].
    assert ("border_row0col0" ∈ ["border_row0col1"]) as Hin by (apply H; left).
    apply list_elem_of_singleton in Hin. discriminate.
Qed.

(** C3, amended.  The operation that gives a cell a border with a visible
    edge ([setBorders] on the cell) leaves the id of the cell both among
    the saved borders and among the live custom selections, and the
    operation that removes the borders of a cell (the 'noBorders' item,
    [removeAllBorders]) leaves the id in neither.  Nothing is said of the
    other operations: [clearBorders()] clears the custom selections of the
    saved borders and keeps the saved borders. *)
Theorem saved_and_selections_agree st rw cl :
  reachable st →
  (∀ o, allHidden (extendDefaultBorder (createEmptyBorders rw cl) (Some o)) = false →
     let st' := setBorders [SelArray rw cl rw cl] (Some o) st in
     createId rw cl ∈ savedIds st' ∧ createId rw cl ∈ liveSelectionIds st')
  ∧ (∀ remove,
       let st' := prepareBorder [((rw, cl), (rw, cl))] NoBorders remove st in
       (createId rw cl ∉ savedIds st') ∧ (createId rw cl ∉ liveSelectionIds st')).
Proof.
  intros Hr. apply reachable_wf in Hr. split.
  - intros o Ho st'.
    destruct (setBorders_point_post rw cl (Some o) st Hr) as (_ & _ & Hl & Hs & _).
    split; [by apply Hs|done].
  - intros remove st'. unfold st'. rewrite prepareBorder_point.
    destruct (removeAllBorders_post rw cl st (proj1 Hr)) as (H1 & H2 & _).
    done.
Qed.

Lemma saved_and_selections_agree_witness :
  (let st' := setBorders [SelArray 0 0 0 0] (Some onlyTop) init in
   createId 0 0 ∈ savedIds st' ∧ createId 0 0 ∈ liveSelectionIds st')
  ∧ (let st' := prepareBorder [((0, 0), (0, 0))] NoBorders false init in
     (createId 0 0 ∉ savedIds st') ∧ (createId 0 0 ∉ liveSelectionIds st')).
Proof.
  destruct (saved_and_selections_agree init 0 0 reachable_init) as [H1 H2].
  split; [apply (H1 onlyTop); reflexivity|apply (H2 false)].
Defined.

(** ** [setBorders] and [getBorders] on one cell *)

Lemma getBorders_point rw cl st :
  getBorders [SelArray rw cl rw cl] st = bordersAt st rw cl.
Proof.
  unfold getBorders. simpl. rewrite decide_True by done. apply app_nil_r.
Qed.

(** Counterexample to C5: [setBorders([[0, 0, 0, 0]], {})]
    followed by [getBorders([[0, 0, 0, 0]])] returns no record. *)
Lemma setBorders_getBorders_no_record :
  getBorders [SelArray 0 0 0 0]
    (setBorders [SelArray 0 0 0 0] (Some noEdges) init) = [].
Proof. by vm_compute. Qed.

(** ** The context menu on one cell *)

Lemma startBorder_of_meta rw cl st b :
  metaRecord st rw cl = Some b → is_Some (border b) → startBorder rw cl st = b.
Proof. intros Hm [h Hb]. unfold startBorder. by rewrite Hm, Hb. Qed.

(** A removal that hides the fourth edge evicts the saved border of the
    cell, clears its custom selection and removes the ['borders'] metadata
    of the cell. *)
Lemma setBorder_evicts rw cl place st :
  wf st →
  allHidden (setEdge place createSingleEmptyBorder (startBorder rw cl st)) = true →
  let st' := setBorder rw cl place true st in
  wf st' ∧ bordersAt st' rw cl = [] ∧ cellMeta st' !! (rw, cl) = None
  ∧ createId rw cl ∉ liveSelectionIds st'.
Proof.
  intros Hwf Hh st'.
  destruct (setBorder_spec rw cl place true st Hwf) as (Hwf' & _ & Hpost).
  simpl in Hpost. rewrite Hh in Hpost. destruct Hpost as (Hm & Hs & Hl).
  split_and!; [done| | |done].
  - apply bordersAt_nil; [apply Hwf'|done].
  - unfold metaRecord in Hm. by destruct (cellMeta _ !! _).
Qed.

(** A call that leaves an edge visible writes the border object with the
    edge set to the cell metadata. *)
Lemma setBorder_keeps rw cl place (remove : bool) st :
  wf st →
  let b1 := setEdge place
              (if remove then createSingleEmptyBorder else createDefaultCustomBorder)
              (startBorder rw cl st) in
  allHidden b1 = false →
  let st' := setBorder rw cl place remove st in
  wf st' ∧ metaRecord st' rw cl = Some b1.
Proof.
  intros Hwf b1 Hh st'.
  destruct (setBorder_spec rw cl place remove st Hwf) as (Hwf' & _ & Hpost).
  fold b1 in Hpost. rewrite Hh, andb_false_r in Hpost. done.
Qed.

(** C8. From a state in which the cell (1,1) has no ['borders'] metadata,
    the context menu calls add 'top', add 'right', remove 'top', remove
    'right' ([prepareBorder] on the cell, hence [setBorder]) end with no
    saved border for (1,1), no ['borders'] key in the metadata of the
    cell and no live custom selection for the cell.  In general, when a
    removal brings the number of hidden edges of the border object of a
    cell to four, the border is evicted in full: the saved border of the
    cell is removed from [this.savedBorders], its custom selection is
    cleared, and the metadata of the cell is removed. *)
Theorem menu_removal_evicts st :
  reachable st →
  (cellMeta st !! (1, 1) = None →
   let sel := [((1, 1), (1, 1))] in
   let st4 :=
     prepareBorder sel (PlaceEdge Right) true
       (prepareBorder sel (PlaceEdge Top) true
          (prepareBorder sel (PlaceEdge Right) false
             (prepareBorder sel (PlaceEdge Top) false st))) in
   bordersAt st4 1 1 = [] ∧ cellMeta st4 !! (1, 1) = None
   ∧ createId 1 1 ∉ liveSelectionIds st4)
  ∧ (∀ rw cl place,
       allHidden (setEdge place createSingleEmptyBorder (startBorder rw cl st)) = true →
       let st' := setBorder rw cl place true st in
       bordersAt st' rw cl = [] ∧ cellMeta st' !! (rw, cl) = None
       ∧ createId rw cl ∉ liveSelectionIds st').
Proof.
  intros Hr. apply reachable_wf in Hr. split.
  - intros Hm sel st4. unfold st4, sel. rewrite !prepareBorder_point.
    assert (startBorder 1 1 st = createEmptyBorders 1 1) as H0.
    { unfold startBorder, metaRecord. by rewrite Hm. }
    destruct (setBorder_keeps 1 1 Top false st Hr) as [Hwf1 Hm1];
      [by rewrite H0|].
    rewrite H0 in Hm1.
    set (st1 := setBorder 1 1 Top false st) in *.
    apply startBorder_of_meta in Hm1 as H1; [|by eexists].
    destruct (setBorder_keeps 1 1 Right false st1 Hwf1) as [Hwf2 Hm2];
      [by rewrite H1|].
    rewrite H1 in Hm2.
    set (st2 := setBorder 1 1 Right false st1) in *.
    apply startBorder_of_meta in Hm2 as H2; [|by eexists].
    destruct (setBorder_keeps 1 1 Top true st2 Hwf2) as [Hwf3 Hm3];
      [by rewrite H2|].
    rewrite H2 in Hm3.
    set (st3 := setBorder 1 1 Top true st2) in *.
    apply startBorder_of_meta in Hm3 as H3; [|by eexists].
    destruct (setBorder_evicts 1 1 Right st3 Hwf3) as (_ & E1 & E2 & E3);
      [by rewrite H3|].
    done.
  - intros rw cl place Hh st'.
    by destruct (setBorder_evicts rw cl place st Hr Hh) as (_ & ? & ? & ?).
Qed.

Lemma menu_removal_evicts_witness :
  let st := setBorders [SelArray 0 0 0 0] (Some onlyTop) init in
  (let sel := [((1, 1), (1, 1))] in
   let st4 :=
     prepareBorder sel (PlaceEdge Right) true
       (prepareBorder sel (PlaceEdge Top) true
          (prepareBorder sel (PlaceEdge Right) false
             (prepareBorder sel (PlaceEdge Top) false st))) in
   bordersAt st4 1 1 = [] ∧ cellMeta st4 !! (1, 1) = None
   ∧ createId 1 1 ∉ liveSelectionIds st4)
  ∧ (createId 0 0 ∈ liveSelectionIds st
     ∧ let st' := setBorder 0 0 Top true st in
       bordersAt st' 0 0 = [] ∧ cellMeta st' !! (0, 0) = None
       ∧ createId 0 0 ∉ liveSelectionIds st').
Proof.
  assert (reachable (setBorders [SelArray 0 0 0 0] (Some onlyTop) init)) as Hr.
  { eapply reachable_step with (op := OpSetBorders _ _);
      [apply reachable_init|reflexivity]. }
  destruct (menu_removal_evicts _ Hr) as [H1 H2].
  split; [apply H1; reflexivity|].
  split; [vm_compute; apply elem_of_cons; by left|].
  apply (H2 0 0 Top); reflexivity.
Defined.

(** ** The context menu on a rectangle *)

(** A property that a step of a loop establishes and the other steps
    keep. *)
Lemma foldl_establish {A} (f : A → State → State) (P Q : State → Prop) l y st :
  y ∈ l →
  (∀ x s, P s → P (f x s)) →
  (∀ s, P s → Q (f y s)) →
  (∀ x s, P s → Q s → Q (f x s)) →
  P st → Q (foldl (λ s x, f x s) st l).
Proof.
  intros Hy HP Hest Hkeep. revert st.
  induction l as [|x l IH]; intros st Hst; [by apply elem_of_nil in Hy|].
  simpl. apply elem_of_cons in Hy as [<-|Hy].
  - assert (P (f y st) ∧ Q (f y st)) as [H1 H2] by auto.
    clear IH Hst. revert H1 H2. generalize (f y st). clear st.
    induction l as [|x l IH]; intros s H1 H2; simpl; auto.
  - apply IH; auto.
Qed.

Lemma foldl_keep {A} (f : A → State → State) (P Q : State → Prop) l st :
  (∀ x s, P s → P (f x s)) →
  (∀ x s, P s → Q s → Q (f x s)) →
  P st → Q st → Q (foldl (λ s x, f x s) st l).
Proof.
  intros HP Hkeep. revert st.
  induction l as [|x l IH]; intros st H1 H2; simpl; auto.
Qed.

Lemma bind_nil {A B} (f : A → list B) (l : list A) :
  (∀ x, x ∈ l → f x = []) → l ≫= f = [].
Proof.
  induction l as [|a l IH]; intros H; [done|].
  rewrite bind_cons, H by left. apply IH. intros x Hx. apply H. by right.
Qed.

Lemma removeAllBorders_clears rw cl s :
  wf0 s → cellCleared rw cl (removeAllBorders rw cl s).
Proof.
  intros Hwf. destruct (removeAllBorders_post rw cl s Hwf) as (H1 & _ & H3).
  by split.
Qed.

Lemma removeAllBorders_keeps_cleared rw cl r c s :
  cellCleared rw cl s → cellCleared rw cl (removeAllBorders r c s).
Proof.
  intros [H1 H2]. split.
  - intros H. apply H1. apply elem_of_savedIds in H as (r' & Hr' & Hid).
    apply elem_of_savedIds. exists r'.
    destruct (removeAllBorders_heap r c s) as [Hh _]. rewrite Hh in Hid.
    split; [|done]. rewrite removeAllBorders_saved in Hr'.
    eapply elem_of_sublist; [done|apply spliceBorder_sublist].
  - unfold removeAllBorders. simpl.
    destruct (decide ((r, c) = (rw, cl))) as [->|Hne].
    + apply lookup_delete_eq.
    + rewrite lookup_delete_ne by done.
      destruct (clearSelections_frame (createId r c) (spliceBorder (createId r c) s))
        as (_ & _ & -> & _).
      by destruct (spliceBorder_frame (createId r c) s) as (_ & _ & -> & _).
Qed.

(** The 'noBorders' loop of [prepareBorder] over a rectangle clears every
    cell of the rectangle. *)
Lemma noBorders_clears r1 c1 r2 c2 st rw cl :
  wf0 st → r1 ≤ rw ≤ r2 → c1 ≤ cl ≤ c2 →
  cellCleared rw cl
    (rangeEach c1 c2 (λ colIndex,
       rangeEach r1 r2 (λ rowIndex, removeAllBorders rowIndex colIndex)) st).
Proof.
  intros Hwf Hr Hc. unfold rangeEach.
  apply (foldl_establish
           (λ c s, foldl (λ s r, removeAllBorders r c s) s (rangeIndices r1 r2))
           wf0 (cellCleared rw cl) _ cl).
  - by apply elem_of_rangeIndices.
  - intros c s Hs.
    apply (foldl_keep (λ r s, removeAllBorders r c s) wf0 wf0); auto;
      intros; by apply wf0_removeAllBorders.
  - intros s Hs.
    apply (foldl_establish (λ r s, removeAllBorders r cl s) wf0 _ _ rw).
    + by apply elem_of_rangeIndices.
    + intros; by apply wf0_removeAllBorders.
    + intros; by apply removeAllBorders_clears.
    + intros; by apply removeAllBorders_keeps_cleared.
    + done.
  - intros c s Hs Hq.
    apply (foldl_keep (λ r s, removeAllBorders r c s) wf0 _); auto.
    + intros; by apply wf0_removeAllBorders.
    + intros; by apply removeAllBorders_keeps_cleared.
  - done.
Qed.

Lemma prepareBorder_top_3x3 remove st :
  prepareBorder [((0, 0), (2, 2))] (PlaceEdge Top) remove st
  = setBorder 0 2 Top remove (setBorder 0 1 Top remove (setBorder 0 0 Top remove st)).
Proof. reflexivity. Qed.

Lemma prepareBorder_noBorders_3x3 remove st :
  prepareBorder [((0, 0), (2, 2))] NoBorders remove st
  = rangeEach 0 2 (λ colIndex,
      rangeEach 0 2 (λ rowIndex, removeAllBorders rowIndex colIndex)) st.
Proof. reflexivity. Qed.

Lemma setBorder_meta rw cl place (remove : bool) st :
  wf st →
  let b1 := setEdge place
              (if remove then createSingleEmptyBorder else createDefaultCustomBorder)
              (startBorder rw cl st) in
  metaRecord (setBorder rw cl place remove st) rw cl
  = if remove && allHidden b1 then None else Some b1.
Proof.
  intros Hwf b1.
  destruct (setBorder_spec rw cl place remove st Hwf) as (_ & _ & Hpost).
  fold b1 in Hpost. destruct (remove && allHidden b1); [by destruct Hpost|done].
Qed.

Lemma startBorder_ext rw cl st st' :
  metaRecord st' rw cl = metaRecord st rw cl →
  startBorder rw cl st' = startBorder rw cl st.
Proof. intros H. unfold startBorder. by rewrite H. Qed.

Lemma createId_not_in rw cl ids :
  Forall (λ k, (rw, cl) ≠ k) ids →
  createId rw cl ∉ (λ k : Z * Z, createId k.1 k.2) <$> ids.
Proof.
  intros Hall Hin. apply list_elem_of_fmap in Hin as ([r c] & Hid & Hk).
  apply createId_inj in Hid as [-> ->].
  rewrite Forall_forall in Hall. by apply (Hall _ Hk).
Qed.

(** C6. The context menu over the rectangle (0,0)-(2,2).  The 'top' item
    works on the cells (0,0), (0,1) and (0,2): each gets its border object
    with the top edge set (or, when the removal hides its last edge, loses
    its borders), and no other cell changes, neither its metadata nor its
    saved borders.  The 'noBorders' item removes the borders of all nine
    cells: afterwards no saved border has its coordinates in the
    rectangle, and no cell of the rectangle has ['borders'] metadata. *)

Lemma touches_mono1 x ids st st' :
  wf0 st → x ∈ ids → touches [x] st st' → touches ids st st'.
Proof.
  intros Hwf Hx. apply touches_mono; [done|].
  intros y Hy. by apply list_elem_of_singleton in Hy as ->.
Qed.

Lemma getBorders_single cell st : getBorders [cell] st = getBordersOne st cell.
Proof. unfold getBorders. rewrite bind_cons. apply app_nil_r. Qed.

Theorem menu_on_rectangle st (remove : bool) :
  reachable st →
  let top' := prepareBorder [((0, 0), (2, 2))] (PlaceEdge Top) remove st in
  let none' := prepareBorder [((0, 0), (2, 2))] NoBorders remove st in
  (∀ cl, 0 ≤ cl ≤ 2 →
     let b1 := setEdge Top
                 (if remove then createSingleEmptyBorder
                  else createDefaultCustomBorder)
                 (startBorder 0 cl st) in
     metaRecord top' 0 cl = if remove && allHidden b1 then None else Some b1)
  ∧ (∀ rw cl, ¬ (rw = 0 ∧ 0 ≤ cl ≤ 2) →
       metaRecord top' rw cl = metaRecord st rw cl
       ∧ heap top' <$> bordersAt top' rw cl = heap st <$> bordersAt st rw cl
       ∧ (createId rw cl ∈ liveSelectionIds top'
          ↔ createId rw cl ∈ liveSelectionIds st))
  ∧ getBorders [SelArray 0 0 2 2] none' = []
  ∧ (∀ rw cl, 0 ≤ rw ≤ 2 → 0 ≤ cl ≤ 2 → cellMeta none' !! (rw, cl) = None).
Proof.
  intros Hr top' none'. apply reachable_wf in Hr as Hwf.
  unfold top', none'. clear top' none'.
  rewrite prepareBorder_top_3x3, prepareBorder_noBorders_3x3.
  destruct (setBorder_spec 0 0 Top remove st Hwf) as (W1 & T1 & _).
  pose proof (setBorder_meta 0 0 Top remove st Hwf) as M1.
  set (s1 := setBorder 0 0 Top remove st) in *.
  destruct (setBorder_spec 0 1 Top remove s1 W1) as (W2 & T2 & _).
  pose proof (setBorder_meta 0 1 Top remove s1 W1) as M2.
  set (s2 := setBorder 0 1 Top remove s1) in *.
  destruct (setBorder_spec 0 2 Top remove s2 W2) as (W3 & T3 & _).
  pose proof (setBorder_meta 0 2 Top remove s2 W2) as M3.
  set (s3 := setBorder 0 2 Top remove s2) in *.
  assert (∀ rw cl ids, Forall (λ k, (rw, cl) ≠ k) ids →
            createId rw cl ∉ (λ k : Z * Z, createId k.1 k.2) <$> ids) as Hni
    by apply createId_not_in.
  split_and!.
  - intros cl Hcl.
    assert (cl = 0 ∨ cl = 1 ∨ cl = 2) as [-> | [-> | ->]] by lia; cbv zeta.
    + rewrite (touches_metaRecord _ s2 s3 0 0 (proj1 W2) T3)
        by (apply (Hni 0 0 [(0, 2)]); repeat constructor; congruence).
      rewrite (touches_metaRecord _ s1 s2 0 0 (proj1 W1) T2)
        by (apply (Hni 0 0 [(0, 1)]); repeat constructor; congruence).
      exact M1.
    + rewrite (touches_metaRecord _ s2 s3 0 1 (proj1 W2) T3)
        by (apply (Hni 0 1 [(0, 2)]); repeat constructor; congruence).
      rewrite M2. cbv zeta.
      rewrite (startBorder_ext 0 1 st s1); [done|].
      apply (touches_metaRecord _ st s1 0 1 (proj1 Hwf) T1).
      apply (Hni 0 1 [(0, 0)]); repeat constructor; congruence.
    + rewrite M3. cbv zeta.
      rewrite (startBorder_ext 0 2 st s2); [done|].
      rewrite (touches_metaRecord _ s1 s2 0 2 (proj1 W1) T2)
        by (apply (Hni 0 2 [(0, 1)]); repeat constructor; congruence).
      apply (touches_metaRecord _ st s1 0 2 (proj1 Hwf) T1).
      apply (Hni 0 2 [(0, 0)]); repeat constructor; congruence.
  - intros rw cl Hout.
    assert (createId rw cl ∉ [createId 0 0; createId 0 1; createId 0 2]) as Hx.
    { apply (Hni rw cl [(0, 0); (0, 1); (0, 2)]).
      repeat constructor; intros [= H1 H2]; apply Hout; lia. }
    assert (touches [createId 0 0; createId 0 1; createId 0 2] st s3) as T.
    { eapply touches_trans;
        [eapply touches_mono1; [apply Hwf| |exact T1]; left|].
      eapply touches_trans;
        [eapply touches_mono1; [apply W1| |exact T2]; right; left|].
      eapply touches_mono1; [apply W2| |exact T3]. right. right. left. }
    split_and!.
    + by apply (touches_metaRecord _ st s3 rw cl (proj1 Hwf) T).
    + by apply (touches_bordersAt _ st s3 rw cl (proj1 Hwf) (proj1 W3) T).
    + by apply (t_live _ _ _ T).
  - rewrite getBorders_single. unfold getBordersOne.
    rewrite decide_False by (intros [? ?]; lia).
    unfold bordersIn. apply bind_nil. intros rw Hrw.
    apply bind_nil. intros cl Hcl.
    apply elem_of_rangeIndices in Hrw, Hcl.
    destruct (noBorders_clears 0 0 2 2 st rw cl (proj1 Hwf) Hrw Hcl) as [Hs _].
    apply bordersAt_nil; [|done].
    apply (rangeEach_cols_spec removeAllBorders 0 0 2 2 st); [|done].
    intros r c s. apply removeAllBorders_spec.
  - intros rw cl Hrw Hcl.
    by destruct (noBorders_clears 0 0 2 2 st rw cl (proj1 Hwf) Hrw Hcl) as [_ Hm].
Qed.

Lemma menu_on_rectangle_witness :
  let st := setBorders [SelArray 1 1 1 1] (Some onlyTop) init in
  let top' := prepareBorder [((0, 0), (2, 2))] (PlaceEdge Top) false st in
  let none' := prepareBorder [((0, 0), (2, 2))] NoBorders false st in
  (∀ cl, 0 ≤ cl ≤ 2 →
     let b1 := setEdge Top createDefaultCustomBorder (startBorder 0 cl st) in
     metaRecord top' 0 cl = Some b1)
  ∧ (∀ rw cl, ¬ (rw = 0 ∧ 0 ≤ cl ≤ 2) →
       metaRecord top' rw cl = metaRecord st rw cl
       ∧ heap top' <$> bordersAt top' rw cl = heap st <$> bordersAt st rw cl
       ∧ (createId rw cl ∈ liveSelectionIds top'
          ↔ createId rw cl ∈ liveSelectionIds st))
  ∧ getBorders [SelArray 0 0 2 2] none' = []
  ∧ (∀ rw cl, 0 ≤ rw ≤ 2 → 0 ≤ cl ≤ 2 → cellMeta none' !! (rw, cl) = None).
Proof.
  apply (menu_on_rectangle
           (setBorders [SelArray 1 1 1 1] (Some onlyTop) init) false).
  eapply reachable_step with (op := OpSetBorders [SelArray 1 1 1 1] (Some onlyTop));
    [apply reachable_init|reflexivity].
Defined.

(** ** What [prepareBorderFromCustomAddedRange] builds for a cell *)

Lemma rangeEdgeBlock_eq cond e d rw cl b add st :
  rangeEdgeBlock cond e d rw cl b (add, st)
  = (if cond then S add else add, rawBlock cond e d rw cl b st).
Proof.
  unfold rangeEdgeBlock, rawBlock. destruct cond; [|done].
  rewrite Nat.add_1_r. by destruct (ownEdge e d).
Qed.

Lemma rawBlock_spec cond e d rw cl b st :
  cellInv rw cl b st →
  cellInv rw cl b (rawBlock cond e d rw cl b st)
  ∧ heap (rawBlock cond e d rw cl b st) b = rawEdge cond e d (heap st b).
Proof.
  intros Hinv.
  destruct (rangeEdgeBlock_spec cond e d rw cl b 0%nat st Hinv) as [H _].
  rewrite rangeEdgeBlock_eq in H. split; [done|].
  unfold rawBlock, rawEdge. destruct cond; [|done].
  destruct (ownEdge e d); [|done]. simpl. by rewrite fn_lookup_insert.
Qed.

Lemma rangeCell_eq range d rw cl st :
  let b := next st in
  let st0 := (alloc (createEmptyBorders rw cl) st).2 in
  let st4 :=
    rawBlock (bool_decide (cl = (to range).2)) Right d rw cl b
      (rawBlock (bool_decide (cl = (from range).2)) Left d rw cl b
         (rawBlock (bool_decide (rw = (to range).1)) Bottom d rw cl b
            (rawBlock (bool_decide (rw = (from range).1)) Top d rw cl b st0))) in
  rangeCell range d rw cl st
  = if onBoundary range rw cl then insertBorderIntoSettings b st4 else st0.
Proof.
  intros b st0 st4. unfold rangeCell, onBoundary.
  change (alloc (createEmptyBorders rw cl) st) with (b, st0). cbv beta iota.
  rewrite !rangeEdgeBlock_eq. unfold st4.
  destruct (bool_decide (rw = (from range).1)),
    (bool_decide (rw = (to range).1)), (bool_decide (cl = (from range).2)),
    (bool_decide (cl = (to range).2)); reflexivity.
Qed.

Lemma filter_unique st r x :
  wf0 st → r ∈ savedBorders st → id (heap st r) = x →
  filter (λ r', id (heap st r') = x) (savedBorders st) = [r].
Proof.
  intros Hwf. pose proof (wf_saved_nodup _ Hwf) as Hnd. unfold savedIds in Hnd.
  induction (savedBorders st) as [|a l IH]; intros Hr Hx.
  - by apply elem_of_nil in Hr.
  - rewrite fmap_cons in Hnd. apply NoDup_cons in Hnd as [Ha Hnd].
    destruct (decide (id (heap st a) = x)) as [Hax|Hax].
    + rewrite filter_cons_True by done.
      assert (r = a) as ->.
      { apply elem_of_cons in Hr as [->|Hr]; [done|]. exfalso. apply Ha.
        rewrite Hax, <- Hx. by apply (list_elem_of_fmap_2 (λ r, id (heap st r))). }
      f_equal. apply filter_none. intros y Hy Hyx. apply Ha.
      rewrite Hax, <- Hyx. by apply (list_elem_of_fmap_2 (λ r, id (heap st r))).
    + rewrite filter_cons_False by done. apply IH; [done| |done].
      apply elem_of_cons in Hr as [->|Hr]; [by subst|done].
Qed.

(** On the boundary of the range the cell gets a saved border with the
    edges of the descriptor as supplied, unless all four are hidden; off
    the boundary nothing changes but an object nobody holds. *)
Lemma rangeCell_post range d rw cl st :
  wf st →
  let st' := rangeCell range d rw cl st in
  let raw := rawBorder range d rw cl in
  if onBoundary range rw cl then
    heap st' <$> bordersAt st' rw cl = (if allHidden raw then [] else [raw])
    ∧ createId rw cl ∈ liveSelectionIds st'
  else touches [] st st'.
Proof.
  intros Hwf st' raw. unfold st'. rewrite rangeCell_eq.
  destruct (rangeCell_spec range d rw cl st Hwf) as [Hwf' _].
  rewrite rangeCell_eq in Hwf'.
  set (b := next st) in *.
  set (st0 := (alloc (createEmptyBorders rw cl) st).2) in *.
  destruct (onBoundary range rw cl); [|by apply touches_alloc, Hwf].
  assert (cellInv rw cl b st0) as H0.
  { split_and!.
    - split; [apply wf0_alloc; [apply Hwf|done]|apply visible_alloc; apply Hwf].
    - unfold b, st0. simpl. lia.
    - unfold b, st0. by rewrite alloc_same.
    - intros H. apply (wf_saved_valid _ (proj1 Hwf)) in H. unfold b in H. lia. }
  assert (heap st0 b = createEmptyBorders rw cl) as C0 by apply alloc_same.
  destruct (rawBlock_spec (bool_decide (rw = (from range).1)) Top d rw cl b st0 H0)
    as [H1 C1].
  set (st1 := rawBlock _ Top d rw cl b st0) in *.
  destruct (rawBlock_spec (bool_decide (rw = (to range).1)) Bottom d rw cl b st1 H1)
    as [H2 C2].
  set (st2 := rawBlock _ Bottom d rw cl b st1) in *.
  destruct (rawBlock_spec (bool_decide (cl = (from range).2)) Left d rw cl b st2 H2)
    as [H3 C3].
  set (st3 := rawBlock _ Left d rw cl b st2) in *.
  destruct (rawBlock_spec (bool_decide (cl = (to range).2)) Right d rw cl b st3 H3)
    as [H4 C4].
  set (st4 := rawBlock _ Right d rw cl b st3) in *.
  assert (heap st4 b = raw) as Hraw.
  { rewrite C4, C3, C2, C1, C0. done. }
  destruct H4 as ([Hwf4 Hv4] & Hb4 & Hk4 & _).
  assert (id (heap st4 b) = createId rw cl) as Hid.
  { unfold keyOf in Hk4. by injection Hk4. }
  set (st5 := insertBorderIntoSettings b st4) in *.
  assert (heap st5 b = raw) as Hraw5 by (unfold st5; by rewrite insert_heap).
  split.
  - destruct (allHidden raw) eqn:E.
    + rewrite bordersAt_nil; [done|apply Hwf'|].
      rewrite <- Hid. intros Hin.
      apply (insert_saved_id b st4 Hwf4 Hb4) in Hin. congruence.
    + rewrite bordersAt_by_id by apply Hwf'.
      rewrite (filter_unique st5 b); [simpl; by rewrite Hraw5|apply Hwf'| |].
      * unfold st5. rewrite insert_saved.
        apply insertSaved_visible_in. by rewrite Hraw.
      * rewrite <- Hid. apply keyOf_id. by apply insert_keys.
  - rewrite <- Hid. by apply insert_live.
Qed.

(** ** Zero-area selections *)

Lemma rangeIndices_single a : rangeIndices a a = [a].
Proof.
  unfold rangeIndices. replace (a - a + 1) with 1 by lia. done.
Qed.

Lemma setBorders_handle_point rw cl borderObject st :
  let cell := {| from := (rw, cl); to := (rw, cl) |} in
  setBorders [SelRange cell] borderObject st
  = rangeCell cell
      (match borderObject with Some o => o | None => noEdges end)
      rw cl (removeAllBorders rw cl st).
Proof.
  intros cell. unfold setBorders, arrayEach, setBordersOne,
    prepareBorderFromCustomAddedRange, getTopLeftCorner, getBottomRightCorner,
    rangeEach.
  cbn [foldl from to cell fst snd rowRange rowEdges].
  rewrite !Z.min_id, !Z.max_id, !rangeIndices_single. done.
Qed.

Lemma getBorders_handle_point rw cl st :
  getBorders [SelRange {| from := (rw, cl); to := (rw, cl) |}] st
  = bordersAt st rw cl.
Proof.
  rewrite getBorders_single.
  unfold getBordersOne, getTopLeftCorner, getBottomRightCorner, bordersIn.
  cbn [from to fst snd].
  rewrite !Z.min_id, !Z.max_id, !rangeIndices_single.
  rewrite !bind_cons. cbn [mbind list_bind]. by rewrite !app_nil_r.
Qed.

(** The record of the range path for a zero-area range: every own edge
    of the object is copied as it is. *)
Lemma rawBorder_point rw cl o e :
  getEdge e (rawBorder {| from := (rw, cl); to := (rw, cl) |} o rw cl)
  = match ownEdge e o with
    | Some v => v
    | None => createSingleEmptyBorder
    end.
Proof.
  unfold rawBorder, rawEdge. cbn [from to fst snd].
  rewrite !bool_decide_eq_true_2 by done.
  destruct o as [t r b l]. destruct e; cbn [ownEdge bo_top bo_right bo_bottom bo_left];
    destruct t, r, b, l; reflexivity.
Qed.

Lemma extendDefaultBorder_edge rw cl o e :
  getEdge e (extendDefaultBorder (createEmptyBorders rw cl) (Some o))
  = match ownEdge e o with
    | Some v => mergeOverDefault v
    | None => createSingleEmptyBorder
    end.
Proof.
  unfold extendDefaultBorder, extendEdge.
  destruct o as [t r b l]. destruct e; cbn [ownEdge bo_top bo_right bo_bottom bo_left];
    destruct t, r, b, l; reflexivity.
Qed.

(** Counterexample to C4: for the zero-area range object from
    (0,0) to (0,0) and [{top: {width: 2}}] the saved border is not the one
    of the point case, which merges the edge over the default custom
    border. *)
Lemma zero_area_handle_not_merged :
  let handle := setBorders [SelRange {| from := (0, 0); to := (0, 0) |}]
                  (Some wideTop) init in
  let point := setBorders [SelArray 0 0 0 0] (Some wideTop) init in
  savedRecords point = [extendDefaultBorder (createEmptyBorders 0 0) (Some wideTop)]
  ∧ savedRecords handle ≠ [extendDefaultBorder (createEmptyBorders 0 0) (Some wideTop)]
  ∧ savedRecords handle ≠ savedRecords point.
Proof.
  split_and!; [by vm_compute|vm_compute; discriminate..].
Qed.

(** C4, amended.  A zero-area selection supplied as a coordinate array is
    the point case: the borders of the cell are removed and one record,
    built by merging the partial edge styles over the default custom
    border, is applied.  Supplied as a range object it goes through the
    range path: the borders of the cell are removed and the record takes
    the edges of the border object as they are supplied, without the merge
    over the default custom border; the two records agree on which edges
    are hidden. *)
Theorem zero_area_selection st rw cl o :
  reachable st →
  let cell := {| from := (rw, cl); to := (rw, cl) |} in
  let point := setBorders [SelArray rw cl rw cl] (Some o) st in
  let handle := setBorders [SelRange cell] (Some o) st in
  let merged := extendDefaultBorder (createEmptyBorders rw cl) (Some o) in
  let raw := rawBorder cell o rw cl in
  point = prepareBorderFromCustomAdded rw cl (Some o) (removeAllBorders rw cl st)
  ∧ heap point <$> getBorders [SelArray rw cl rw cl] point
    = (if allHidden merged then [] else [merged])
  ∧ heap handle <$> getBorders [SelRange cell] handle
    = (if allHidden raw then [] else [raw])
  ∧ (∀ e, getEdge e merged = match ownEdge e o with
                             | Some v => mergeOverDefault v
                             | None => createSingleEmptyBorder
                             end)
  ∧ (∀ e, getEdge e raw = match ownEdge e o with
                          | Some v => v
                          | None => createSingleEmptyBorder
                          end)
  ∧ (∀ e, edgeHidden (getEdge e raw) = edgeHidden (getEdge e merged)).
Proof.
  intros Hr cell point handle merged raw. apply reachable_wf in Hr as Hwf.
  split_and!.
  - apply setBorders_point.
  - unfold point. rewrite getBorders_point.
    by destruct (setBorders_point_post rw cl (Some o) st Hwf) as (_ & _ & _ & _ & H).
  - unfold handle, cell. rewrite getBorders_handle_point, setBorders_handle_point.
    destruct (removeAllBorders_spec rw cl st Hwf) as [Hwf1 _].
    pose proof (rangeCell_post {| from := (rw, cl); to := (rw, cl) |} o rw cl
                  (removeAllBorders rw cl st) Hwf1) as Hpost.
    unfold onBoundary in Hpost. cbn [from to fst snd] in Hpost.
    rewrite !bool_decide_eq_true_2 in Hpost by done. by destruct Hpost.
  - intros e. apply extendDefaultBorder_edge.
  - intros e. apply rawBorder_point.
  - intros e. unfold raw, merged, cell.
    rewrite rawBorder_point, extendDefaultBorder_edge.
    destruct (ownEdge e o); [by rewrite edgeHidden_mergeOverDefault|done].
Qed.

Lemma zero_area_selection_witness :
  let cell := {| from := (0, 0); to := (0, 0) |} in
  let point := setBorders [SelArray 0 0 0 0] (Some wideTop) init in
  let handle := setBorders [SelRange cell] (Some wideTop) init in
  let merged := extendDefaultBorder (createEmptyBorders 0 0) (Some wideTop) in
  let raw := rawBorder cell wideTop 0 0 in
  point = prepareBorderFromCustomAdded 0 0 (Some wideTop) (removeAllBorders 0 0 init)
  ∧ heap point <$> getBorders [SelArray 0 0 0 0] point
    = (if allHidden merged then [] else [merged])
  ∧ heap handle <$> getBorders [SelRange cell] handle
    = (if allHidden raw then [] else [raw])
  ∧ (∀ e, getEdge e merged = match ownEdge e wideTop with
                             | Some v => mergeOverDefault v
                             | None => createSingleEmptyBorder
                             end)
  ∧ (∀ e, getEdge e raw = match ownEdge e wideTop with
                          | Some v => v
                          | None => createSingleEmptyBorder
                          end)
  ∧ (∀ e, edgeHidden (getEdge e raw) = edgeHidden (getEdge e merged)).
Proof. apply (zero_area_selection init 0 0 wideTop). apply reachable_init. Defined.

(** ** [setBorders] and [getBorders] on one cell, both forms *)

(** C5, amended.  For a single cell given as a coordinate array
    [[row, col, row, col]] and an edge specification,
    [setBorders([cell], spec)] followed by [getBorders([cell])] returns
    exactly one record, whose edges are those of [spec] merged over the
    defaults (an edge that [spec] does not mention is the default empty
    border), when the merged record has an edge that is not hidden; when
    all four edges of the merged record are hidden (as for an empty
    [spec]) it returns no record.  For a single cell given as a range
    object with [from = to] the same holds of the record that has the
    edges of [spec] as they are supplied, not merged over the defaults. *)
Theorem setBorders_getBorders_roundtrip st rw cl spec :
  reachable st →
  let b := extendDefaultBorder (createEmptyBorders rw cl) (Some spec) in
  let cell := {| from := (rw, cl); to := (rw, cl) |} in
  let raw := rawBorder cell spec rw cl in
  (let st' := setBorders [SelArray rw cl rw cl] (Some spec) st in
   heap st' <$> getBorders [SelArray rw cl rw cl] st'
   = if allHidden b then [] else [b])
  ∧ (∀ e, getEdge e b = match ownEdge e spec with
                        | Some v => mergeOverDefault v
                        | None => createSingleEmptyBorder
                        end)
  ∧ (let st' := setBorders [SelRange cell] (Some spec) st in
     heap st' <$> getBorders [SelRange cell] st'
     = if allHidden raw then [] else [raw])
  ∧ (∀ e, getEdge e raw = match ownEdge e spec with
                          | Some v => v
                          | None => createSingleEmptyBorder
                          end).
Proof.
  intros Hr b cell raw. apply reachable_wf in Hr as Hwf. split_and!.
  - cbv zeta. rewrite getBorders_point.
    by destruct (setBorders_point_post rw cl (Some spec) st Hwf)
      as (_ & _ & _ & _ & H).
  - intros e. apply extendDefaultBorder_edge.
  - cbv zeta. unfold cell.
    rewrite getBorders_handle_point, setBorders_handle_point.
    destruct (removeAllBorders_spec rw cl st Hwf) as [Hwf1 _].
    pose proof (rangeCell_post {| from := (rw, cl); to := (rw, cl) |} spec rw cl
                  (removeAllBorders rw cl st) Hwf1) as Hpost.
    unfold onBoundary in Hpost. cbn [from to fst snd] in Hpost.
    rewrite !bool_decide_eq_true_2 in Hpost by done. by destruct Hpost.
  - intros e. apply rawBorder_point.
Qed.

Lemma setBorders_getBorders_roundtrip_witness :
  let st := setBorders [SelArray 2 3 2 3] (Some topAndLeft) init in
  let b := extendDefaultBorder (createEmptyBorders 2 3) (Some wideTop) in
  let cell := {| from := (2, 3); to := (2, 3) |} in
  let raw := rawBorder cell wideTop 2 3 in
  (let st' := setBorders [SelArray 2 3 2 3] (Some wideTop) st in
   heap st' <$> getBorders [SelArray 2 3 2 3] st'
   = if allHidden b then [] else [b])
  ∧ (∀ e, getEdge e b = match ownEdge e wideTop with
                        | Some v => mergeOverDefault v
                        | None => createSingleEmptyBorder
                        end)
  ∧ (let st' := setBorders [SelRange cell] (Some wideTop) st in
     heap st' <$> getBorders [SelRange cell] st'
     = if allHidden raw then [] else [raw])
  ∧ (∀ e, getEdge e raw = match ownEdge e wideTop with
                          | Some v => v
                          | None => createSingleEmptyBorder
                          end).
Proof.
  apply (setBorders_getBorders_roundtrip
           (setBorders [SelArray 2 3 2 3] (Some topAndLeft) init) 2 3 wideTop).
  eapply reachable_step with (op := OpSetBorders _ _);
    [apply reachable_init|reflexivity].
Defined.

(** ** Declarative borders over a range *)

(** The loop of [prepareBorderFromCustomAddedRange] over a list of cells. *)
Lemma rangeCells_spec range d (l : list (Z * Z)) st :
  wf st →
  let st' := foldl (λ s k, rangeCell range d k.1 k.2 s) st l in
  wf st' ∧ touches ((λ k, createId k.1 k.2) <$> l) st st'.
Proof.
  intros Hwf.
  apply (foldl_touches (λ k s, rangeCell range d k.1 k.2 s)); [|done].
  intros k s Hk Hs. destruct (rangeCell_spec range d k.1 k.2 s Hs) as [H1 H2].
  split; [done|]. eapply touches_mono1; [apply Hs| |done].
  by apply (list_elem_of_fmap_2 (λ k : Z * Z, createId k.1 k.2)).
Qed.

(** A cell on the boundary that the loop visits once. *)
Lemma rangeCells_target range d l1 rw cl l2 st :
  wf st → Forall (λ k, (rw, cl) ≠ k) l2 → onBoundary range rw cl = true →
  let st' := foldl (λ s k, rangeCell range d k.1 k.2 s) st (l1 ++ (rw, cl) :: l2) in
  let raw := rawBorder range d rw cl in
  heap st' <$> bordersAt st' rw cl = if allHidden raw then [] else [raw].
Proof.
  intros Hwf Hl2 Hon st' raw. unfold st'. rewrite foldl_app. cbn [foldl fst snd].
  destruct (rangeCells_spec range d l1 st Hwf) as [W1 _].
  set (s1 := foldl _ st l1) in *.
  pose proof (rangeCell_post range d rw cl s1 W1) as Hpost.
  rewrite Hon in Hpost. destruct Hpost as [Hpost _].
  destruct (rangeCell_spec range d rw cl s1 W1) as [W2 _].
  set (s2 := rangeCell range d rw cl s1) in *.
  destruct (rangeCells_spec range d l2 s2 W2) as [W3 T3].
  destruct (touches_bordersAt _ s2 _ rw cl (proj1 W2) (proj1 W3) T3) as [_ ->];
    [|done].
  by apply createId_not_in.
Qed.

(** A cell off the boundary. *)
Lemma rangeCells_untouched range d l1 rw cl l2 st :
  wf st → Forall (λ k, (rw, cl) ≠ k) (l1 ++ l2) → onBoundary range rw cl = false →
  let st' := foldl (λ s k, rangeCell range d k.1 k.2 s) st (l1 ++ (rw, cl) :: l2) in
  bordersAt st' rw cl = bordersAt st rw cl
  ∧ heap st' <$> bordersAt st' rw cl = heap st <$> bordersAt st rw cl
  ∧ metaRecord st' rw cl = metaRecord st rw cl.
Proof.
  intros Hwf Hl Hoff st'.
  set (ids := (λ k : Z * Z, createId k.1 k.2) <$> (l1 ++ l2)).
  assert (createId rw cl ∉ ids) as Hx by by apply createId_not_in.
  assert (wf st' ∧ touches ids st st') as [W T].
  { unfold st'. rewrite foldl_app. cbn [foldl fst snd].
    destruct (rangeCells_spec range d l1 st Hwf) as [W1 T1].
    set (s1 := foldl _ st l1) in *.
    pose proof (rangeCell_post range d rw cl s1 W1) as T2.
    rewrite Hoff in T2.
    destruct (rangeCell_spec range d rw cl s1 W1) as [W2 _].
    set (s2 := rangeCell range d rw cl s1) in *.
    destruct (rangeCells_spec range d l2 s2 W2) as [W3 T3].
    split; [done|].
    eapply touches_trans.
    { eapply touches_mono; [apply Hwf| |exact T1]. unfold ids.
      rewrite fmap_app. intros x Hin. apply elem_of_app. by left. }
    eapply touches_trans.
    { eapply touches_mono; [apply W1| |exact T2].
      intros x Hin. by apply elem_of_nil in Hin. }
    eapply touches_mono; [apply W2| |exact T3]. unfold ids.
    rewrite fmap_app. intros x Hin. apply elem_of_app. by right. }
  destruct (touches_bordersAt ids st st' rw cl (proj1 Hwf) (proj1 W) T Hx)
    as [H1 H2].
  split_and!; [done..|].
  by apply (touches_metaRecord ids st st' rw cl (proj1 Hwf) T).
Qed.

Lemma createCustomBorders_3x3 d st :
  createCustomBorders [CustomRange {| from := (0, 0); to := (2, 2) |} d] st
  = foldl (λ s k, rangeCell {| from := (0, 0); to := (2, 2) |} d k.1 k.2 s) st
      [(0, 0); (0, 1); (0, 2); (1, 0); (1, 1); (1, 2); (2, 0); (2, 1); (2, 2)].
Proof. reflexivity. Qed.

(** C7. The declarative application of [{top: {}, left: {}}] over the
    range (0,0)-(2,2) leaves a saved border for (0,0) whose top and left
    edges are visible, one for (0,1) with only the top edge visible, one
    for (1,0) with only the left edge visible, and leaves the interior
    cell (1,1) as it was: no saved border when there was none. *)
Theorem corner_double_edge st :
  reachable st →
  let st' := createCustomBorders
               [CustomRange {| from := (0, 0); to := (2, 2) |} topAndLeft] st in
  heap st' <$> getBorders [SelArray 0 0 0 0] st'
  = [setEdge Left emptyObject (setEdge Top emptyObject (createEmptyBorders 0 0))]
  ∧ heap st' <$> getBorders [SelArray 0 1 0 1] st'
    = [setEdge Top emptyObject (createEmptyBorders 0 1)]
  ∧ heap st' <$> getBorders [SelArray 1 0 1 0] st'
    = [setEdge Left emptyObject (createEmptyBorders 1 0)]
  ∧ hiddenFlags <$> (heap st' <$> getBorders [SelArray 0 0 0 0] st')
    = [(false, true, true, false)]
  ∧ hiddenFlags <$> (heap st' <$> getBorders [SelArray 0 1 0 1] st')
    = [(false, true, true, true)]
  ∧ hiddenFlags <$> (heap st' <$> getBorders [SelArray 1 0 1 0] st')
    = [(true, true, true, false)]
  ∧ getBorders [SelArray 1 1 1 1] st' = getBorders [SelArray 1 1 1 1] st
  ∧ metaRecord st' 1 1 = metaRecord st 1 1.
Proof.
  intros Hr st'. apply reachable_wf in Hr as Hwf.
  unfold st'. rewrite createCustomBorders_3x3, !getBorders_point.
  set (range := {| from := (0, 0); to := (2, 2) |}).
  assert (Forall (λ k, (0, 0) ≠ k)
            [(0, 1); (0, 2); (1, 0); (1, 1); (1, 2); (2, 0); (2, 1); (2, 2)])
    as F00 by (repeat constructor; discriminate).
  assert (Forall (λ k, (0, 1) ≠ k)
            [(0, 2); (1, 0); (1, 1); (1, 2); (2, 0); (2, 1); (2, 2)])
    as F01 by (repeat constructor; discriminate).
  assert (Forall (λ k, (1, 0) ≠ k) [(1, 1); (1, 2); (2, 0); (2, 1); (2, 2)])
    as F10 by (repeat constructor; discriminate).
  assert (Forall (λ k, (1, 1) ≠ k)
            ([(0, 0); (0, 1); (0, 2); (1, 0)] ++ [(1, 2); (2, 0); (2, 1); (2, 2)]))
    as F11 by (repeat constructor; discriminate).
  pose proof (rangeCells_target range topAndLeft [] 0 0 _ st Hwf F00 eq_refl)
    as H00.
  pose proof (rangeCells_target range topAndLeft [(0, 0)] 0 1 _ st Hwf F01 eq_refl)
    as H01.
  pose proof (rangeCells_target range topAndLeft [(0, 0); (0, 1); (0, 2)] 1 0 _
                st Hwf F10 eq_refl) as H10.
  destruct (rangeCells_untouched range topAndLeft [(0, 0); (0, 1); (0, 2); (1, 0)]
              1 1 [(1, 2); (2, 0); (2, 1); (2, 2)] st Hwf F11 eq_refl)
    as (H11 & _ & M11).
  cbv zeta in H00, H01, H10.
  split_and!.
  - exact H00.
  - exact H01.
  - exact H10.
  - etransitivity; [exact (f_equal (fmap hiddenFlags) H00)|reflexivity].
  - etransitivity; [exact (f_equal (fmap hiddenFlags) H01)|reflexivity].
  - etransitivity; [exact (f_equal (fmap hiddenFlags) H10)|reflexivity].
  - exact H11.
  - exact M11.
Qed.

Lemma corner_double_edge_witness :
  let st' := createCustomBorders
               [CustomRange {| from := (0, 0); to := (2, 2) |} topAndLeft] init in
  heap st' <$> getBorders [SelArray 0 0 0 0] st'
  = [setEdge Left emptyObject (setEdge Top emptyObject (createEmptyBorders 0 0))]
  ∧ heap st' <$> getBorders [SelArray 0 1 0 1] st'
    = [setEdge Top emptyObject (createEmptyBorders 0 1)]
  ∧ heap st' <$> getBorders [SelArray 1 0 1 0] st'
    = [setEdge Left emptyObject (createEmptyBorders 1 0)]
  ∧ hiddenFlags <$> (heap st' <$> getBorders [SelArray 0 0 0 0] st')
    = [(false, true, true, false)]
  ∧ hiddenFlags <$> (heap st' <$> getBorders [SelArray 0 1 0 1] st')
    = [(false, true, true, true)]
  ∧ hiddenFlags <$> (heap st' <$> getBorders [SelArray 1 0 1 0] st')
    = [(true, true, true, false)]
  ∧ getBorders [SelArray 1 1 1 1] st' = []
  ∧ metaRecord st' 1 1 = None.
Proof.
  destruct (corner_double_edge init reachable_init)
    as (H1 & H2 & H3 & H4 & H5 & H6 & H7 & H8).
  split_and!; [exact H1|exact H2|exact H3|exact H4|exact H5|exact H6|exact H7
              |exact H8].
Defined.

(** ** Saved borders applied again *)

Lemma reapply_edge b e :
  getEdge e (reapply b) = mergeOverDefault (getEdge e b).
Proof. by destruct e. Qed.

Lemma allHidden_reapply b : allHidden (reapply b) = allHidden b.
Proof.
  unfold allHidden.
  change (top (reapply b)) with (getEdge Top (reapply b)).
  change (right (reapply b)) with (getEdge Right (reapply b)).
  change (bottom (reapply b)) with (getEdge Bottom (reapply b)).
  change (left (reapply b)) with (getEdge Left (reapply b)).
  by rewrite !reapply_edge, !edgeHidden_mergeOverDefault.
Qed.

Lemma reapplied_touches ids b s s' :
  wf0 s → wf0 s' → touches ids s s' →
  id b = createId (row b) (col b) → id b ∉ ids →
  reapplied b s → reapplied b s'.
Proof.
  intros Hwf Hwf' Ht Hid Hx (H1 & H2 & H3).
  assert (id (reapply b) = id b) as Hid' by by rewrite Hid.
  split_and!.
  - apply list_elem_of_fmap in H1 as (r & Hr & Hin).
    assert (r ∈ filter (λ r, id (heap s r) = id b) (savedBorders s)) as Hf.
    { apply list_elem_of_filter. split; [|done]. by rewrite <- Hr. }
    rewrite <- (touches_saved_filter ids s s' (id b) Hwf Hwf' Ht Hx) in Hf.
    apply list_elem_of_filter in Hf as [_ Hin'].
    apply list_elem_of_fmap. exists r. split; [|done].
    rewrite Hr. symmetry. apply (t_heap _ _ _ Ht).
    + by apply (wf_saved_valid _ Hwf).
    + by rewrite <- Hr, Hid'.
  - rewrite <- H2. apply (touches_metaRecord ids s s' _ _ Hwf Ht).
    by rewrite <- Hid.
  - by apply (t_live _ _ _ Ht).
Qed.

(** One step of the loop over the saved borders. *)
Lemma reapply_step i r s :
  wf s → savedBorders s !! i = Some r →
  let b := heap s r in
  let s' := prepareBorderFromCustomAdded (row b) (col b)
              (Some (recordAsDescriptor b)) s in
  wf s' ∧ touches [id b] s s'
  ∧ savedBorders s' = <[i := next s]> (savedBorders s)
  ∧ reapplied b s'.
Proof.
  intros Hwf Hi b s'.
  assert (r ∈ savedBorders s) as Hr by by eapply list_elem_of_lookup_2.
  assert (id b = createId (row b) (col b)) as Hid by apply Hwf.
  assert (allHidden (reapply b) = false) as Hvis.
  { rewrite allHidden_reapply. by apply Hwf. }
  destruct (prepareBorderFromCustomAdded_spec (row b) (col b)
              (Some (recordAsDescriptor b)) s Hwf)
    as (W & T & Hm & Hh & _ & _ & Hl).
  destruct (prepareBorderFromCustomAdded_saved (row b) (col b)
              (Some (recordAsDescriptor b)) s Hwf)
    as (_ & _ & Hrep).
  specialize (Hrep Hvis i r Hi Hid).
  fold s' in W, T, Hm, Hh, Hl, Hrep. rewrite <- Hid in T, Hl.
  split_and!; try done.
  split_and!; [|by unfold metaRecord; rewrite Hm; simpl; rewrite Hh|done].
  apply list_elem_of_fmap. exists (next s). split; [done|].
  rewrite Hrep. apply list_elem_of_lookup. exists i.
  apply list_lookup_insert_eq. by eapply lookup_lt_Some.
Qed.

Lemma createSavedBordersFrom_spec count :
  ∀ i s, wf s → length (savedBorders s) = (i + count)%nat →
  ∃ s', createSavedBordersFrom i count s = Some s' ∧ wf s'
    ∧ touches ((λ r, id (heap s r)) <$> drop i (savedBorders s)) s s'
    ∧ ∀ r, r ∈ drop i (savedBorders s) → reapplied (heap s r) s'.
Proof.
  induction count as [|count IH]; intros i s Hwf Hlen.
  - exists s. rewrite drop_ge by lia.
    split_and!; [done|done|apply touches_refl|].
    intros r Hr. by apply elem_of_nil in Hr.
  - simpl. destruct (savedBorders s !! i) as [r|] eqn:Hi.
    2:{ apply lookup_ge_None in Hi. lia. }
    destruct (reapply_step i r s Hwf Hi) as (W1 & T1 & Hs1 & R1).
    set (b := heap s r) in *.
    set (s1 := prepareBorderFromCustomAdded (row b) (col b)
                 (Some (recordAsDescriptor b)) s) in *.
    destruct (IH (S i) s1 W1) as (s' & Hrun & W' & T' & R').
    { rewrite Hs1, length_insert. lia. }
    rewrite Hs1, drop_insert_lt in T', R' by lia.
    pose proof (wf_saved_nodup _ (proj1 Hwf)) as Hnd. unfold savedIds in Hnd.
    rewrite <- (take_drop_middle _ _ _ Hi), fmap_app, fmap_cons in Hnd.
    apply NoDup_app in Hnd as (_ & _ & Hnd). apply NoDup_cons in Hnd as [Hb _].
    fold b in Hb.
    assert (∀ r', r' ∈ drop (S i) (savedBorders s) → heap s1 r' = heap s r')
      as Hsame.
    { intros r' Hr'. apply (t_heap _ _ _ T1).
      - apply (wf_saved_valid _ (proj1 Hwf)).
        eapply elem_of_sublist; [done|apply sublist_drop].
      - intros Hin. apply list_elem_of_singleton in Hin. apply Hb.
        rewrite <- Hin.
        by apply (list_elem_of_fmap_2 (λ r, id (heap s r))). }
    assert ((λ r, id (heap s1 r)) <$> drop (S i) (savedBorders s)
            = (λ r, id (heap s r)) <$> drop (S i) (savedBorders s)) as Hids.
    { apply ids_ext. intros r' Hr'. by rewrite Hsame. }
    rewrite Hids in T'.
    exists s'. rewrite (drop_S _ _ _ Hi), fmap_cons. fold b.
    split_and!; try done.
    + eapply touches_trans.
      * eapply touches_mono1; [apply Hwf| |exact T1]. left.
      * eapply touches_mono; [apply W1| |exact T']. intros x Hx. by right.
    + intros r' Hr'. apply elem_of_cons in Hr' as [->|Hr'].
      * apply (reapplied_touches _ b s1 s' (proj1 W1) (proj1 W') T');
          [apply Hwf|done|done].
      * rewrite <- Hsame by done. by apply R'.
Qed.

(** C10. [clearBorders()] clears the custom selections and the cell
    metadata of the saved borders but leaves [this.savedBorders] as it is,
    no element removed.  So after [disablePlugin()] the borders are gone
    from the metadata and the live custom selections; and
    [updatePlugin()] (disable, enable, [changeBorderSettings]) with a
    [customBorders] setting that is truthy and not an array applies every
    saved border again, and the cleared borders are back. *)
Theorem cleared_borders_reappear st :
  reachable st →
  savedBorders (clearBorders None st) = savedBorders st
  ∧ savedRecords (clearBorders None st) = savedRecords st
  ∧ (∀ b, b ∈ savedRecords st →
       metaRecord (disablePlugin st) (row b) (col b) = None
       ∧ id b ∉ liveSelectionIds (disablePlugin st))
  ∧ ∃ st', updatePlugin (SettingOther true) st = Some st'
      ∧ ∀ b, b ∈ savedRecords st →
          reapplied b st'
          ∧ ∀ e, edgeHidden (getEdge e (reapply b)) = edgeHidden (getEdge e b).
Proof.
  intros Hr. apply reachable_wf in Hr as Hwf.
  destruct (clearBorders_None_post st Hwf) as (Hs & Hh & Hpost).
  split_and!.
  - done.
  - unfold savedRecords. by rewrite Hs, Hh.
  - intros b Hb. apply Hpost in Hb. done.
  - pose (s0 := enablePlugin (disablePlugin st)).
    assert (wf s0) as W0 by by apply wf_enablePlugin, wf_disablePlugin.
    assert (heap s0 = heap st ∧ savedBorders s0 = savedBorders st) as [Hh0 Hs0].
    { rewrite <- Hs, <- Hh. unfold s0, enablePlugin.
      by destruct (enabled (disablePlugin st)). }
    destruct (createSavedBordersFrom_spec (length (savedBorders s0)) 0%nat s0 W0)
      as (s' & Hrun & _ & _ & R); [done|].
    exists s'. split; [done|].
    intros b Hb. apply list_elem_of_fmap in Hb as (r & -> & Hin). split.
    + rewrite <- Hh0. apply R. by rewrite drop_0, Hs0.
    + intros e. by rewrite reapply_edge, edgeHidden_mergeOverDefault.
Qed.

Lemma cleared_borders_reappear_witness :
  let st := setBorders [SelArray 0 0 0 0] (Some onlyTop) init in
  savedBorders (clearBorders None st) = savedBorders st
  ∧ savedRecords (clearBorders None st) = savedRecords st
  ∧ (∀ b, b ∈ savedRecords st →
       metaRecord (disablePlugin st) (row b) (col b) = None
       ∧ id b ∉ liveSelectionIds (disablePlugin st))
  ∧ ∃ st', updatePlugin (SettingOther true) st = Some st'
      ∧ ∀ b, b ∈ savedRecords st →
          reapplied b st'
          ∧ ∀ e, edgeHidden (getEdge e (reapply b)) = edgeHidden (getEdge e b).
Proof.
  apply (cleared_borders_reappear
           (setBorders [SelArray 0 0 0 0] (Some onlyTop) init)).
  eapply reachable_step with (op := OpSetBorders [SelArray 0 0 0 0] (Some onlyTop));
    [apply reachable_init|reflexivity].
Defined.

(** ** Loops over the cells of a rectangle *)

Lemma touches_cellView ids st st' rw cl :
  wf0 st → wf0 st' → touches ids st st' → createId rw cl ∉ ids →
  cellView st' rw cl = cellView st rw cl.
Proof.
  intros W W' T Hx. unfold cellView.
  rewrite (touches_metaRecord ids st st' rw cl W T Hx).
  destruct (touches_bordersAt ids st st' rw cl W W' T Hx) as [_ ->].
  do 2 f_equal. apply bool_decide_ext. by apply (t_live _ _ _ T).
Qed.

(** A cell without metadata and without saved border. *)
Lemma cellView_cleared rw cl s live :
  wf0 s → cellView s rw cl = (None, [], live) → cellCleared rw cl s.
Proof.
  intros W H. unfold cellView in H. injection H as Hm Hb _. split.
  - intros Hin. apply elem_of_savedIds in Hin as (r & Hr & Hid).
    apply fmap_nil_inv in Hb. rewrite bordersAt_by_id in Hb by done.
    assert (r ∈ filter (λ r, id (heap s r) = createId rw cl) (savedBorders s)) as Hf
      by by apply list_elem_of_filter.
    rewrite Hb in Hf. by apply elem_of_nil in Hf.
  - unfold metaRecord in Hm. by destruct (cellMeta s !! (rw, cl)).
Qed.

Lemma cleared_cellView rw cl s :
  wf0 s → cellCleared rw cl s →
  metaRecord s rw cl = None ∧ heap s <$> bordersAt s rw cl = [].
Proof.
  intros W [H1 H2]. split.
  - unfold metaRecord. by rewrite H2.
  - by rewrite bordersAt_nil.
Qed.

Lemma NoDup_rangeIndices a b : NoDup (rangeIndices a b).
Proof. apply NoDup_seqZ. Qed.

Lemma elem_of_cellsOf r1 c1 r2 c2 k :
  k ∈ cellsOf r1 c1 r2 c2 ↔ r1 ≤ k.1 ≤ r2 ∧ c1 ≤ k.2 ≤ c2.
Proof.
  unfold cellsOf. rewrite list_elem_of_bind. split.
  - intros (r & Hk & Hr). apply list_elem_of_bind in Hk as (c & Hk & Hc).
    apply list_elem_of_singleton in Hk as ->.
    apply elem_of_rangeIndices in Hr, Hc. done.
  - intros [Hr Hc]. exists k.1. split; [|by apply elem_of_rangeIndices].
    apply list_elem_of_bind. exists k.2. split; [|by apply elem_of_rangeIndices].
    destruct k. simpl. by apply list_elem_of_singleton.
Qed.

Lemma NoDup_cellsOf r1 c1 r2 c2 : NoDup (cellsOf r1 c1 r2 c2).
Proof.
  unfold cellsOf. apply NoDup_bind; [| |apply NoDup_rangeIndices].
  - intros x1 x2 y _ _ H1 H2.
    apply list_elem_of_bind in H1 as (a & H1 & _).
    apply list_elem_of_bind in H2 as (b & H2 & _).
    apply list_elem_of_singleton in H1, H2. congruence.
  - intros x _. apply NoDup_bind; [| |apply NoDup_rangeIndices].
    + intros y1 y2 z _ _ H1 H2. apply list_elem_of_singleton in H1, H2. congruence.
    + intros y _. apply NoDup_singleton.
Qed.

Lemma foldl_bind {A B T} (g : T → B → T) (h : A → list B) (l : list A) (s : T) :
  foldl g s (l ≫= h) = foldl (λ s x, foldl g s (h x)) s l.
Proof.
  revert s. induction l as [|a l IH]; intros s; [done|].
  rewrite bind_cons, foldl_app. simpl. apply IH.
Qed.

Lemma foldl_ext_in {A T} (g g' : T → A → T) (l : list A) (s : T) :
  (∀ s x, x ∈ l → g s x = g' s x) → foldl g s l = foldl g' s l.
Proof.
  revert s. induction l as [|a l IH]; intros s H; [done|]. simpl.
  rewrite H by (apply elem_of_cons; by left). apply IH.
  intros s' x Hx. apply H. apply elem_of_cons. by right.
Qed.

(** Two nested [rangeEach] loops with the rows outside are one loop over
    the cells of the rectangle. *)
Lemma rangeEach_rows_flat (f : Z → Z → State → State) r1 c1 r2 c2 st :
  rangeEach r1 r2 (λ r, rangeEach c1 c2 (λ c, f r c)) st
  = foldl (λ s k, f k.1 k.2 s) st (cellsOf r1 c1 r2 c2).
Proof.
  unfold rangeEach, cellsOf. rewrite foldl_bind.
  apply foldl_ext_in. intros s r _. rewrite foldl_bind. done.
Qed.

(** The same with the columns outside. *)
Lemma rangeEach_cols_flat (f : Z → Z → State → State) r1 c1 r2 c2 st :
  rangeEach c1 c2 (λ c, rangeEach r1 r2 (λ r, f r c)) st
  = foldl (λ s k, f k.1 k.2 s) st
      (c ← rangeIndices c1 c2; r ← rangeIndices r1 r2; [(r, c)]).
Proof.
  unfold rangeEach. rewrite foldl_bind.
  apply foldl_ext_in. intros s r _. rewrite foldl_bind. done.
Qed.

Lemma elem_of_cells_cols r1 c1 r2 c2 (k : Z * Z) :
  k ∈ (c ← rangeIndices c1 c2; r ← rangeIndices r1 r2; [(r, c)])
  ↔ r1 ≤ k.1 ≤ r2 ∧ c1 ≤ k.2 ≤ c2.
Proof.
  rewrite list_elem_of_bind. split.
  - intros (c & Hk & Hc). apply list_elem_of_bind in Hk as (r & Hk & Hr).
    apply list_elem_of_singleton in Hk as ->.
    apply elem_of_rangeIndices in Hr, Hc. done.
  - intros [Hr Hc]. exists k.2. split; [|by apply elem_of_rangeIndices].
    apply list_elem_of_bind. exists k.1. split; [|by apply elem_of_rangeIndices].
    destruct k. simpl. by apply list_elem_of_singleton.
Qed.

Lemma NoDup_cells_cols r1 c1 r2 c2 :
  NoDup (c ← rangeIndices c1 c2; r ← rangeIndices r1 r2; [(r, c)] : list (Z * Z)).
Proof.
  apply NoDup_bind; [| |apply NoDup_rangeIndices].
  - intros x1 x2 y _ _ H1 H2.
    apply list_elem_of_bind in H1 as (a & H1 & _).
    apply list_elem_of_bind in H2 as (b & H2 & _).
    apply list_elem_of_singleton in H1, H2. congruence.
  - intros x _. apply NoDup_bind; [| |apply NoDup_rangeIndices].
    + intros y1 y2 z _ _ H1 H2. apply list_elem_of_singleton in H1, H2. congruence.
    + intros y _. apply NoDup_singleton.
Qed.

Lemma cell_not_in_ids (k : Z * Z) (l : list (Z * Z)) :
  k ∉ l → createId k.1 k.2 ∉ (λ k : Z * Z, createId k.1 k.2) <$> l.
Proof.
  intros Hk Hin. apply list_elem_of_fmap in Hin as (k' & Hid & Hk').
  apply createId_inj in Hid as [H1 H2]. destruct k, k'. simpl in *. by subst.
Qed.

(** A loop whose step for a cell touches that cell only. *)
Lemma cells_loop_spec (f : Z * Z → State → State) (cells : list (Z * Z)) st :
  (∀ k s, wf s → wf (f k s) ∧ touches [createId k.1 k.2] s (f k s)) →
  wf st →
  let st' := foldl (λ s k, f k s) st cells in
  wf st' ∧ touches ((λ k, createId k.1 k.2) <$> cells) st st'.
Proof.
  intros Hf Hwf.
  apply (foldl_touches f); [|done].
  intros k s Hk Hs. destruct (Hf k s Hs) as [H1 H2].
  split; [done|]. eapply touches_mono1; [apply Hs| |done].
  by apply (list_elem_of_fmap_2 (λ k : Z * Z, createId k.1 k.2)).
Qed.

Lemma cells_loop_outside (f : Z * Z → State → State) cells rw cl st :
  (∀ k s, wf s → wf (f k s) ∧ touches [createId k.1 k.2] s (f k s)) →
  wf st → (rw, cl) ∉ cells →
  cellView (foldl (λ s k, f k s) st cells) rw cl = cellView st rw cl.
Proof.
  intros Hf Hwf Hk. destruct (cells_loop_spec f cells st Hf Hwf) as [W T].
  apply (touches_cellView _ _ _ rw cl (proj1 Hwf) (proj1 W) T).
  by apply (cell_not_in_ids (rw, cl)).
Qed.

(** The step for a cell that the loop visits once starts from a state in
    which the cell looks as before the loop, and the cell looks after the
    loop as after that step. *)
Lemma cells_loop_at (f : Z * Z → State → State) cells rw cl st :
  (∀ k s, wf s → wf (f k s) ∧ touches [createId k.1 k.2] s (f k s)) →
  wf st → NoDup cells → (rw, cl) ∈ cells →
  ∃ s1, wf s1 ∧ cellView s1 rw cl = cellView st rw cl
    ∧ cellView (foldl (λ s k, f k s) st cells) rw cl
      = cellView (f (rw, cl) s1) rw cl.
Proof.
  intros Hf Hwf Hnd Hk.
  apply list_elem_of_split in Hk as (l1 & l2 & ->).
  apply NoDup_app in Hnd as (_ & H1 & Hnd).
  apply NoDup_cons in Hnd as [H2 _].
  exists (foldl (λ s k, f k s) st l1).
  destruct (cells_loop_spec f l1 st Hf Hwf) as [W1 _].
  split; [done|]. split.
  - apply cells_loop_outside; [done..|]. intros Hin. apply (H1 _ Hin).
    apply elem_of_cons. by left.
  - rewrite foldl_app. cbn [foldl].
    apply cells_loop_outside; [done| |done]. by apply Hf.
Qed.

(** ** What the saved borders, the metadata and the custom selections are keyed by *)

Lemma filter_key_length {A} (g : A → string) (x : string) (l : list A) :
  NoDup (g <$> l) → (length (filter (λ r, g r = x) l) ≤ 1)%nat.
Proof.
  induction l as [|a l IH]; intros Hnd; [simpl; lia|].
  rewrite fmap_cons in Hnd. apply NoDup_cons in Hnd as [Ha Hnd].
  destruct (decide (g a = x)) as [Hax|Hax].
  - rewrite filter_cons_True by done. rewrite filter_none; [simpl; lia|].
    intros y Hy Hyx. apply Ha. rewrite Hax, <- Hyx.
    by apply (list_elem_of_fmap_2 g).
  - rewrite filter_cons_False by done. by apply IH.
Qed.

(** X1. In every state the plugin can reach, [this.savedBorders] holds at
    most one border object per cell: the ids of the saved borders are
    pairwise different, the id of each is the one [createId] gives for
    its [row] and [col], and [getBorders] for one cell returns at most
    one border. *)
Theorem one_saved_border_per_cell st :
  reachable st →
  NoDup (savedIds st)
  ∧ (∀ b, b ∈ savedRecords st → id b = createId (row b) (col b))
  ∧ ∀ rw cl, (length (getBorders [SelArray rw cl rw cl] st) ≤ 1)%nat.
Proof.
  intros Hr. pose proof (reachable_wf st Hr) as [W _]. split_and!.
  - apply W.
  - intros b Hb. apply list_elem_of_fmap in Hb as (r & -> & _).
    apply (wf_heap_coords _ W).
  - intros rw cl. rewrite getBorders_point, bordersAt_by_id by done.
    apply (filter_key_length (λ r, id (heap st r))). apply W.
Qed.

Lemma one_saved_border_per_cell_witness :
  let st := setBorders [SelArray 0 0 0 0; SelArray 0 0 0 0] (Some onlyTop) init in
  NoDup (savedIds st)
  ∧ (∀ b, b ∈ savedRecords st → id b = createId (row b) (col b))
  ∧ ∀ rw cl, (length (getBorders [SelArray rw cl rw cl] st) ≤ 1)%nat.
Proof.
  apply (one_saved_border_per_cell
           (setBorders [SelArray 0 0 0 0; SelArray 0 0 0 0] (Some onlyTop) init)).
  eapply reachable_step with (op := OpSetBorders _ _);
    [apply reachable_init|reflexivity].
Defined.

(** X2. In every state the plugin can reach, no two custom selections
    have the same border id, and the border object in the ['borders']
    metadata of a cell is an object of that cell: its [row] and [col] are
    the coordinates of the cell and its [id] is [createId(row, col)]. *)
Theorem selections_and_metadata_keyed st :
  reachable st →
  NoDup (selectionIds st)
  ∧ ∀ rw cl b, metaRecord st rw cl = Some b →
      row b = rw ∧ col b = cl ∧ id b = createId rw cl.
Proof.
  intros Hr. pose proof (reachable_wf st Hr) as [W _]. split; [apply W|].
  intros rw cl b Hb. unfold metaRecord in Hb.
  destruct (cellMeta st !! (rw, cl)) as [r|] eqn:E; [|done].
  injection Hb as <-. pose proof (wf_meta_coords _ W _ _ E) as Hc.
  injection Hc as H1 H2. split_and!; [done..|].
  rewrite (wf_heap_coords _ W). by rewrite H1, H2.
Qed.

Lemma selections_and_metadata_keyed_witness :
  let st := prepareBorder [((0, 0), (1, 1))] (PlaceEdge Top) false init in
  NoDup (selectionIds st)
  ∧ ∀ rw cl b, metaRecord st rw cl = Some b →
      row b = rw ∧ col b = cl ∧ id b = createId rw cl.
Proof.
  apply (selections_and_metadata_keyed
           (prepareBorder [((0, 0), (1, 1))] (PlaceEdge Top) false init)).
  eapply reachable_step with (op := OpPrepareBorder _ _ _);
    [apply reachable_init|reflexivity].
Defined.

(** ** [getBorders] *)

Lemma elem_of_bordersAt st rw cl r :
  r ∈ bordersAt st rw cl
  ↔ r ∈ savedBorders st ∧ row (heap st r) = rw ∧ col (heap st r) = cl.
Proof. unfold bordersAt. rewrite list_elem_of_filter. tauto. Qed.

Lemma elem_of_bordersIn st r1 c1 r2 c2 r :
  r ∈ bordersIn st r1 c1 r2 c2
  ↔ r ∈ savedBorders st
    ∧ r1 ≤ row (heap st r) ≤ r2 ∧ c1 ≤ col (heap st r) ≤ c2.
Proof.
  unfold bordersIn. rewrite list_elem_of_bind. split.
  - intros (rw & Hin & Hrw). apply list_elem_of_bind in Hin as (cl & Hin & Hcl).
    apply elem_of_bordersAt in Hin as (Hs & <- & <-).
    apply elem_of_rangeIndices in Hrw, Hcl. done.
  - intros (Hs & Hrw & Hcl). exists (row (heap st r)).
    split; [|by apply elem_of_rangeIndices].
    apply list_elem_of_bind. exists (col (heap st r)).
    split; [|by apply elem_of_rangeIndices].
    by apply elem_of_bordersAt.
Qed.

Lemma elem_of_getBordersOne st cell r :
  r ∈ getBordersOne st cell
  ↔ r ∈ savedBorders st ∧ inItem cell (row (heap st r)) (col (heap st r)).
Proof.
  destruct cell as [r1 c1 r2 c2|cell]; simpl.
  - destruct (decide (r1 = r2 ∧ c1 = c2)) as [[-> ->]|Hne].
    + rewrite elem_of_bordersAt. split; [intros (? & -> & ->)|intros (? & ? & ?)];
        (split; [done|lia]).
    + apply elem_of_bordersIn.
  - apply elem_of_bordersIn.
Qed.

(** X3. [getBorders(selection)] returns a saved border exactly when its
    [row] and [col] lie in the rectangle of some element of the
    selection: between the start and the end coordinates of an array (so
    an array whose end is before its start selects nothing), and between
    the top-left and the bottom-right corner of a range object. *)
Theorem getBorders_membership selection st r :
  r ∈ getBorders selection st
  ↔ r ∈ savedBorders st
    ∧ ∃ cell, cell ∈ selection ∧ inItem cell (row (heap st r)) (col (heap st r)).
Proof.
  unfold getBorders. rewrite list_elem_of_bind. split.
  - intros (cell & Hin & Hc). apply elem_of_getBordersOne in Hin as [Hs Hi].
    split; [done|]. by exists cell.
  - intros (Hs & cell & Hc & Hi). exists cell. split; [|done].
    by apply elem_of_getBordersOne.
Qed.

Lemma NoDup_savedBorders st : wf0 st → NoDup (savedBorders st).
Proof.
  intros W. apply (NoDup_fmap_1 (λ r, id (heap st r))). apply W.
Qed.

Lemma NoDup_bordersIn st r1 c1 r2 c2 : wf0 st → NoDup (bordersIn st r1 c1 r2 c2).
Proof.
  intros W. unfold bordersIn. apply NoDup_bind; [| |apply NoDup_rangeIndices].
  - intros x1 x2 y _ _ H1 H2.
    apply list_elem_of_bind in H1 as (a & H1 & _).
    apply list_elem_of_bind in H2 as (b & H2 & _).
    apply elem_of_bordersAt in H1 as (_ & H1 & _).
    apply elem_of_bordersAt in H2 as (_ & H2 & _). congruence.
  - intros x _. apply NoDup_bind; [| |apply NoDup_rangeIndices].
    + intros y1 y2 z _ _ H1 H2.
      apply elem_of_bordersAt in H1 as (_ & _ & H1).
      apply elem_of_bordersAt in H2 as (_ & _ & H2). congruence.
    + intros y _. apply NoDup_filter. by apply NoDup_savedBorders.
Qed.

Lemma NoDup_getBordersOne st cell : wf0 st → NoDup (getBordersOne st cell).
Proof.
  intros W. destruct cell as [r1 c1 r2 c2|cell]; simpl.
  - destruct (decide (r1 = r2 ∧ c1 = c2)).
    + apply NoDup_filter. by apply NoDup_savedBorders.
    + by apply NoDup_bordersIn.
  - by apply NoDup_bordersIn.
Qed.

Lemma count_NoDup {A} `{EqDecision A} (l : list A) (x : A) :
  NoDup l → x ∈ l → length (filter (λ y, y = x) l) = 1%nat.
Proof.
  induction l as [|a l IH]; intros Hnd Hx; [by apply elem_of_nil in Hx|].
  apply NoDup_cons in Hnd as [Ha Hnd].
  destruct (decide (a = x)) as [->|Hne].
  - rewrite filter_cons_True by done. rewrite filter_none; [done|].
    intros y Hy ->. done.
  - rewrite filter_cons_False by done. apply IH; [done|].
    apply elem_of_cons in Hx as [->|Hx]; done.
Qed.

(** X4. [getBorders] does not remove duplicates across the elements of
    the selection, and adds none of its own: in a state the plugin can
    reach, a saved border appears in the result once for every element
    of the selection whose rectangle contains its cell. *)
Theorem getBorders_multiplicity selection st r :
  reachable st → r ∈ savedBorders st →
  length (filter (λ r', r' = r) (getBorders selection st))
  = length (filter (λ cell, inItem cell (row (heap st r)) (col (heap st r)))
              selection).
Proof.
  intros Hr Hs. pose proof (reachable_wf st Hr) as [W _].
  unfold getBorders. induction selection as [|cell selection IH]; [done|].
  rewrite bind_cons, filter_app, length_app, IH.
  destruct (decide (inItem cell (row (heap st r)) (col (heap st r)))) as [Hi|Hi].
  - rewrite (filter_cons_True (λ cell, inItem cell _ _)) by done.
    rewrite (count_NoDup (getBordersOne st cell) r); [done| |].
    + by apply NoDup_getBordersOne.
    + by apply elem_of_getBordersOne.
  - rewrite (filter_cons_False (λ cell, inItem cell _ _)) by done.
    rewrite filter_none; [done|].
    intros y Hy ->. apply Hi. by apply elem_of_getBordersOne in Hy as [_ ?].
Qed.

Lemma getBorders_multiplicity_witness :
  let st := setBorders [SelArray 0 0 0 0] (Some onlyTop) init in
  length (filter (λ r', r' = 0%nat)
            (getBorders [SelArray 0 0 1 1; SelArray 0 0 0 0; SelArray 1 1 2 2] st))
  = 2%nat.
Proof.
  apply (getBorders_multiplicity
           [SelArray 0 0 1 1; SelArray 0 0 0 0; SelArray 1 1 2 2]
           (setBorders [SelArray 0 0 0 0] (Some onlyTop) init) 0%nat).
  - eapply reachable_step with (op := OpSetBorders _ _);
      [apply reachable_init|reflexivity].
  - vm_compute. apply elem_of_cons. by left.
Defined.

(** ** [setBorders] over a rectangle *)

Lemma removeAllBorders_view rw cl s :
  wf0 s → cellView (removeAllBorders rw cl s) rw cl = (None, [], false).
Proof.
  intros W. destruct (removeAllBorders_post rw cl s W) as (H1 & H2 & H3).
  pose proof (wf0_removeAllBorders rw cl s W) as W'.
  unfold cellView, metaRecord. rewrite H3, bordersAt_nil by done.
  by rewrite bool_decide_eq_false_2.
Qed.

Lemma rawBlock_meta cond e d rw cl b st :
  cellMeta (rawBlock cond e d rw cl b st) !! (rw, cl)
  = if cond && hasOwn e d then Some b else cellMeta st !! (rw, cl).
Proof.
  unfold rawBlock, hasOwn. destruct cond, (ownEdge e d); simpl; try done.
  apply lookup_insert_eq.
Qed.

Lemma writesMeta_onBoundary range d rw cl :
  writesMeta range d rw cl = true → onBoundary range rw cl = true.
Proof.
  unfold writesMeta, onBoundary.
  destruct (bool_decide (rw = (from range).1)), (bool_decide (rw = (to range).1)),
    (bool_decide (cl = (from range).2)), (bool_decide (cl = (to range).2));
    simpl; try done.
Qed.

(** The four blocks of the loop body, run on the new border object. *)
Lemma rawBlocks_spec range d rw cl st :
  wf st →
  let b := next st in
  let st0 := (alloc (createEmptyBorders rw cl) st).2 in
  let st4 :=
    rawBlock (bool_decide (cl = (to range).2)) Right d rw cl b
      (rawBlock (bool_decide (cl = (from range).2)) Left d rw cl b
         (rawBlock (bool_decide (rw = (to range).1)) Bottom d rw cl b
            (rawBlock (bool_decide (rw = (from range).1)) Top d rw cl b st0))) in
  cellInv rw cl b st4 ∧ heap st4 b = rawBorder range d rw cl
  ∧ cellMeta st4 !! (rw, cl)
    = if writesMeta range d rw cl then Some b else cellMeta st !! (rw, cl).
Proof.
  intros Hwf b st0 st4.
  assert (cellInv rw cl b st0) as H0.
  { split_and!.
    - split; [apply wf0_alloc; [apply Hwf|done]|apply visible_alloc; apply Hwf].
    - unfold b, st0. simpl. lia.
    - unfold b, st0. by rewrite alloc_same.
    - intros H. apply (wf_saved_valid _ (proj1 Hwf)) in H. unfold b in H. lia. }
  assert (heap st0 b = createEmptyBorders rw cl) as C0 by apply alloc_same.
  destruct (rawBlock_spec (bool_decide (rw = (from range).1)) Top d rw cl b st0 H0)
    as [H1 C1].
  pose proof (rawBlock_meta (bool_decide (rw = (from range).1)) Top d rw cl b st0)
    as M1.
  set (st1 := rawBlock _ Top d rw cl b st0) in *.
  destruct (rawBlock_spec (bool_decide (rw = (to range).1)) Bottom d rw cl b st1 H1)
    as [H2 C2].
  pose proof (rawBlock_meta (bool_decide (rw = (to range).1)) Bottom d rw cl b st1)
    as M2.
  set (st2 := rawBlock _ Bottom d rw cl b st1) in *.
  destruct (rawBlock_spec (bool_decide (cl = (from range).2)) Left d rw cl b st2 H2)
    as [H3 C3].
  pose proof (rawBlock_meta (bool_decide (cl = (from range).2)) Left d rw cl b st2)
    as M3.
  set (st3 := rawBlock _ Left d rw cl b st2) in *.
  destruct (rawBlock_spec (bool_decide (cl = (to range).2)) Right d rw cl b st3 H3)
    as [H4 C4].
  pose proof (rawBlock_meta (bool_decide (cl = (to range).2)) Right d rw cl b st3)
    as M4.
  fold st4 in H4, C4, M4.
  split; [done|]. split.
  - rewrite C4, C3, C2, C1, C0. done.
  - rewrite M4, M3, M2, M1. unfold writesMeta.
    change (cellMeta st0) with (cellMeta st).
    destruct (bool_decide (rw = (from range).1)), (bool_decide (rw = (to range).1)),
      (bool_decide (cl = (from range).2)), (bool_decide (cl = (to range).2)),
      (hasOwn Top d), (hasOwn Bottom d), (hasOwn Left d), (hasOwn Right d);
      reflexivity.
Qed.

(** The metadata of a cell on the boundary after the loop body. *)
Lemma rangeCell_meta range d rw cl st :
  wf st → onBoundary range rw cl = true →
  let st' := rangeCell range d rw cl st in
  cellMeta st' !! (rw, cl)
  = (if writesMeta range d rw cl then Some (next st) else cellMeta st !! (rw, cl))
  ∧ heap st' (next st) = rawBorder range d rw cl.
Proof.
  intros Hwf Hon st'. unfold st'. rewrite rangeCell_eq, Hon.
  destruct (rawBlocks_spec range d rw cl st Hwf) as (Hinv & Hraw & Hm).
  split.
  - destruct (insert_frame (next st)
      (rawBlock (bool_decide (cl = (to range).2)) Right d rw cl (next st)
         (rawBlock (bool_decide (cl = (from range).2)) Left d rw cl (next st)
            (rawBlock (bool_decide (rw = (to range).1)) Bottom d rw cl (next st)
               (rawBlock (bool_decide (rw = (from range).1)) Top d rw cl (next st)
                  (alloc (createEmptyBorders rw cl) st).2))))) as [_ ->].
    exact Hm.
  - rewrite insert_heap. exact Hraw.
Qed.

(** The loop body on a cell without borders. *)
Lemma rangeCell_view_cleared range d rw cl s :
  wf s → cellView s rw cl = (None, [], false) →
  cellView (rangeCell range d rw cl s) rw cl = rangeView range d rw cl.
Proof.
  intros Hwf Hv.
  destruct (rangeCell_spec range d rw cl s Hwf) as [W' _].
  pose proof (rangeCell_post range d rw cl s Hwf) as Hpost.
  unfold rangeView.
  destruct (onBoundary range rw cl) eqn:Hon.
  - destruct Hpost as [Hs Hl].
    destruct (rangeCell_meta range d rw cl s Hwf Hon) as [Hm Hh].
    unfold cellView. rewrite Hs. rewrite bool_decide_eq_true_2 by done.
    unfold metaRecord. rewrite Hm.
    assert (cellMeta s !! (rw, cl) = None) as ->.
    { apply (cellView_cleared rw cl s false (proj1 Hwf)) in Hv. apply Hv. }
    destruct (writesMeta range d rw cl), (allHidden (rawBorder range d rw cl));
      simpl; by rewrite ?Hh.
  - rewrite (touches_cellView [] s _ rw cl (proj1 Hwf) (proj1 W') Hpost)
      by apply not_elem_of_nil.
    rewrite Hv.
    destruct (writesMeta range d rw cl) eqn:E; [|done].
    apply writesMeta_onBoundary in E. congruence.
Qed.

Lemma removeAll_cells_step (k : Z * Z) s :
  wf s →
  wf (removeAllBorders k.1 k.2 s)
  ∧ touches [createId k.1 k.2] s (removeAllBorders k.1 k.2 s).
Proof. apply removeAllBorders_spec. Qed.

Lemma rangeCell_cells_step range d (k : Z * Z) s :
  wf s →
  wf (rangeCell range d k.1 k.2 s)
  ∧ touches [createId k.1 k.2] s (rangeCell range d k.1 k.2 s).
Proof. apply rangeCell_spec. Qed.

(** The loop that removes the borders of the cells of a list. *)
Lemma removeAll_cells_view cells st rw cl :
  wf st → NoDup cells → (rw, cl) ∈ cells →
  cellView (foldl (λ s k, removeAllBorders k.1 k.2 s) st cells) rw cl
  = (None, [], false).
Proof.
  intros Hwf Hnd Hin.
  destruct (cells_loop_at (λ k, removeAllBorders k.1 k.2) cells rw cl st
              removeAll_cells_step Hwf Hnd Hin) as (s1 & W1 & _ & ->).
  apply removeAllBorders_view, W1.
Qed.

(** Removing the borders of the cells of one list and running the loop
    body of [prepareBorderFromCustomAddedRange] over another. *)
Lemma replace_cells range d cells1 cells2 st :
  wf st → NoDup cells1 → NoDup cells2 →
  let st' := foldl (λ s k, rangeCell range d k.1 k.2 s)
               (foldl (λ s k, removeAllBorders k.1 k.2 s) st cells1) cells2 in
  wf st'
  ∧ (∀ rw cl, (rw, cl) ∈ cells1 → (rw, cl) ∈ cells2 →
       cellView st' rw cl = rangeView range d rw cl)
  ∧ (∀ rw cl, (rw, cl) ∈ cells1 → (rw, cl) ∉ cells2 →
       cellView st' rw cl = (None, [], false))
  ∧ (∀ rw cl, (rw, cl) ∉ cells1 → (rw, cl) ∉ cells2 →
       cellView st' rw cl = cellView st rw cl).
Proof.
  intros Hwf Hnd1 Hnd2 st'.
  destruct (cells_loop_spec (λ k, removeAllBorders k.1 k.2) cells1 st
              removeAll_cells_step Hwf) as [W1 _].
  set (s1 := foldl (λ s k, removeAllBorders k.1 k.2 s) st cells1) in *.
  destruct (cells_loop_spec (λ k, rangeCell range d k.1 k.2) cells2 s1
              (rangeCell_cells_step range d) W1) as [W2 _].
  split; [done|]. split_and!.
  - intros rw cl H1 H2.
    destruct (cells_loop_at (λ k, rangeCell range d k.1 k.2) cells2 rw cl s1
                (rangeCell_cells_step range d) W1 Hnd2 H2) as (s2 & Ws2 & Hv & Hfin).
    unfold st'. rewrite Hfin. apply rangeCell_view_cleared; [done|].
    rewrite Hv. by apply removeAll_cells_view.
  - intros rw cl H1 H2. unfold st'.
    rewrite (cells_loop_outside (λ k, rangeCell range d k.1 k.2) cells2 rw cl s1
               (rangeCell_cells_step range d) W1 H2).
    by apply removeAll_cells_view.
  - intros rw cl H1 H2. unfold st'.
    rewrite (cells_loop_outside (λ k, rangeCell range d k.1 k.2) cells2 rw cl s1
               (rangeCell_cells_step range d) W1 H2).
    apply (cells_loop_outside (λ k, removeAllBorders k.1 k.2) cells1 rw cl st
             removeAll_cells_step Hwf H1).
Qed.

Lemma setBordersOne_array r1 c1 r2 c2 bo st :
  ¬ (r1 = r2 ∧ c1 = c2) →
  setBordersOne bo (SelArray r1 c1 r2 c2) st
  = foldl (λ s k, rangeCell {| from := (r1, c1); to := (r2, c2) |}
                    (descriptorOf bo) k.1 k.2 s)
      (foldl (λ s k, removeAllBorders k.1 k.2 s) st (cellsOf r1 c1 r2 c2))
      (cellsOf r1 c1 r2 c2).
Proof.
  intros Hne. unfold setBordersOne. rewrite decide_False by done.
  unfold prepareBorderFromCustomAddedRange. cbn [rowRange rowEdges from to fst snd].
  rewrite !rangeEach_rows_flat. by destruct bo.
Qed.

Lemma setBordersOne_range cell bo st :
  setBordersOne bo (SelRange cell) st
  = foldl (λ s k, rangeCell cell (descriptorOf bo) k.1 k.2 s)
      (foldl (λ s k, removeAllBorders k.1 k.2 s) st
         (cellsOf (getTopLeftCorner cell).1 (getTopLeftCorner cell).2
            (getBottomRightCorner cell).1 (getBottomRightCorner cell).2))
      (cellsOf (from cell).1 (from cell).2 (to cell).1 (to cell).2).
Proof.
  unfold setBordersOne, prepareBorderFromCustomAddedRange.
  cbn [rowRange rowEdges]. rewrite !rangeEach_rows_flat. by destruct bo.
Qed.

Lemma setBorders_single cell bo st :
  setBorders [cell] bo st = setBordersOne bo cell st.
Proof. reflexivity. Qed.

Lemma cellsOf_empty r1 c1 r2 c2 : r2 < r1 ∨ c2 < c1 → cellsOf r1 c1 r2 c2 = [].
Proof.
  intros H. destruct (cellsOf r1 c1 r2 c2) as [|k l] eqn:E; [done|].
  assert (k ∈ cellsOf r1 c1 r2 c2) as Hk by (rewrite E; apply elem_of_cons; by left).
  apply elem_of_cellsOf in Hk. lia.
Qed.

(** What [setBorders] does for one element of the selection, cell by
    cell. *)
Lemma setBordersOne_view bo cell st rw cl :
  wf st →
  cellView (setBordersOne bo cell st) rw cl
  = if decide (inItem cell rw cl) then itemView bo cell rw cl
    else cellView st rw cl.
Proof.
  intros Hwf. destruct cell as [r1 c1 r2 c2|cell].
  - destruct (decide (r1 = r2 ∧ c1 = c2)) as [[<- <-]|Hne].
    + rewrite <- setBorders_single. cbn [inItem itemView].
      rewrite (decide_True (P := r1 = r1 ∧ c1 = c1)) by done.
      destruct (decide (r1 ≤ rw ≤ r1 ∧ c1 ≤ cl ≤ c1)) as [Hin|Hout].
      * assert (rw = r1) as -> by lia. assert (cl = c1) as -> by lia.
        destruct (setBorders_point_post r1 c1 bo st Hwf) as (_ & Hm & Hl & _ & Hs).
        unfold cellView, pointView. rewrite Hm, Hs.
        by rewrite bool_decide_eq_true_2.
      * rewrite setBorders_point.
        destruct (removeAllBorders_spec r1 c1 st Hwf) as [W1 T1].
        destruct (prepareBorderFromCustomAdded_spec r1 c1 bo _ W1) as (W2 & T2 & _).
        assert (createId rw cl ∉ [createId r1 c1]) as Hx.
        { intros Hx. apply list_elem_of_singleton, createId_inj in Hx. lia. }
        rewrite (touches_cellView _ _ _ rw cl (proj1 W1) (proj1 W2) T2 Hx).
        apply (touches_cellView _ _ _ rw cl (proj1 Hwf) (proj1 W1) T1 Hx).
    + rewrite setBordersOne_array by done. cbn [inItem itemView].
      rewrite (decide_False (P := r1 = r2 ∧ c1 = c2)) by done.
      destruct (replace_cells {| from := (r1, c1); to := (r2, c2) |} (descriptorOf bo)
                  (cellsOf r1 c1 r2 c2) (cellsOf r1 c1 r2 c2) st Hwf
                  (NoDup_cellsOf _ _ _ _) (NoDup_cellsOf _ _ _ _))
        as (_ & Hin & _ & Hout).
      destruct (decide (r1 ≤ rw ≤ r2 ∧ c1 ≤ cl ≤ c2)) as [H|H].
      * apply Hin; by apply (elem_of_cellsOf r1 c1 r2 c2 (rw, cl)).
      * apply Hout; by rewrite (elem_of_cellsOf r1 c1 r2 c2 (rw, cl)).
  - rewrite setBordersOne_range. cbn [inItem itemView].
    destruct (replace_cells cell (descriptorOf bo)
                (cellsOf (getTopLeftCorner cell).1 (getTopLeftCorner cell).2
                   (getBottomRightCorner cell).1 (getBottomRightCorner cell).2)
                (cellsOf (from cell).1 (from cell).2 (to cell).1 (to cell).2) st Hwf
                (NoDup_cellsOf _ _ _ _) (NoDup_cellsOf _ _ _ _))
      as (_ & Hin & Hrem & Hout).
    unfold getTopLeftCorner, getBottomRightCorner in *. cbn [fst snd] in *.
    destruct (decide (Z.min (from cell).1 (to cell).1 ≤ rw
                        ≤ Z.max (from cell).1 (to cell).1
                      ∧ Z.min (from cell).2 (to cell).2 ≤ cl
                        ≤ Z.max (from cell).2 (to cell).2)) as [H|H].
    + destruct (decide ((from cell).1 ≤ (to cell).1 ∧ (from cell).2 ≤ (to cell).2))
        as [Ho|Ho].
      * apply Hin.
        -- apply (elem_of_cellsOf _ _ _ _ (rw, cl)). simpl. lia.
        -- apply (elem_of_cellsOf _ _ _ _ (rw, cl)). simpl. lia.
      * apply Hrem.
        -- apply (elem_of_cellsOf _ _ _ _ (rw, cl)). simpl. lia.
        -- rewrite cellsOf_empty by lia. apply not_elem_of_nil.
    + apply Hout.
      * rewrite (elem_of_cellsOf _ _ _ _ (rw, cl)). simpl. lia.
      * rewrite (elem_of_cellsOf _ _ _ _ (rw, cl)). simpl. lia.
Qed.

Lemma setBorders_snoc selection cell bo st :
  setBorders (selection ++ [cell]) bo st
  = setBordersOne bo cell (setBorders selection bo st).
Proof. unfold setBorders, arrayEach. by rewrite foldl_app. Qed.

(** A cell in no rectangle of the selection. *)
Lemma setBorders_outside selection bo st rw cl :
  wf st → (∀ cell, cell ∈ selection → ¬ inItem cell rw cl) →
  cellView (setBorders selection bo st) rw cl = cellView st rw cl.
Proof.
  intros Hwf. induction selection as [|cell selection IH] using rev_ind; [done|].
  intros Hout. rewrite setBorders_snoc.
  rewrite setBordersOne_view by by apply wf_setBorders.
  rewrite decide_False.
  - apply IH. intros c Hc. apply Hout, elem_of_app. by left.
  - apply Hout, elem_of_app. right. by apply list_elem_of_singleton.
Qed.

(** A cell in some rectangle of the selection looks the same whatever
    the state before. *)
Lemma setBorders_covered selection bo s1 s2 rw cl :
  wf s1 → wf s2 → (∃ cell, cell ∈ selection ∧ inItem cell rw cl) →
  cellView (setBorders selection bo s1) rw cl
  = cellView (setBorders selection bo s2) rw cl.
Proof.
  intros W1 W2.
  induction selection as [|cell selection IH] using rev_ind.
  - intros (c & Hc & _). by apply elem_of_nil in Hc.
  - intros (c & Hc & Hin). rewrite !setBorders_snoc.
    rewrite !setBordersOne_view by by apply wf_setBorders.
    destruct (decide (inItem cell rw cl)) as [H|H]; [done|].
    apply IH. exists c. split; [|done].
    apply elem_of_app in Hc as [Hc|Hc]; [done|].
    apply list_elem_of_singleton in Hc as ->. done.
Qed.

Lemma view_components st rw cl m s (l : bool) :
  cellView st rw cl = (m, s, l) →
  metaRecord st rw cl = m
  ∧ heap st <$> getBorders [SelArray rw cl rw cl] st = s
  ∧ (createId rw cl ∈ liveSelectionIds st ↔ l = true).
Proof.
  unfold cellView. intros H. injection H as H1 H2 H3.
  rewrite getBorders_point. split_and!; [done..|].
  rewrite <- H3. symmetry. apply bool_decide_eq_true.
Qed.

(** X5. [setBorders] with one coordinate array that is not a single cell
    replaces the borders of the rectangle.  A cell of the rectangle on
    the boundary ends with one saved border, the new object of the range
    path with the edges of [borderObject] on the sides where the cell is
    on the boundary, copied as supplied, or with no saved border when
    the four edges of that object are hidden; it has a live custom
    selection, and the object is in its metadata when [borderObject] has
    an own key for one of those sides.  A cell inside the rectangle ends
    with no saved border, no metadata and no live custom selection, also
    when it had borders before.  Cells outside the rectangle are as
    before, and an array whose end is before its start changes
    nothing. *)
Theorem setBorders_rectangle st r1 c1 r2 c2 bo :
  reachable st → ¬ (r1 = r2 ∧ c1 = c2) →
  let range := {| from := (r1, c1); to := (r2, c2) |} in
  let st' := setBorders [SelArray r1 c1 r2 c2] bo st in
  (∀ rw cl, r1 ≤ rw ≤ r2 → c1 ≤ cl ≤ c2 →
     let raw := rawBorder range (descriptorOf bo) rw cl in
     metaRecord st' rw cl
     = (if writesMeta range (descriptorOf bo) rw cl then Some raw else None)
     ∧ heap st' <$> getBorders [SelArray rw cl rw cl] st'
       = (if onBoundary range rw cl && negb (allHidden raw) then [raw] else [])
     ∧ (createId rw cl ∈ liveSelectionIds st' ↔ onBoundary range rw cl = true))
  ∧ (∀ rw cl, ¬ (r1 ≤ rw ≤ r2 ∧ c1 ≤ cl ≤ c2) →
       cellView st' rw cl = cellView st rw cl)
  ∧ (r2 < r1 ∨ c2 < c1 → st' = st).
Proof.
  intros Hr Hne range st'. pose proof (reachable_wf st Hr) as Hwf.
  split_and!.
  - intros rw cl Hrw Hcl raw. apply view_components.
    unfold st'. rewrite setBorders_single, setBordersOne_view by done.
    cbn [inItem itemView]. rewrite (decide_True (P := _ ∧ _)) by done.
    by rewrite (decide_False (P := r1 = r2 ∧ c1 = c2)) by done.
  - intros rw cl Hout. unfold st'.
    rewrite setBorders_single, setBordersOne_view by done.
    cbn [inItem]. by rewrite (decide_False (P := _ ∧ _)) by done.
  - intros Hrev. unfold st'.
    rewrite setBorders_single, setBordersOne_array by done.
    by rewrite cellsOf_empty.
Qed.

Lemma setBorders_rectangle_witness :
  let range := {| from := (0, 0); to := (2, 2) |} in
  let st := setBorders [SelArray 1 1 1 1] (Some onlyTop) init in
  let st' := setBorders [SelArray 0 0 2 2] (Some topAndLeft) st in
  (∀ rw cl, 0 ≤ rw ≤ 2 → 0 ≤ cl ≤ 2 →
     let raw := rawBorder range topAndLeft rw cl in
     metaRecord st' rw cl
     = (if writesMeta range topAndLeft rw cl then Some raw else None)
     ∧ heap st' <$> getBorders [SelArray rw cl rw cl] st'
       = (if onBoundary range rw cl && negb (allHidden raw) then [raw] else [])
     ∧ (createId rw cl ∈ liveSelectionIds st' ↔ onBoundary range rw cl = true))
  ∧ (∀ rw cl, ¬ (0 ≤ rw ≤ 2 ∧ 0 ≤ cl ≤ 2) →
       cellView st' rw cl = cellView st rw cl)
  ∧ (2 < 0 ∨ 2 < 0 → st' = st).
Proof.
  apply (setBorders_rectangle
           (setBorders [SelArray 1 1 1 1] (Some onlyTop) init) 0 0 2 2
           (Some topAndLeft)).
  - eapply reachable_step with (op := OpSetBorders _ _);
      [apply reachable_init|reflexivity].
  - lia.
Defined.

Lemma getBordersOne_nil st cell :
  (∀ rw cl, inItem cell rw cl → bordersAt st rw cl = []) →
  getBordersOne st cell = [].
Proof.
  intros H. destruct (getBordersOne st cell) as [|r l] eqn:E; [done|].
  assert (r ∈ getBordersOne st cell) as Hr by (rewrite E; apply elem_of_cons; by left).
  apply elem_of_getBordersOne in Hr as [Hs Hi].
  assert (r ∈ bordersAt st (row (heap st r)) (col (heap st r))) as Hb
    by by apply elem_of_bordersAt.
  rewrite (H _ _ Hi) in Hb. by apply elem_of_nil in Hb.
Qed.

(** X6. [setBorders] with a range object.  When [from] is the top-left
    and [to] the bottom-right corner and the range is not a single cell,
    the range object is handled exactly like the coordinate array of the
    two corners.  When [from] is below or to the right of [to], the
    borders of every cell between the corners are removed and none is
    added, whatever [borderObject] holds: the removal runs from the
    top-left to the bottom-right corner, the loop of
    [prepareBorderFromCustomAddedRange] from [from] to [to].  Cells
    outside the corners are as before. *)
Theorem setBorders_range_object st cell bo :
  reachable st →
  let st' := setBorders [SelRange cell] bo st in
  let ordered := (from cell).1 ≤ (to cell).1 ∧ (from cell).2 ≤ (to cell).2 in
  (ordered → from cell ≠ to cell →
   st' = setBorders [SelArray (from cell).1 (from cell).2 (to cell).1 (to cell).2]
           bo st)
  ∧ (¬ ordered →
     getBorders [SelRange cell] st' = []
     ∧ ∀ rw cl, inItem (SelRange cell) rw cl →
         cellView st' rw cl = (None, [], false))
  ∧ (∀ rw cl, ¬ inItem (SelRange cell) rw cl →
       cellView st' rw cl = cellView st rw cl).
Proof.
  intros Hr st' ordered. pose proof (reachable_wf st Hr) as Hwf.
  assert (∀ rw cl, ¬ ordered → inItem (SelRange cell) rw cl →
            cellView st' rw cl = (None, [], false)) as Hrev.
  { intros rw cl Ho Hin. unfold st'.
    rewrite setBorders_single, setBordersOne_view by done.
    rewrite decide_True by done. cbn [itemView].
    by rewrite (decide_False (P := _ ∧ _)) by done. }
  split_and!.
  - intros [Ho1 Ho2] Hne. unfold st'.
    rewrite !setBorders_single, setBordersOne_range, setBordersOne_array.
    + unfold getTopLeftCorner, getBottomRightCorner. cbn [fst snd].
      rewrite !Z.min_l, !Z.max_r by done. by destruct cell.
    + intros [H1 H2]. apply Hne. destruct (from cell), (to cell). simpl in *.
      by subst.
  - intros Ho. split; [|intros rw cl; by apply Hrev].
    rewrite getBorders_single. apply getBordersOne_nil. intros rw cl Hin.
    pose proof (Hrev rw cl Ho Hin) as Hv. unfold cellView in Hv.
    injection Hv as _ Hs _. by apply fmap_nil_inv in Hs.
  - intros rw cl Hout. unfold st'.
    rewrite setBorders_single, setBordersOne_view by done.
    by rewrite decide_False by done.
Qed.

Lemma setBorders_range_object_witness :
  let cell := {| from := (1, 1); to := (0, 0) |} in
  let st := setBorders [SelArray 0 0 0 0] (Some onlyTop) init in
  let st' := setBorders [SelRange cell] (Some topAndLeft) st in
  getBorders [SelRange cell] st' = []
  ∧ ∀ rw cl, inItem (SelRange cell) rw cl →
      cellView st' rw cl = (None, [], false).
Proof.
  apply (setBorders_range_object
           (setBorders [SelArray 0 0 0 0] (Some onlyTop) init)
           {| from := (1, 1); to := (0, 0) |} (Some topAndLeft)).
  - eapply reachable_step with (op := OpSetBorders _ _);
      [apply reachable_init|reflexivity].
  - simpl. lia.
Defined.

(** X7. [setBorders(selection, borderObject)] leaves every cell that is
    in no rectangle of the selection as it was: the border object in its
    metadata, its saved border and whether it has a live custom
    selection. *)
Theorem setBorders_frame st selection bo rw cl :
  reachable st → (∀ cell, cell ∈ selection → ¬ inItem cell rw cl) →
  cellView (setBorders selection bo st) rw cl = cellView st rw cl.
Proof.
  intros Hr Hout. apply setBorders_outside; [by apply reachable_wf|done].
Qed.

Lemma setBorders_frame_witness :
  let st := setBorders [SelArray 5 5 5 5] (Some onlyTop) init in
  cellView (setBorders [SelArray 0 0 2 2; SelArray 7 7 7 7] (Some topAndLeft) st) 5 5
  = cellView st 5 5.
Proof.
  apply (setBorders_frame (setBorders [SelArray 5 5 5 5] (Some onlyTop) init)
           [SelArray 0 0 2 2; SelArray 7 7 7 7] (Some topAndLeft) 5 5).
  - eapply reachable_step with (op := OpSetBorders _ _);
      [apply reachable_init|reflexivity].
  - intros cell Hc Hin.
    apply elem_of_cons in Hc as [->|Hc]; [simpl in Hin; lia|].
    apply list_elem_of_singleton in Hc as ->. simpl in Hin. lia.
Defined.

(** X8. [setBorders] overwrites: applying [setBorders(selection, b2)]
    after [setBorders(selection, b1)] leaves every cell looking as
    [setBorders(selection, b2)] alone leaves it, so nothing of [b1]
    remains; with [b1 = b2] the second call changes the look of no
    cell. *)
Theorem setBorders_overwrites st selection bo1 bo2 rw cl :
  reachable st →
  cellView (setBorders selection bo2 (setBorders selection bo1 st)) rw cl
  = cellView (setBorders selection bo2 st) rw cl.
Proof.
  intros Hr. pose proof (reachable_wf st Hr) as Hwf.
  pose proof (wf_setBorders selection bo1 st Hwf) as Hwf1.
  destruct (decide (Exists (λ cell, inItem cell rw cl) selection)) as [H|H].
  - apply setBorders_covered; [done..|].
    apply Exists_exists in H as (c & Hc & Hi). by exists c.
  - assert (∀ cell, cell ∈ selection → ¬ inItem cell rw cl) as Hout.
    { intros c Hc Hi. apply H, Exists_exists. by exists c. }
    rewrite !setBorders_outside by done. done.
Qed.

Lemma setBorders_overwrites_witness :
  cellView (setBorders [SelArray 0 0 2 2; SelArray 1 1 1 1] (Some onlyTop)
              (setBorders [SelArray 0 0 2 2; SelArray 1 1 1 1] (Some topAndLeft)
                 init)) 0 0
  = cellView (setBorders [SelArray 0 0 2 2; SelArray 1 1 1 1] (Some onlyTop) init)
      0 0.
Proof.
  apply (setBorders_overwrites init [SelArray 0 0 2 2; SelArray 1 1 1 1]
           (Some topAndLeft) (Some onlyTop) 0 0).
  apply reachable_init.
Defined.

(** ** [clearBorders(selection)] *)

Lemma rawBorder_noEdges range rw cl :
  rawBorder range noEdges rw cl = createEmptyBorders rw cl.
Proof.
  unfold rawBorder, rawEdge.
  destruct (bool_decide (rw = (from range).1)), (bool_decide (rw = (to range).1)),
    (bool_decide (cl = (from range).2)), (bool_decide (cl = (to range).2));
    reflexivity.
Qed.

Lemma rangeView_noEdges range rw cl :
  rangeView range noEdges rw cl = (None, [], onBoundary range rw cl).
Proof.
  unfold rangeView. rewrite rawBorder_noEdges.
  assert (writesMeta range noEdges rw cl = false) as ->.
  { unfold writesMeta, hasOwn. simpl. by rewrite !andb_false_r. }
  change (allHidden (createEmptyBorders rw cl)) with true.
  by rewrite andb_false_r.
Qed.

Lemma itemView_None_range cell rw cl :
  rangePath cell → ∃ live, itemView None cell rw cl = (None, [], live).
Proof.
  destruct cell as [r1 c1 r2 c2|cell]; simpl; intros Hp.
  - rewrite decide_False by done. rewrite rangeView_noEdges. by eexists.
  - destruct (decide ((from cell).1 ≤ (to cell).1 ∧ (from cell).2 ≤ (to cell).2));
      [|by eexists].
    rewrite rangeView_noEdges. by eexists.
Qed.

Lemma clear_covered selection st rw cl :
  wf st → Forall rangePath selection →
  (∃ cell, cell ∈ selection ∧ inItem cell rw cl) →
  ∃ live, cellView (setBorders selection None st) rw cl = (None, [], live).
Proof.
  intros Hwf.
  induction selection as [|cell selection IH] using rev_ind.
  - intros _ (c & Hc & _). by apply elem_of_nil in Hc.
  - intros Hp (c & Hc & Hin). apply Forall_app in Hp as [Hp Hp1].
    apply Forall_cons in Hp1 as [Hp1 _].
    rewrite setBorders_snoc.
    rewrite setBordersOne_view by by apply wf_setBorders.
    destruct (decide (inItem cell rw cl)) as [H|H];
      [by apply itemView_None_range|].
    apply IH; [done|]. exists c. split; [|done].
    apply elem_of_app in Hc as [Hc|Hc]; [done|].
    apply list_elem_of_singleton in Hc as ->. done.
Qed.

(** X9. [clearBorders(selection)] is [setBorders(selection)] without a
    border object.  For a selection whose elements are range objects or
    coordinate arrays that are not a single cell (they go through
    [prepareBorderFromCustomAddedRange], where the missing border object
    is replaced by the range itself, which has no edge key):
    afterwards [getBorders(selection)] returns nothing, no cell in a
    rectangle of the selection has a saved border or metadata, and every
    cell in no rectangle of the selection is as before.  After
    [clearBorders] with one such array, the cells on the boundary of the
    rectangle have a live custom selection and those inside have
    none. *)
Theorem clearBorders_selection st selection :
  reachable st → Forall rangePath selection →
  let st' := clearBorders (Some selection) st in
  getBorders selection st' = []
  ∧ (∀ rw cl, (∃ cell, cell ∈ selection ∧ inItem cell rw cl) →
       metaRecord st' rw cl = None
       ∧ heap st' <$> getBorders [SelArray rw cl rw cl] st' = [])
  ∧ (∀ rw cl, (∀ cell, cell ∈ selection → ¬ inItem cell rw cl) →
       cellView st' rw cl = cellView st rw cl)
  ∧ (∀ r1 c1 r2 c2 rw cl,
       ¬ (r1 = r2 ∧ c1 = c2) → r1 ≤ rw ≤ r2 → c1 ≤ cl ≤ c2 →
       cellView (clearBorders (Some [SelArray r1 c1 r2 c2]) st) rw cl
       = (None, [], onBoundary {| from := (r1, c1); to := (r2, c2) |} rw cl)).
Proof.
  intros Hr Hp st'. pose proof (reachable_wf st Hr) as Hwf.
  assert (∀ rw cl, (∃ cell, cell ∈ selection ∧ inItem cell rw cl) →
            metaRecord st' rw cl = None
            ∧ heap st' <$> bordersAt st' rw cl = []) as Hcov.
  { intros rw cl Hc.
    destruct (clear_covered selection st rw cl Hwf Hp Hc) as [live Hv].
    unfold cellView in Hv. injection Hv as Hm Hs _.
    unfold st', clearBorders. by rewrite Hm, Hs. }
  split_and!.
  - unfold getBorders. apply bind_nil. intros cell Hc.
    apply getBordersOne_nil. intros rw cl Hin.
    destruct (Hcov rw cl) as [_ Hs]; [by exists cell|].
    by apply fmap_nil_inv in Hs.
  - intros rw cl Hc. rewrite getBorders_point. by apply Hcov.
  - intros rw cl Hout. by apply setBorders_outside.
  - intros r1 c1 r2 c2 rw cl Hne Hrw Hcl. unfold clearBorders.
    rewrite setBorders_single, setBordersOne_view by done.
    cbn [inItem itemView]. rewrite (decide_True (P := _ ≤ _ ≤ _ ∧ _)) by done.
    rewrite (decide_False (P := r1 = r2 ∧ c1 = c2)) by done.
    apply rangeView_noEdges.
Qed.

Lemma clearBorders_selection_witness :
  let st := setBorders [SelArray 0 0 2 2] (Some topAndLeft) init in
  let selection := [SelArray 0 0 1 1; SelRange {| from := (2, 2); to := (2, 0) |}] in
  let st' := clearBorders (Some selection) st in
  getBorders selection st' = []
  ∧ (∀ rw cl, (∃ cell, cell ∈ selection ∧ inItem cell rw cl) →
       metaRecord st' rw cl = None
       ∧ heap st' <$> getBorders [SelArray rw cl rw cl] st' = [])
  ∧ (∀ rw cl, (∀ cell, cell ∈ selection → ¬ inItem cell rw cl) →
       cellView st' rw cl = cellView st rw cl)
  ∧ (∀ r1 c1 r2 c2 rw cl,
       ¬ (r1 = r2 ∧ c1 = c2) → r1 ≤ rw ≤ r2 → c1 ≤ cl ≤ c2 →
       cellView (clearBorders (Some [SelArray r1 c1 r2 c2]) st) rw cl
       = (None, [], onBoundary {| from := (r1, c1); to := (r2, c2) |} rw cl)).
Proof.
  apply (clearBorders_selection
           (setBorders [SelArray 0 0 2 2] (Some topAndLeft) init)
           [SelArray 0 0 1 1; SelRange {| from := (2, 2); to := (2, 0) |}]).
  - eapply reachable_step with (op := OpSetBorders _ _);
      [apply reachable_init|reflexivity].
  - repeat constructor. simpl. lia.
Defined.

(** ** A range of the [customBorders] setting *)

Lemma createCustomBorders_range range d st :
  createCustomBorders [CustomRange range d] st
  = foldl (λ s k, rangeCell range d k.1 k.2 s) st
      (cellsOf (from range).1 (from range).2 (to range).1 (to range).2).
Proof.
  unfold createCustomBorders, arrayEach. cbn [foldl createCustomBorder].
  unfold prepareBorderFromCustomAddedRange. cbn [rowRange rowEdges].
  apply rangeEach_rows_flat.
Qed.

(** X10. [createCustomBorders] with one entry that has a [range], in any
    state the plugin can reach.  A cell of the range on its boundary ends
    with one saved border, the new object with the edges of the entry on
    the sides where the cell is on the boundary, copied as supplied, and
    has a live custom selection; when the four edges of that object are
    hidden (the entry has no visible edge for the sides of the cell) the
    cell ends with no saved border, also when it had one before.  The
    new object is in the metadata of the cell when the entry has an own
    key for one of those sides.  Cells inside the range and cells
    outside it are as before; a range whose [to] is before its [from]
    changes no cell. *)
Theorem declarative_range st range d :
  reachable st →
  let st' := createCustomBorders [CustomRange range d] st in
  (∀ rw cl, (from range).1 ≤ rw ≤ (to range).1 →
     (from range).2 ≤ cl ≤ (to range).2 →
     let raw := rawBorder range d rw cl in
     if onBoundary range rw cl then
       heap st' <$> getBorders [SelArray rw cl rw cl] st'
       = (if allHidden raw then [] else [raw])
       ∧ createId rw cl ∈ liveSelectionIds st'
       ∧ (writesMeta range d rw cl = true → metaRecord st' rw cl = Some raw)
     else cellView st' rw cl = cellView st rw cl)
  ∧ (∀ rw cl, ¬ ((from range).1 ≤ rw ≤ (to range).1
                 ∧ (from range).2 ≤ cl ≤ (to range).2) →
       cellView st' rw cl = cellView st rw cl).
Proof.
  intros Hr st'. pose proof (reachable_wf st Hr) as Hwf.
  unfold st'. rewrite createCustomBorders_range. split.
  - intros rw cl Hrw Hcl. cbv zeta. set (raw := rawBorder range d rw cl).
    assert ((rw, cl) ∈ cellsOf (from range).1 (from range).2 (to range).1
                         (to range).2) as Hin
      by by apply (elem_of_cellsOf _ _ _ _ (rw, cl)).
    destruct (cells_loop_at (λ k, rangeCell range d k.1 k.2) _ rw cl st
                (rangeCell_cells_step range d) Hwf (NoDup_cellsOf _ _ _ _) Hin)
      as (s1 & W1 & Hv1 & Hfin).
    cbn [fst snd] in Hfin.
    destruct (rangeCell_spec range d rw cl s1 W1) as [W2 _].
    pose proof (rangeCell_post range d rw cl s1 W1) as Hpost.
    destruct (onBoundary range rw cl) eqn:Hon.
    + destruct Hpost as [Hs Hl].
      destruct (rangeCell_meta range d rw cl s1 W1 Hon) as [Hm Hh].
      unfold cellView in Hfin. injection Hfin as Hfm Hfs Hfl.
      rewrite getBorders_point. split_and!.
      * by rewrite Hfs.
      * apply (bool_decide_eq_true_1 _). rewrite Hfl.
        by apply bool_decide_eq_true_2.
      * intros Hw. rewrite Hfm. unfold metaRecord. rewrite Hm, Hw. simpl.
        by rewrite Hh.
    + rewrite Hfin, <- Hv1.
      apply (touches_cellView [] s1 _ rw cl (proj1 W1) (proj1 W2) Hpost).
      apply not_elem_of_nil.
  - intros rw cl Hout.
    apply (cells_loop_outside (λ k, rangeCell range d k.1 k.2) _ rw cl st
             (rangeCell_cells_step range d) Hwf).
    by rewrite (elem_of_cellsOf _ _ _ _ (rw, cl)).
Qed.

Lemma declarative_range_witness :
  let range := {| from := (0, 0); to := (2, 2) |} in
  let st := setBorders [SelArray 2 2 2 2; SelArray 1 1 1 1] (Some onlyTop) init in
  let st' := createCustomBorders [CustomRange range topAndLeft] st in
  (∀ rw cl, 0 ≤ rw ≤ 2 → 0 ≤ cl ≤ 2 →
     let raw := rawBorder range topAndLeft rw cl in
     if onBoundary range rw cl then
       heap st' <$> getBorders [SelArray rw cl rw cl] st'
       = (if allHidden raw then [] else [raw])
       ∧ createId rw cl ∈ liveSelectionIds st'
       ∧ (writesMeta range topAndLeft rw cl = true
          → metaRecord st' rw cl = Some raw)
     else cellView st' rw cl = cellView st rw cl)
  ∧ (∀ rw cl, ¬ (0 ≤ rw ≤ 2 ∧ 0 ≤ cl ≤ 2) →
       cellView st' rw cl = cellView st rw cl).
Proof.
  apply (declarative_range
           (setBorders [SelArray 2 2 2 2; SelArray 1 1 1 1] (Some onlyTop) init)
           {| from := (0, 0); to := (2, 2) |} topAndLeft).
  eapply reachable_step with (op := OpSetBorders _ _);
    [apply reachable_init|reflexivity].
Defined.

(** ** The context menu over a rectangle *)

Lemma prepareBorder_single sel place remove st :
  prepareBorder [sel] place remove st = prepareBorderOne place remove sel st.
Proof. reflexivity. Qed.

Lemma prepareBorderOne_edge e remove start end_ st :
  ¬ (start.1 = end_.1 ∧ start.2 = end_.2) →
  prepareBorderOne (PlaceEdge e) remove (start, end_) st
  = foldl (λ s k, setBorder k.1 k.2 e remove s) st (edgeCells e start end_).
Proof.
  intros Hne. unfold prepareBorderOne. rewrite decide_False by done.
  unfold rangeEach, edgeCells. destruct e; by rewrite foldl_fmap.
Qed.

Lemma elem_of_edgeCells e start end_ rw cl :
  (rw, cl) ∈ edgeCells e start end_ ↔ onEdge e start end_ rw cl.
Proof.
  unfold edgeCells, onEdge. destruct e; rewrite list_elem_of_fmap; split.
  all: try (intros (x & Hx & Hin); injection Hx as -> ->;
            apply elem_of_rangeIndices in Hin; done).
  - intros [-> H]. exists cl. split; [done|]. by apply elem_of_rangeIndices.
  - intros [-> H]. exists rw. split; [done|]. by apply elem_of_rangeIndices.
  - intros [-> H]. exists cl. split; [done|]. by apply elem_of_rangeIndices.
  - intros [-> H]. exists rw. split; [done|]. by apply elem_of_rangeIndices.
Qed.

Lemma NoDup_edgeCells e start end_ : NoDup (edgeCells e start end_).
Proof.
  unfold edgeCells.
  destruct e; (apply NoDup_fmap_2; [|apply NoDup_rangeIndices]);
    intros x y H; by injection H.
Qed.

Lemma setBorder_cells_step e remove (k : Z * Z) s :
  wf s →
  wf (setBorder k.1 k.2 e remove s)
  ∧ touches [createId k.1 k.2] s (setBorder k.1 k.2 e remove s).
Proof.
  intros Hwf. destruct (setBorder_spec k.1 k.2 e remove s Hwf) as (H1 & H2 & _).
  done.
Qed.

(** X11. The item of an edge ('top', 'right', 'bottom' or 'left') of the
    context menu over a selection that is not a single cell works on the
    cells of that edge of the selection: the first row for 'top', the
    last column for 'right', the last row for 'bottom', the first column
    for 'left'.  Each of them gets its border object (the one of its
    metadata, or a new empty one) with the edge set in its metadata; when
    a removal hides the last visible edge the cell loses its metadata,
    its saved border and its live custom selection.  Every other cell is
    as before. *)
Theorem menu_edge_over_rectangle st start end_ e (remove : bool) :
  reachable st → ¬ (start.1 = end_.1 ∧ start.2 = end_.2) →
  let st' := prepareBorder [(start, end_)] (PlaceEdge e) remove st in
  (∀ rw cl, onEdge e start end_ rw cl →
     let b1 := setEdge e
                 (if remove then createSingleEmptyBorder
                  else createDefaultCustomBorder)
                 (startBorder rw cl st) in
     if remove && allHidden b1 then cellView st' rw cl = (None, [], false)
     else metaRecord st' rw cl = Some b1)
  ∧ (∀ rw cl, ¬ onEdge e start end_ rw cl →
       cellView st' rw cl = cellView st rw cl).
Proof.
  intros Hr Hne st'. pose proof (reachable_wf st Hr) as Hwf.
  unfold st'. rewrite prepareBorder_single, prepareBorderOne_edge by done.
  split.
  - intros rw cl Hon. cbv zeta.
    set (b1 := setEdge e (if remove then createSingleEmptyBorder
                          else createDefaultCustomBorder) (startBorder rw cl st)).
    apply elem_of_edgeCells in Hon.
    destruct (cells_loop_at (λ k, setBorder k.1 k.2 e remove) _ rw cl st
                (setBorder_cells_step e remove) Hwf (NoDup_edgeCells _ _ _) Hon)
      as (s1 & W1 & Hv1 & Hfin).
    cbn [fst snd] in Hfin.
    assert (startBorder rw cl s1 = startBorder rw cl st) as Hsb.
    { apply startBorder_ext. unfold cellView in Hv1. by injection Hv1. }
    destruct (setBorder_spec rw cl e remove s1 W1) as (W2 & _ & Hpost).
    rewrite Hsb in Hpost. fold b1 in Hpost.
    destruct (remove && allHidden b1).
    + rewrite Hfin. destruct Hpost as (Hm & Hs & Hl). unfold cellView.
      rewrite Hm, bordersAt_nil by (done || apply W2).
      by rewrite bool_decide_eq_false_2.
    + unfold cellView in Hfin. injection Hfin as -> _ _. done.
  - intros rw cl Hout.
    apply (cells_loop_outside (λ k, setBorder k.1 k.2 e remove) _ rw cl st
             (setBorder_cells_step e remove) Hwf).
    by rewrite elem_of_edgeCells.
Qed.

Lemma menu_edge_over_rectangle_witness :
  let st := setBorders [SelArray 0 2 0 2] (Some onlyTop) init in
  let st' := prepareBorder [((0, 0), (1, 2))] (PlaceEdge Right) false st in
  (∀ rw cl, onEdge Right (0, 0) (1, 2) rw cl →
     let b1 := setEdge Right createDefaultCustomBorder (startBorder rw cl st) in
     metaRecord st' rw cl = Some b1)
  ∧ (∀ rw cl, ¬ onEdge Right (0, 0) (1, 2) rw cl →
       cellView st' rw cl = cellView st rw cl).
Proof.
  apply (menu_edge_over_rectangle
           (setBorders [SelArray 0 2 0 2] (Some onlyTop) init)
           (0, 0) (1, 2) Right false).
  - eapply reachable_step with (op := OpSetBorders _ _);
      [apply reachable_init|reflexivity].
  - simpl. lia.
Defined.

Lemma prepareBorderOne_noBorders remove start end_ st :
  prepareBorderOne NoBorders remove (start, end_) st
  = foldl (λ s k, removeAllBorders k.1 k.2 s) st
      (c ← rangeIndices start.2 end_.2; r ← rangeIndices start.1 end_.1; [(r, c)]).
Proof.
  unfold prepareBorderOne.
  destruct (decide (start.1 = end_.1 ∧ start.2 = end_.2)) as [[<- <-]|Hne].
  - by rewrite !rangeIndices_single.
  - apply rangeEach_cols_flat.
Qed.

(** X12. The 'noBorders' item of the context menu over a selection from
    [start] to [end] removes the borders of every cell of the rectangle:
    afterwards none of them has metadata, a saved border or a live
    custom selection, and [getBorders] over the rectangle returns
    nothing.  Every cell outside the rectangle is as before. *)
Theorem menu_noBorders_over_rectangle st start end_ (remove : bool) :
  reachable st →
  let st' := prepareBorder [(start, end_)] NoBorders remove st in
  (∀ rw cl, start.1 ≤ rw ≤ end_.1 → start.2 ≤ cl ≤ end_.2 →
     cellView st' rw cl = (None, [], false))
  ∧ (∀ rw cl, ¬ (start.1 ≤ rw ≤ end_.1 ∧ start.2 ≤ cl ≤ end_.2) →
       cellView st' rw cl = cellView st rw cl)
  ∧ getBorders [SelArray start.1 start.2 end_.1 end_.2] st' = [].
Proof.
  intros Hr st'. pose proof (reachable_wf st Hr) as Hwf.
  assert (∀ rw cl, start.1 ≤ rw ≤ end_.1 → start.2 ≤ cl ≤ end_.2 →
            cellView st' rw cl = (None, [], false)) as Hin.
  { intros rw cl Hrw Hcl. unfold st'.
    rewrite prepareBorder_single, prepareBorderOne_noBorders.
    apply removeAll_cells_view; [done|apply NoDup_cells_cols|].
    by apply (elem_of_cells_cols _ _ _ _ (rw, cl)). }
  split_and!; [done| |].
  - intros rw cl Hout. unfold st'.
    rewrite prepareBorder_single, prepareBorderOne_noBorders.
    apply (cells_loop_outside (λ k, removeAllBorders k.1 k.2) _ rw cl st
             removeAll_cells_step Hwf).
    by rewrite (elem_of_cells_cols _ _ _ _ (rw, cl)).
  - rewrite getBorders_single. apply getBordersOne_nil. intros rw cl [Hrw Hcl].
    pose proof (Hin rw cl Hrw Hcl) as Hv. unfold cellView in Hv.
    injection Hv as _ Hs _. by apply fmap_nil_inv in Hs.
Qed.

Lemma menu_noBorders_over_rectangle_witness :
  let st := setBorders [SelArray 0 0 3 3] (Some topAndLeft) init in
  let st' := prepareBorder [((0, 0), (1, 2))] NoBorders false st in
  (∀ rw cl, 0 ≤ rw ≤ 1 → 0 ≤ cl ≤ 2 → cellView st' rw cl = (None, [], false))
  ∧ (∀ rw cl, ¬ (0 ≤ rw ≤ 1 ∧ 0 ≤ cl ≤ 2) →
       cellView st' rw cl = cellView st rw cl)
  ∧ getBorders [SelArray 0 0 1 2] st' = [].
Proof.
  apply (menu_noBorders_over_rectangle
           (setBorders [SelArray 0 0 3 3] (Some topAndLeft) init)
           (0, 0) (1, 2) false).
  eapply reachable_step with (op := OpSetBorders _ _);
    [apply reachable_init|reflexivity].
Defined.

(** ** [setBorder] and the saved borders *)

Lemma bordersMetaOf_frame rw cl st :
  let M := (bordersMetaOf rw cl st).1 in
  let st0 := (bordersMetaOf rw cl st).2 in
  savedBorders st0 = savedBorders st
  ∧ customSelections st0 = customSelections st
  ∧ (∀ r, (r < next st)%nat → heap st0 r = heap st r)
  ∧ ((cellMeta st !! (rw, cl) = Some M ∧ is_Some (border (heap st M)))
     ∨ (M = next st
        ∧ ∀ r, cellMeta st !! (rw, cl) = Some r → border (heap st r) = None)).
Proof.
  unfold bordersMetaOf.
  assert (let M := (alloc (createEmptyBorders rw cl) st).1 in
          let st0 := (alloc (createEmptyBorders rw cl) st).2 in
          savedBorders st0 = savedBorders st
          ∧ customSelections st0 = customSelections st
          ∧ (∀ r, (r < next st)%nat → heap st0 r = heap st r)
          ∧ M = next st) as (A1 & A2 & A3 & A4).
  { split_and!; try done. intros r Hr. by apply alloc_other. }
  destruct (cellMeta st !! (rw, cl)) as [r|] eqn:E.
  - destruct (border (heap st r)) eqn:Eb.
    + simpl. split_and!; try done. left. by rewrite Eb.
    + split_and!; try done. right. split; [done|]. intros r' Hr'.
      by injection Hr' as <-.
  - split_and!; try done. right. split; [done|]. intros r' Hr'. done.
Qed.

Lemma applyEdge_nonevict rw cl place (remove : bool) M st :
  let v := if remove then createSingleEmptyBorder else createDefaultCustomBorder in
  remove && allHidden (setEdge place v (heap st M)) = false →
  applyEdge rw cl place remove M st
  = syncBorder rw cl M (modify M (setEdge place v) st).
Proof.
  intros v Hne. unfold applyEdge. destruct remove; [|done].
  cbn [andb] in Hne. rewrite modify_same.
  rewrite decide_False; [done|]. by apply countHide_not_allHidden.
Qed.

(** X13. [setBorder] (the context menu on one cell) and
    [this.savedBorders], when the call does not remove the borders of
    the cell.  [setBorder] passes the border object to
    [insertBorderIntoSettings] only when no custom selection has the id
    of the cell; then the object becomes the saved border of the cell.
    When a custom selection with the id exists, live or cleared,
    [this.savedBorders] keeps the same objects: the saved border of the
    cell shows the new edge only if it is the very object in the
    metadata of the cell, which is edited in place; otherwise it stays
    as it was, or the cell has none. *)
Theorem setBorder_and_saved_borders st rw cl place (remove : bool) :
  reachable st →
  let b1 := setEdge place
              (if remove then createSingleEmptyBorder else createDefaultCustomBorder)
              (startBorder rw cl st) in
  remove && allHidden b1 = false →
  let st' := setBorder rw cl place remove st in
  if decide (createId rw cl ∈ selectionIds st) then
    savedBorders st' = savedBorders st
    ∧ ∀ r, r ∈ savedBorders st →
        heap st' r
        = if decide (cellMeta st !! (rw, cl) = Some r ∧ is_Some (border (heap st r)))
          then b1 else heap st r
  else heap st' <$> getBorders [SelArray rw cl rw cl] st' = [b1].
Proof.
  intros Hr b1 Hne st'. pose proof (reachable_wf st Hr) as Hwf.
  pose proof (wf_setBorder rw cl place remove st Hwf) as Hwf'. fold st' in Hwf'.
  unfold st' in *. rewrite setBorder_parts in *.
  destruct (bordersMetaOf_spec rw cl st Hwf) as (W0 & _ & HM & Hh & Hk).
  destruct (bordersMetaOf_frame rw cl st) as (F1 & F2 & F3 & F4).
  set (M := (bordersMetaOf rw cl st).1) in *.
  set (st0 := (bordersMetaOf rw cl st).2) in *.
  set (v := if remove then createSingleEmptyBorder else createDefaultCustomBorder)
    in *.
  rewrite applyEdge_nonevict in * by (rewrite Hh; exact Hne).
  fold v in Hwf' |- *.
  set (st1 := modify M (setEdge place v) st0) in *.
  assert (heap st1 M = b1) as Hb1.
  { unfold st1. rewrite modify_same, Hh. done. }
  assert (wf0 st1) as W1 by (apply wf0_modify; [apply W0|apply keyOf_setEdge]).
  assert (id (heap st1 M) = createId rw cl) as Hid.
  { unfold st1. rewrite modify_same.
    transitivity (id (heap st0 M)); [by destruct place|].
    unfold keyOf in Hk. by injection Hk. }
  assert (selectionIds st1 = selectionIds st) as Hsel.
  { transitivity (selectionIds st0).
    - apply selection_ids_ext. intros s _. apply keyOf_id.
      apply modify_keys, keyOf_setEdge.
    - unfold selectionIds. rewrite F2. apply selection_ids_ext.
      intros s Hs. rewrite F3; [done|]. by apply (wf_sel_valid _ (proj1 Hwf)). }
  assert (allHidden b1 = false) as Hvis.
  { destruct remove; [done|]. by apply allHidden_setEdge_visible. }
  unfold syncBorder in *.
  destruct (checkCustomSelectionsFromContextMenu M st1) eqn:Hc.
  - apply checkCustomSelectionsFromContextMenu_true in Hc.
    rewrite Hid, Hsel in Hc. rewrite decide_True by done.
    split; [done|]. intros r Hin.
    assert (r < next st)%nat as Hlt by by apply (wf_saved_valid _ (proj1 Hwf)).
    change (heap (setCellMeta rw cl M st1) r) with (heap st1 r).
    destruct (decide (r = M)) as [->|Hneq].
    + rewrite Hb1. destruct F4 as [[F4 F5]|[F4 _]]; [|lia].
      by rewrite decide_True.
    + unfold st1. rewrite modify_other by done. rewrite F3 by done.
      rewrite decide_False; [done|].
      intros [Hm Hb]. destruct F4 as [[F4 _]|[_ F4]].
      * congruence.
      * rewrite (F4 _ Hm) in Hb. by destruct Hb.
  - assert (createId rw cl ∉ selectionIds st) as Hnot.
    { rewrite <- Hsel, <- Hid. intros Hin.
      apply checkCustomSelectionsFromContextMenu_true in Hin. congruence. }
    rewrite decide_False by done.
    assert (M < next st1)%nat as HM1 by done.
    set (st2 := insertBorderIntoSettings M st1) in *.
    rewrite getBorders_point, bordersAt_by_id by apply Hwf'.
    assert (heap st2 M = b1) as Hb2 by (unfold st2; by rewrite insert_heap).
    rewrite (filter_unique (setCellMeta rw cl M st2) M).
    + simpl. by rewrite Hb2.
    + apply Hwf'.
    + change (savedBorders (setCellMeta rw cl M st2)) with (savedBorders st2).
      unfold st2. rewrite insert_saved. apply insertSaved_visible_in.
      by rewrite Hb1.
    + change (heap (setCellMeta rw cl M st2) M) with (heap st2 M).
      rewrite Hb2. unfold b1. transitivity (id (startBorder rw cl st));
        [by destruct place|].
      rewrite <- Hh. unfold keyOf in Hk. by injection Hk.
Qed.

Lemma setBorder_and_saved_borders_witness :
  let st := setBorders [SelArray 0 0 0 0] (Some noEdges) init in
  let b1 := setEdge Top createDefaultCustomBorder (startBorder 0 0 st) in
  let st' := setBorder 0 0 Top false st in
  if decide (createId 0 0 ∈ selectionIds st) then
    savedBorders st' = savedBorders st
    ∧ ∀ r, r ∈ savedBorders st →
        heap st' r
        = if decide (cellMeta st !! (0, 0) = Some r ∧ is_Some (border (heap st r)))
          then b1 else heap st r
  else heap st' <$> getBorders [SelArray 0 0 0 0] st' = [b1].
Proof.
  apply (setBorder_and_saved_borders
           (setBorders [SelArray 0 0 0 0] (Some noEdges) init) 0 0 Top false).
  - eapply reachable_step with (op := OpSetBorders _ _);
      [apply reachable_init|reflexivity].
  - reflexivity.
Defined.

(** ** The order of [this.savedBorders] *)

Lemma filter_all {A} (P : A → Prop) `{!∀ x, Decision (P x)} (l : list A) :
  (∀ x, x ∈ l → P x) → filter P l = l.
Proof.
  induction l as [|a l IH]; intros HP; [done|].
  rewrite filter_cons_True by (apply HP, elem_of_cons; by left).
  f_equal. apply IH. intros x Hx. apply HP, elem_of_cons. by right.
Qed.

Lemma delete_indexOf_filter (x : string) (l : list string) :
  NoDup l →
  match indexOf x l with
  | Some index => delete index l
  | None => l
  end = filter (λ y, y ≠ x) l.
Proof.
  induction l as [|a l IH]; intros Hnd; [done|].
  apply NoDup_cons in Hnd as [Ha Hnd]. cbn [indexOf].
  destruct (decide (x = a)) as [->|Hne].
  - rewrite filter_cons_False by (intros H; by apply H).
    symmetry. apply filter_all. intros y Hy ->. done.
  - rewrite filter_cons_True by (intros ->; done).
    specialize (IH Hnd). destruct (indexOf x l); cbn; by rewrite <- IH.
Qed.

Lemma removeAllBorders_savedIds rw cl st :
  wf0 st →
  savedIds (removeAllBorders rw cl st)
  = filter (λ y, y ≠ createId rw cl) (savedIds st).
Proof.
  intros W. unfold savedIds at 1. rewrite removeAllBorders_saved.
  destruct (removeAllBorders_heap rw cl st) as [-> _].
  destruct (spliceBorder_frame (createId rw cl) st) as (Hh & _).
  rewrite <- Hh. change (savedIds (spliceBorder (createId rw cl) st)
                         = filter (λ y, y ≠ createId rw cl) (savedIds st)).
  rewrite spliceBorder_savedIds. apply delete_indexOf_filter, W.
Qed.

(** The saved ids after [prepareBorderFromCustomAdded]. *)
Lemma prepare_savedIds rw cl d st :
  wf st →
  let b := extendDefaultBorder (createEmptyBorders rw cl) d in
  let x := createId rw cl in
  savedIds (prepareBorderFromCustomAdded rw cl d st)
  = if allHidden b then filter (λ y, y ≠ x) (savedIds st)
    else if decide (x ∈ savedIds st) then savedIds st else savedIds st ++ [x].
Proof.
  intros Hwf b x.
  destruct (prepareBorderFromCustomAdded_spec rw cl d st Hwf)
    as (W' & T & Hm & Hh & Hn & Hs & Hl).
  destruct (prepareBorderFromCustomAdded_saved rw cl d st Hwf) as (_ & Hnew & Hrep).
  fold b in Hh, Hs, Hnew, Hrep.
  set (st' := prepareBorderFromCustomAdded rw cl d st) in *.
  assert (∀ l : list ref, (∀ r, r ∈ l → (r < next st)%nat) →
            (λ r, id (heap st' r)) <$> l = (λ r, id (heap st r)) <$> l) as Hold.
  { intros l Hl'. apply ids_ext. intros r Hr. apply keyOf_id.
    apply (t_keys _ _ _ T). by apply Hl'. }
  assert (id (heap st' (next st)) = x) as Hidn.
  { rewrite Hh. unfold b. transitivity (id (createEmptyBorders rw cl)); [|done].
    apply keyOf_id, keyOf_extendDefaultBorder. }
  destruct (allHidden b) eqn:Eb.
  - set (st_a := setCellMeta rw cl (next st) (alloc b st).2) in *.
    assert (heap st_a (next st) = b) as Ha by apply alloc_same.
    assert (savedBorders st' = savedBorders (spliceBorder x st_a)) as Hsp.
    { rewrite Hs. unfold insertSaved.
      destruct (checkSavedBorders_cases (next st) st_a) as [[_ ->]|[[H _]|[H _]]].
      - rewrite Ha.
        assert (id b = x) as ->; [|done].
        transitivity (id (createEmptyBorders rw cl)); [|done].
        apply keyOf_id, keyOf_extendDefaultBorder.
      - rewrite Ha in H. congruence.
      - rewrite Ha in H. congruence. }
    assert (savedIds st_a = savedIds st) as Hids.
    { unfold savedIds. apply ids_ext. intros r Hr.
      change (heap st_a r) with (heap (alloc b st).2 r).
      rewrite alloc_other; [done|]. by apply (wf_saved_valid _ (proj1 Hwf)). }
    unfold savedIds at 1. rewrite Hsp.
    transitivity (savedIds (spliceBorder x st_a)).
    + unfold savedIds.
      destruct (spliceBorder_frame x st_a) as (Hhs & _). rewrite Hhs.
      rewrite Hold.
      * apply ids_ext. intros r Hr. symmetry.
        change (heap st_a r) with (heap (alloc b st).2 r).
        rewrite alloc_other; [done|].
        apply (wf_saved_valid _ (proj1 Hwf)).
        eapply elem_of_sublist; [done|]. apply (spliceBorder_sublist x st_a).
      * intros r Hr. apply (wf_saved_valid _ (proj1 Hwf)).
        eapply elem_of_sublist; [done|]. apply (spliceBorder_sublist x st_a).
    + rewrite spliceBorder_savedIds, Hids. apply delete_indexOf_filter, Hwf.
  - destruct (decide (x ∈ savedIds st)) as [Hin|Hout].
    + apply elem_of_savedIds in Hin as (r0 & Hr0 & Hid0).
      apply list_elem_of_lookup in Hr0 as [i Hi].
      unfold savedIds at 1. rewrite (Hrep eq_refl i r0 Hi Hid0).
      rewrite list_fmap_insert, Hidn.
      rewrite Hold by (intros r Hr; by apply (wf_saved_valid _ (proj1 Hwf))).
      apply list_insert_id. unfold savedIds. rewrite list_lookup_fmap, Hi.
      simpl. by rewrite Hid0.
    + unfold savedIds at 1. rewrite (Hnew eq_refl Hout).
      rewrite fmap_app. simpl. rewrite Hidn.
      rewrite Hold by (intros r Hr; by apply (wf_saved_valid _ (proj1 Hwf))).
      done.
Qed.

(** X14. Where a cell's border is in [this.savedBorders], the list
    [getBorders] goes through.  An entry of the [customBorders] setting
    with [row] and [col] replaces the saved border of the cell at its
    position, adds it at the end when the cell had none, and removes it
    when the four edges of the new border are hidden; the other saved
    borders keep their order.  [setBorders] on the cell removes the
    saved border first, so the new one is always at the end.  The
    'noBorders' item of the context menu removes the saved border of the
    cell and keeps the order of the others. *)
Theorem saved_borders_order st rw cl o :
  reachable st →
  let b := extendDefaultBorder (createEmptyBorders rw cl) (Some o) in
  let x := createId rw cl in
  savedIds (createCustomBorders [CustomCell rw cl o] st)
  = (if allHidden b then filter (λ y, y ≠ x) (savedIds st)
     else if decide (x ∈ savedIds st) then savedIds st else savedIds st ++ [x])
  ∧ savedIds (setBorders [SelArray rw cl rw cl] (Some o) st)
    = filter (λ y, y ≠ x) (savedIds st) ++ (if allHidden b then [] else [x])
  ∧ savedIds (prepareBorder [((rw, cl), (rw, cl))] NoBorders false st)
    = filter (λ y, y ≠ x) (savedIds st).
Proof.
  intros Hr b x. pose proof (reachable_wf st Hr) as Hwf. split_and!.
  - apply (prepare_savedIds rw cl (Some o) st Hwf).
  - rewrite setBorders_point.
    destruct (removeAllBorders_spec rw cl st Hwf) as [W1 _].
    rewrite (prepare_savedIds rw cl (Some o) _ W1). fold b x.
    rewrite removeAllBorders_savedIds by apply Hwf.
    destruct (allHidden b).
    + rewrite app_nil_r. apply filter_all. intros y Hy.
      by apply list_elem_of_filter in Hy as [? _].
    + rewrite decide_False; [done|]. intros Hin.
      apply list_elem_of_filter in Hin as [Hne _]. by apply Hne.
  - rewrite prepareBorder_point. apply removeAllBorders_savedIds, Hwf.
Qed.

Lemma saved_borders_order_witness :
  let st := setBorders [SelArray 0 0 0 0; SelArray 0 1 0 1] (Some onlyTop) init in
  let b := extendDefaultBorder (createEmptyBorders 0 0) (Some topAndLeft) in
  let x := createId 0 0 in
  savedIds (createCustomBorders [CustomCell 0 0 topAndLeft] st)
  = (if allHidden b then filter (λ y, y ≠ x) (savedIds st)
     else if decide (x ∈ savedIds st) then savedIds st else savedIds st ++ [x])
  ∧ savedIds (setBorders [SelArray 0 0 0 0] (Some topAndLeft) st)
    = filter (λ y, y ≠ x) (savedIds st) ++ (if allHidden b then [] else [x])
  ∧ savedIds (prepareBorder [((0, 0), (0, 0))] NoBorders false st)
    = filter (λ y, y ≠ x) (savedIds st).
Proof.
  apply (saved_borders_order
           (setBorders [SelArray 0 0 0 0; SelArray 0 1 0 1] (Some onlyTop) init)
           0 0 topAndLeft).
  eapply reachable_step with (op := OpSetBorders _ _);
    [apply reachable_init|reflexivity].
Defined.

(** ** The settings applied *)

(** [createCustomBorders(this.savedBorders)] runs to its end and keeps the
    saved ids. *)
Lemma createSavedBordersFrom_ids count :
  ∀ i s, wf s → length (savedBorders s) = (i + count)%nat →
  ∃ s', createSavedBordersFrom i count s = Some s' ∧ wf s'
    ∧ savedIds s' = savedIds s.
Proof.
  induction count as [|count IH]; intros i s Hwf Hlen.
  - by exists s.
  - simpl. destruct (savedBorders s !! i) as [r|] eqn:Hi.
    2:{ apply lookup_ge_None in Hi. lia. }
    destruct (reapply_step i r s Hwf Hi) as (W1 & _ & Hs1 & _).
    pose proof (prepare_savedIds (row (heap s r)) (col (heap s r))
                  (Some (recordAsDescriptor (heap s r))) s Hwf) as Hids.
    cbv zeta in Hids.
    change (extendDefaultBorder _ _) with (reapply (heap s r)) in Hids.
    assert (r ∈ savedBorders s) as Hr by by eapply list_elem_of_lookup_2.
    rewrite allHidden_reapply in Hids.
    rewrite (proj2 Hwf r Hr) in Hids.
    rewrite decide_True in Hids.
    2:{ rewrite <- (wf_heap_coords _ (proj1 Hwf)).
        by apply (list_elem_of_fmap_2 (λ r, id (heap s r))). }
    set (s1 := prepareBorderFromCustomAdded _ _ _ s) in *.
    destruct (IH (S i) s1 W1) as (s' & Hrun & W' & Hids').
    { rewrite Hs1, length_insert. lia. }
    exists s'. split_and!; [done|done|]. by rewrite Hids', Hids.
Qed.

Lemma changeBorderSettings_total customBorders s :
  wf s →
  ∃ s', changeBorderSettings customBorders s = Some s'
    ∧ match customBorders with
      | SettingOther _ => savedIds s' = savedIds s
      | _ => True
      end.
Proof.
  intros Hwf. destruct customBorders as [|l|t]; simpl.
  - by exists s.
  - eauto.
  - destruct (createSavedBordersFrom_ids (length (savedBorders s)) 0%nat s Hwf)
      as (s' & Hrun & _ & Hids); [done|].
    by exists s'.
Qed.

(** X15. [createCustomBorders(this.savedBorders)], which
    [changeBorderSettings] runs when the [customBorders] setting is
    neither undefined nor an array, runs to its end from every state the
    plugin can reach, from [onAfterInit] as well as from [updatePlugin].
    Its loop reads [this.savedBorders[index]] while each step replaces
    that very element; no element is spliced away, because no saved
    border has four hidden edges, so no index is read past the end.  The
    ids of [this.savedBorders] are afterwards the same, in the same
    order. *)
Theorem saved_borders_reapplied_in_place st truthy :
  reachable st →
  (∃ st', onAfterInit (SettingOther truthy) st = Some st'
     ∧ savedIds st' = savedIds st)
  ∧ (∃ st', updatePlugin (SettingOther truthy) st = Some st'
       ∧ savedIds st' = savedIds st).
Proof.
  intros Hr. pose proof (reachable_wf st Hr) as Hwf. split.
  - apply (changeBorderSettings_total (SettingOther truthy) st Hwf).
  - unfold updatePlugin.
    destruct (changeBorderSettings_total (SettingOther truthy)
                (enablePlugin (disablePlugin st))) as (s' & Hrun & Hids).
    { apply wf_enablePlugin, wf_disablePlugin, Hwf. }
    exists s'. split; [done|]. rewrite Hids.
    destruct (clearBorders_None_frame st) as (Hh & _ & Hs & _).
    unfold savedIds. cbn [enablePlugin disablePlugin].
    transitivity ((λ r, id (heap (clearBorders None st) r))
                    <$> savedBorders (clearBorders None st)); [done|].
    by rewrite Hh, Hs.
Qed.

Lemma saved_borders_reapplied_in_place_witness :
  let st := setBorders [SelArray 0 0 0 0; SelArray 0 1 0 1] (Some onlyTop) init in
  (∃ st', onAfterInit (SettingOther true) st = Some st'
     ∧ savedIds st' = savedIds st)
  ∧ (∃ st', updatePlugin (SettingOther true) st = Some st'
       ∧ savedIds st' = savedIds st).
Proof.
  apply (saved_borders_reapplied_in_place
           (setBorders [SelArray 0 0 0 0; SelArray 0 1 0 1] (Some onlyTop) init)
           true).
  eapply reachable_step with (op := OpSetBorders _ _);
    [apply reachable_init|reflexivity].
Defined.

(** ** [clearNullCellRange] *)

Lemma removeFirstNull_filter l :
  filter (λ s, is_Some (cellRange s)) (removeFirstNull l)
  = filter (λ s, is_Some (cellRange s)) l.
Proof.
  induction l as [|s l0 IH]; [done|]. cbn [removeFirstNull].
  destruct (cellRange s) eqn:E.
  - rewrite !filter_cons_True by (rewrite E; by eexists). by rewrite IH.
  - rewrite filter_cons_False; [done|]. rewrite E. by intros [? ?].
Qed.

Lemma removeFirstNull_all l :
  Forall (λ s, is_Some (cellRange s)) l → removeFirstNull l = l.
Proof.
  induction l as [|s l0 IH]; intros Hall; [done|]. cbn [removeFirstNull].
  apply Forall_cons in Hall as [[x Hx] Hall]. rewrite Hx. f_equal. by apply IH.
Qed.

Lemma removeFirstNull_length l :
  ¬ Forall (λ s, is_Some (cellRange s)) l →
  S (length (removeFirstNull l)) = length l.
Proof.
  induction l as [|s l0 IH]; intros Hex; [by destruct Hex|].
  cbn [removeFirstNull].
  destruct (cellRange s) eqn:E; [|done]. cbn [length]. f_equal. apply IH.
  intros Hall. apply Hex. apply Forall_cons. split; [|done]. rewrite E.
  by eexists.
Qed.

Lemma removeFirstNull_first l1 s l2 :
  Forall (λ s', is_Some (cellRange s')) l1 → cellRange s = None →
  removeFirstNull (l1 ++ s :: l2) = l1 ++ l2.
Proof.
  intros Hall Hs. induction l1 as [|a l1 IH]; cbn [app removeFirstNull].
  - by rewrite Hs.
  - apply Forall_cons in Hall as [[x Hx] Hall]. rewrite Hx. f_equal. by apply IH.
Qed.

(** X16. [clearNullCellRange()] removes the first custom selection whose
    [cellRange] is [null], and nothing else: when the collection is
    [l1], then [s], then [l2], where the custom selections of [l1] are
    all live and [s] is cleared, the collection is [l1] followed by [l2]
    afterwards, so the cleared custom selections of [l2] stay in it.
    When no custom selection is cleared the state does not change.
    Nothing but the collection changes. *)
Theorem clearNullCellRange_removes_first st :
  (∀ l1 s l2,
     customSelections st = l1 ++ s :: l2 →
     Forall (λ s', is_Some (cellRange s')) l1 → cellRange s = None →
     clearNullCellRange st = set_customSelections (l1 ++ l2) st)
  ∧ (Forall (λ s, is_Some (cellRange s)) (customSelections st) →
     clearNullCellRange st = st).
Proof.
  split.
  - intros l1 s l2 Hl Hall Hs. unfold clearNullCellRange.
    by rewrite Hl, removeFirstNull_first.
  - intros Hall. unfold clearNullCellRange.
    rewrite removeFirstNull_all by done. by destruct st.
Qed.

Lemma clearNullCellRange_removes_first_witness :
  let st := clearBorders None
              (setBorders [SelArray 0 1 0 1; SelArray 0 2 0 2] (Some onlyTop)
                 (createCustomBorders [CustomCell 0 0 noEdges] init)) in
  liveSelectionIds st = [createId 0 0]
  ∧ selectionIds st = [createId 0 0; createId 0 1; createId 0 2]
  ∧ selectionIds (clearNullCellRange st) = [createId 0 0; createId 0 2]
  ∧ liveSelectionIds (clearNullCellRange st) = [createId 0 0].
Proof.
  intros st.
  destruct (clearNullCellRange_removes_first st) as [H _].
  rewrite (H [{| settings := 0%nat;
                 cellRange := Some {| from := (0, 0); to := (0, 0) |} |}]
             {| settings := 1%nat; cellRange := None |}
             [{| settings := 2%nat; cellRange := None |}]).
  - by vm_compute.
  - reflexivity.
  - repeat constructor. by eexists.
  - reflexivity.
Defined.

(** ** [updatePlugin] with an array *)

Lemma createCustomBorder_outside c st rw cl :
  wf st → ¬ inEntry c rw cl →
  wf (createCustomBorder c st)
  ∧ cellView (createCustomBorder c st) rw cl = cellView st rw cl.
Proof.
  intros Hwf Hout.
  split; [apply (wf_createCustomBorders [c] st Hwf)|].
  destruct c as [range d|r c d].
  - change (createCustomBorder (CustomRange range d) st)
      with (createCustomBorders [CustomRange range d] st).
    rewrite createCustomBorders_range.
    apply (cells_loop_outside (λ k, rangeCell range d k.1 k.2) _ rw cl st
             (rangeCell_cells_step range d) Hwf).
    by rewrite (elem_of_cellsOf _ _ _ _ (rw, cl)).
  - cbn [createCustomBorder].
    destruct (prepareBorderFromCustomAdded_spec r c (Some d) st Hwf)
      as (W' & T & _).
    apply (touches_cellView _ _ _ rw cl (proj1 Hwf) (proj1 W') T).
    intros Hx. apply list_elem_of_singleton, createId_inj in Hx. by apply Hout.
Qed.

Lemma createCustomBorders_outside l st rw cl :
  wf st → (∀ c, c ∈ l → ¬ inEntry c rw cl) →
  cellView (createCustomBorders l st) rw cl = cellView st rw cl.
Proof.
  revert st. induction l as [|c l IH]; intros st Hwf Hout; [done|].
  change (createCustomBorders (c :: l) st)
    with (createCustomBorders l (createCustomBorder c st)).
  destruct (createCustomBorder_outside c st rw cl Hwf) as [W1 Hv].
  { apply Hout, elem_of_cons. by left. }
  rewrite IH; [done|done|]. intros c' Hc'. apply Hout, elem_of_cons. by right.
Qed.

Lemma getBorders_no_saved selection st :
  savedBorders st = [] → getBorders selection st = [].
Proof.
  intros Hs. unfold getBorders. apply bind_nil. intros cell _.
  apply getBordersOne_nil. intros rw cl _. unfold bordersAt. by rewrite Hs.
Qed.

(** X17. [updatePlugin()] with an array as the [customBorders] setting.
    With the empty array [this.savedBorders] is reset: no border is
    saved afterwards.  With a non-empty array it is not: a border that
    was saved before, for a cell that no entry of the array names, is
    still in [this.savedBorders] and [getBorders] returns it, while the
    cell has lost its metadata and its live custom selection in
    [disablePlugin()]. *)
Theorem updatePlugin_array st l :
  reachable st →
  ∃ st', updatePlugin (SettingArray l) st = Some st'
    ∧ (l = [] →
       savedBorders st' = [] ∧ ∀ selection, getBorders selection st' = [])
    ∧ (l ≠ [] → ∀ b, b ∈ savedRecords st →
       (∀ c, c ∈ l → ¬ inEntry c (row b) (col b)) →
       cellView st' (row b) (col b) = (None, [b], false)).
Proof.
  intros Hr. pose proof (reachable_wf st Hr) as Hwf.
  eexists. split; [reflexivity|]. split.
  - intros ->. split; [done|]. intros selection.
    by apply getBorders_no_saved.
  - intros Hne b Hb Hout.
    set (st1 := enablePlugin (disablePlugin st)).
    assert (wf st1) as W1 by apply wf_enablePlugin, wf_disablePlugin, Hwf.
    assert (createCustomBorders l
              match l with [] => set_savedBorders [] st1 | _ :: _ => st1 end
            = createCustomBorders l st1) as -> by by destruct l.
    rewrite createCustomBorders_outside by done.
    destruct (clearBorders_None_post st Hwf) as (Hs & Hh & Hpost).
    destruct (Hpost b Hb) as [Hm Hl].
    apply list_elem_of_fmap in Hb as (r & -> & Hin).
    transitivity (cellView (clearBorders None st) (row (heap st r)) (col (heap st r)));
      [reflexivity|].
    unfold cellView. rewrite Hm. rewrite bool_decide_eq_false_2.
    2:{ by rewrite <- (wf_heap_coords _ (proj1 Hwf)). }
    do 2 f_equal. unfold bordersAt. rewrite Hs, Hh.
    change (filter _ (savedBorders st))
      with (bordersAt st (row (heap st r)) (col (heap st r))).
    rewrite bordersAt_by_id by apply Hwf.
    rewrite (filter_unique st r); [done|apply Hwf|done|].
    apply (wf_heap_coords _ (proj1 Hwf)).
Qed.

Lemma updatePlugin_array_witness :
  let st := setBorders [SelArray 0 0 0 0] (Some onlyTop) init in
  let l := [CustomCell 1 1 topAndLeft] in
  ∃ st', updatePlugin (SettingArray l) st = Some st'
    ∧ (l = [] →
       savedBorders st' = [] ∧ ∀ selection, getBorders selection st' = [])
    ∧ (l ≠ [] → ∀ b, b ∈ savedRecords st →
       (∀ c, c ∈ l → ¬ inEntry c (row b) (col b)) →
       cellView st' (row b) (col b) = (None, [b], false)).
Proof.
  apply (updatePlugin_array
           (setBorders [SelArray 0 0 0 0] (Some onlyTop) init)
           [CustomCell 1 1 topAndLeft]).
  eapply reachable_step with (op := OpSetBorders _ _);
    [apply reachable_init|reflexivity].
Defined.

(** ** An entry of the [customBorders] setting for one cell *)

Lemma prepare_view rw cl d st :
  wf st →
  cellView (prepareBorderFromCustomAdded rw cl d st) rw cl = pointView rw cl d.
Proof.
  intros Hwf.
  destruct (prepareBorderFromCustomAdded_spec rw cl d st Hwf)
    as (W' & T & Hm & Hh & Hn & Hs & Hl).
  destruct (prepareBorderFromCustomAdded_saved rw cl d st Hwf)
    as (Hin & Hnew & Hrep).
  set (b := extendDefaultBorder (createEmptyBorders rw cl) d) in *.
  set (st' := prepareBorderFromCustomAdded rw cl d st) in *.
  unfold cellView, pointView, metaRecord. fold b. rewrite Hm. simpl. rewrite Hh.
  rewrite bool_decide_eq_true_2 by done. do 2 f_equal.
  destruct (allHidden b) eqn:Eb.
  - rewrite bordersAt_nil; [done|apply W'|]. intros H. apply Hin in H. congruence.
  - assert (next st ∈ savedBorders st') as Hn'.
    { destruct (decide (createId rw cl ∈ savedIds st)) as [Hx|Hx].
      - apply elem_of_savedIds in Hx as (r0 & Hr0 & Hid0).
        apply list_elem_of_lookup in Hr0 as [i Hi].
        rewrite (Hrep eq_refl i r0 Hi Hid0). apply list_elem_of_lookup. exists i.
        apply list_lookup_insert_eq. by eapply lookup_lt_Some.
      - rewrite (Hnew eq_refl Hx). apply elem_of_app. right.
        by apply list_elem_of_singleton. }
    rewrite bordersAt_by_id by apply W'.
    rewrite (filter_unique st' (next st)); [simpl; by rewrite Hh|apply W'|done|].
    rewrite Hh. unfold b. transitivity (id (createEmptyBorders rw cl)); [|done].
    apply keyOf_id, keyOf_extendDefaultBorder.
Qed.

(** X18. An entry of the [customBorders] setting with [row] and [col]
    replaces the border of the cell, it is not merged with the border
    the cell had: the new border object has the own edges of the entry,
    merged over the default custom border, and every edge the entry
    does not have is hidden.  The object is in the metadata of the cell,
    it is the saved border of the cell unless its four edges are hidden
    (then the cell has no saved border), and the cell has a live custom
    selection.  No other cell changes. *)
Theorem declarative_cell st rw cl o :
  reachable st →
  let b := extendDefaultBorder (createEmptyBorders rw cl) (Some o) in
  let st' := createCustomBorders [CustomCell rw cl o] st in
  cellView st' rw cl = (Some b, if allHidden b then [] else [b], true)
  ∧ (∀ e, getEdge e b = match ownEdge e o with
                        | Some v => mergeOverDefault v
                        | None => createSingleEmptyBorder
                        end)
  ∧ (∀ rw' cl', (rw', cl') ≠ (rw, cl) →
       cellView st' rw' cl' = cellView st rw' cl').
Proof.
  intros Hr b st'. pose proof (reachable_wf st Hr) as Hwf. split_and!.
  - apply (prepare_view rw cl (Some o) st Hwf).
  - intros e. apply extendDefaultBorder_edge.
  - intros rw' cl' Hne.
    apply (createCustomBorder_outside (CustomCell rw cl o) st rw' cl' Hwf).
    simpl. intros [-> ->]. done.
Qed.

Lemma declarative_cell_witness :
  let st := setBorders [SelArray 0 0 0 0] (Some topAndLeft) init in
  let b := extendDefaultBorder (createEmptyBorders 0 0) (Some wideTop) in
  let st' := createCustomBorders [CustomCell 0 0 wideTop] st in
  cellView st' 0 0 = (Some b, if allHidden b then [] else [b], true)
  ∧ (∀ e, getEdge e b = match ownEdge e wideTop with
                        | Some v => mergeOverDefault v
                        | None => createSingleEmptyBorder
                        end)
  ∧ (∀ rw' cl', (rw', cl') ≠ (0, 0) →
       cellView st' rw' cl' = cellView st rw' cl').
Proof.
  apply (declarative_cell
           (setBorders [SelArray 0 0 0 0] (Some topAndLeft) init) 0 0 wideTop).
  eapply reachable_step with (op := OpSetBorders _ _);
    [apply reachable_init|reflexivity].
Defined.

(** ** Custom selections are reused *)

Lemma insertSelection_ids b st :
  wf0 st →
  selectionIds (insertSelection b st)
  = if decide (id (heap st b) ∈ selectionIds st) then selectionIds st
    else selectionIds st ++ [id (heap st b)].
Proof.
  intros Hwf. unfold insertSelection.
  destruct (checkCustomSelections_cases b
              {| from := (row (heap st b), col (heap st b));
                 to := (row (heap st b), col (heap st b)) |} st)
    as [(l1 & s & l2 & Hl & Hs & Hl1 & ->)|(Hx & ->)].
  - rewrite decide_True.
    2:{ apply elem_of_selectionIds. exists s. split; [|done].
        rewrite Hl. apply elem_of_app. right. apply elem_of_cons. by left. }
    unfold selectionIds. cbn [customSelections set_customSelections heap].
    rewrite Hl, !fmap_app, !fmap_cons. cbn [settings].
    pose proof (modify_keys (settings s) (λ target, extend target (heap st b))
                  st (extend_keys st _ _ Hwf Hs)) as Hk.
    f_equal; [|f_equal].
    + apply selection_ids_ext. intros s' _. apply keyOf_id, Hk.
    + apply keyOf_id, Hk.
    + apply selection_ids_ext. intros s' _. apply keyOf_id, Hk.
  - rewrite decide_False by done. unfold selectionIds.
    cbn [customSelections set_customSelections heap]. by rewrite fmap_app.
Qed.

Lemma prepare_selectionIds rw cl d st :
  wf st →
  let x := createId rw cl in
  selectionIds (prepareBorderFromCustomAdded rw cl d st)
  = if decide (x ∈ selectionIds st) then selectionIds st
    else selectionIds st ++ [x].
Proof.
  intros Hwf x.
  set (b := extendDefaultBorder (createEmptyBorders rw cl) d).
  set (st_a := setCellMeta rw cl (next st) (alloc b st).2).
  change (prepareBorderFromCustomAdded rw cl d st)
    with (insertBorderIntoSettings (next st) st_a).
  assert (heap st_a (next st) = b) as Ha by apply alloc_same.
  assert (id b = x) as Hid.
  { unfold b. transitivity (id (createEmptyBorders rw cl)); [|done].
    apply keyOf_id, keyOf_extendDefaultBorder. }
  assert (wf0 st_a) as Wa.
  { apply wf0_setCellMeta.
    - apply wf0_alloc; [apply Hwf|].
      unfold b. pose proof (keyOf_extendDefaultBorder (createEmptyBorders rw cl) d)
        as Hk. unfold keyOf in Hk. by injection Hk as -> -> ->.
    - simpl. lia.
    - rewrite alloc_same. unfold b.
      apply (keyOf_row _ (createEmptyBorders rw cl)), keyOf_extendDefaultBorder.
    - rewrite alloc_same. unfold b.
      apply (keyOf_col _ (createEmptyBorders rw cl)), keyOf_extendDefaultBorder. }
  assert (selectionIds st_a = selectionIds st) as Hsel.
  { apply selection_ids_ext. intros s Hs.
    change (heap st_a (settings s)) with (heap (alloc b st).2 (settings s)).
    rewrite alloc_other; [done|]. by apply (wf_sel_valid _ (proj1 Hwf)). }
  rewrite insertBorderIntoSettings_halves.
  assert (next st < next st_a)%nat as Hlt by (simpl; lia).
  pose proof (wf0_insertSaved (next st) st_a Wa Hlt) as Ws.
  destruct (insertSaved_frame (next st) st_a) as (Fh & _ & _ & Fc).
  rewrite insertSelection_ids by done.
  assert (selectionIds (insertSaved (next st) st_a) = selectionIds st) as ->.
  { rewrite <- Hsel. unfold selectionIds. by rewrite Fh, Fc. }
  by rewrite Fh, Ha, Hid.
Qed.

(** X19. [insertBorderIntoSettings] reuses the custom selection of a
    cell.  When an entry of the [customBorders] setting for one cell is
    applied and a custom selection with the id of the cell exists, live
    or cleared by [clearBorders()], no custom selection is added: the
    existing one is given the new border and a [cellRange] again.  Only
    when there is none a custom selection is added, at the end.  Either
    way the cell has a live custom selection afterwards. *)
Theorem custom_selection_reused st rw cl o :
  reachable st →
  let x := createId rw cl in
  let st' := createCustomBorders [CustomCell rw cl o] st in
  selectionIds st'
  = (if decide (x ∈ selectionIds st) then selectionIds st
     else selectionIds st ++ [x])
  ∧ x ∈ liveSelectionIds st'.
Proof.
  intros Hr x st'. pose proof (reachable_wf st Hr) as Hwf. split.
  - apply (prepare_selectionIds rw cl (Some o) st Hwf).
  - destruct (prepareBorderFromCustomAdded_spec rw cl (Some o) st Hwf)
      as (_ & _ & _ & _ & _ & _ & Hl). exact Hl.
Qed.

Lemma custom_selection_reused_witness :
  let st := clearBorders None (setBorders [SelArray 0 0 0 0] (Some onlyTop) init) in
  let x := createId 0 0 in
  let st' := createCustomBorders [CustomCell 0 0 topAndLeft] st in
  selectionIds st'
  = (if decide (x ∈ selectionIds st) then selectionIds st
     else selectionIds st ++ [x])
  ∧ x ∈ liveSelectionIds st'.
Proof.
  apply (custom_selection_reused
           (clearBorders None (setBorders [SelArray 0 0 0 0] (Some onlyTop) init))
           0 0 topAndLeft).
  eapply reachable_step with (op := OpClearBorders None); [|reflexivity].
  eapply reachable_step with (op := OpSetBorders _ _);
    [apply reachable_init|reflexivity].
Defined.

(** ** Context menu items one after the other *)

Lemma border_startBorder rw cl st : is_Some (border (startBorder rw cl st)).
Proof.
  unfold startBorder. destruct (metaRecord st rw cl) as [b|]; [|by eexists].
  destruct (border b) eqn:E; [by rewrite E|by eexists].
Qed.

Lemma setEdge_setEdge e v w b : setEdge e v (setEdge e w b) = setEdge e v b.
Proof. by destruct e. Qed.

Lemma setEdge_comm e1 e2 v w b :
  e1 ≠ e2 → setEdge e1 v (setEdge e2 w b) = setEdge e2 w (setEdge e1 v b).
Proof. by destruct e1, e2. Qed.

(** The border object of the metadata after an edge was added. *)
Lemma setBorder_add_start rw cl e st :
  wf st →
  startBorder rw cl (setBorder rw cl e false st)
  = setEdge e createDefaultCustomBorder (startBorder rw cl st).
Proof.
  intros Hwf. apply startBorder_of_meta.
  - by rewrite (setBorder_meta rw cl e false st Hwf).
  - rewrite border_setEdge. apply border_startBorder.
Qed.

(** X20. Items of the context menu on one cell, one after the other.
    Adding two edges leaves in the metadata of the cell the border
    object the cell started from with both edges set to the default
    custom border, the other edges as they were, and for two different
    edges the order of the two items does not matter for it.  Removing
    an edge right after adding it leaves in the metadata what removing
    it without adding it first leaves. *)
Theorem menu_items_compose st rw cl e1 e2 :
  reachable st →
  let sel := [((rw, cl), (rw, cl))] in
  let add e s := prepareBorder sel (PlaceEdge e) false s in
  let remove e s := prepareBorder sel (PlaceEdge e) true s in
  metaRecord (add e2 (add e1 st)) rw cl
  = Some (setEdge e2 createDefaultCustomBorder
            (setEdge e1 createDefaultCustomBorder (startBorder rw cl st)))
  ∧ (e1 ≠ e2 →
     metaRecord (add e2 (add e1 st)) rw cl = metaRecord (add e1 (add e2 st)) rw cl)
  ∧ metaRecord (remove e1 (add e1 st)) rw cl = metaRecord (remove e1 st) rw cl.
Proof.
  intros Hr sel add remove. pose proof (reachable_wf st Hr) as Hwf.
  unfold add, remove, sel. rewrite !prepareBorder_point.
  assert (∀ a b, metaRecord (setBorder rw cl b false (setBorder rw cl a false st))
                   rw cl
                 = Some (setEdge b createDefaultCustomBorder
                           (setEdge a createDefaultCustomBorder
                              (startBorder rw cl st)))) as Hadd.
  { intros a b.
    rewrite (setBorder_meta rw cl b false _ (wf_setBorder rw cl a false st Hwf)).
    cbn [andb]. by rewrite setBorder_add_start. }
  split_and!.
  - apply Hadd.
  - intros Hne. rewrite !Hadd. f_equal. by apply setEdge_comm.
  - rewrite (setBorder_meta rw cl e1 true _ (wf_setBorder rw cl e1 false st Hwf)).
    rewrite (setBorder_meta rw cl e1 true st Hwf).
    by rewrite setBorder_add_start, setEdge_setEdge.
Qed.

Lemma menu_items_compose_witness :
  let st := setBorders [SelArray 0 0 0 0] (Some onlyTop) init in
  let sel := [((0, 0), (0, 0))] in
  let add e s := prepareBorder sel (PlaceEdge e) false s in
  let remove e s := prepareBorder sel (PlaceEdge e) true s in
  metaRecord (add Left (add Right st)) 0 0
  = Some (setEdge Left createDefaultCustomBorder
            (setEdge Right createDefaultCustomBorder (startBorder 0 0 st)))
  ∧ (Right ≠ Left →
     metaRecord (add Left (add Right st)) 0 0
     = metaRecord (add Right (add Left st)) 0 0)
  ∧ metaRecord (remove Right (add Right st)) 0 0 = metaRecord (remove Right st) 0 0.
Proof.
  apply (menu_items_compose
           (setBorders [SelArray 0 0 0 0] (Some onlyTop) init) 0 0 Right Left).
  eapply reachable_step with (op := OpSetBorders _ _);
    [apply reachable_init|reflexivity].
Defined.
